(** * SigilDERG-Lambda-Package: the evaluation pipeline, embedded and verified

    A shallow embedding of
      - [scripts/evaluate_humaneval.py]: the sandbox resolver
        ([_resolve_sandbox_mode]), the sample filter ([_filter_bad_samples]),
        the evaluator wrapper ([evaluate_samples]) and the orchestrator
        ([run_evaluation_mode], [main]);
      - [scripts/validate_ecosystem.py]: the ecosystem validator.

    The first half of the file holds the definitions, each translated from the
    Python function of the same name; the second half holds the theorems. *)

From Stdlib Require Import List Bool Arith NArith ZArith Lia String Ascii.
From Stdlib Require Import Sorted Permutation.
Import ListNotations.

Set Implicit Arguments.

(* ================================================================== *)
(** * Part I. Definitions                                               *)
(* ================================================================== *)

(** ** Python values used by the scripts *)

Module Py.

(** A Python [str] is a sequence of Unicode code points. *)
Definition str := list N.

(** A literal of the source, written as a Rocq string of ASCII characters. *)
Definition u (s : string) : str := map N_of_ascii (list_ascii_of_string s).

Fixpoint str_eqb (a b : str) : bool :=
  match a, b with
  | [], [] => true
  | x :: a', y :: b' => (x =? y)%N && str_eqb a' b'
  | _, _ => false
  end.

(** [a < b] on [str]: lexicographic on code points, a proper prefix first. *)
Fixpoint str_ltb (a b : str) : bool :=
  match a, b with
  | _, [] => false
  | [], _ :: _ => true
  | x :: a', y :: b' =>
      if (x <? y)%N then true
      else if (y <? x)%N then false
      else str_ltb a' b'
  end.

(** The exceptions the scripts raise or let through.  [EngineError] stands for
    whatever the external evaluation engine or the generator raises. *)
Inductive exn :=
| AttributeError
| TypeError
| UnboundLocalError
| ValueError (msg : str)
| RuntimeError (msg : str)
| EngineError (msg : str).

Inductive result (A : Type) :=
| Ok (a : A)
| Raise (e : exn).
Arguments Ok {A} a.
Arguments Raise {A} e.

Definition bind {A B} (m : result A) (k : A -> result B) : result B :=
  match m with
  | Ok a => k a
  | Raise e => Raise e
  end.

(** The values a JSON field of a sample holds in this model: [null] or a
    string. *)
Inductive pyval :=
| PNone
| PStr (s : str).

Definition pyval_eqb (a b : pyval) : bool :=
  match a, b with
  | PNone, PNone => true
  | PStr s, PStr t => str_eqb s t
  | _, _ => false
  end.

(** [a < b] between two Python values: strings compare with each other,
    [None] compares with nothing ([TypeError]). *)
Definition py_lt (a b : pyval) : result bool :=
  match a, b with
  | PStr s, PStr t => Ok (str_ltb s t)
  | _, _ => Raise TypeError
  end.

(** [str.isspace] on one code point: the characters [str.strip()] removes. *)
Definition isspace (c : N) : bool :=
  (((9 <=? c) && (c <=? 13)) || ((28 <=? c) && (c <=? 32))
   || (c =? 133) || (c =? 160) || (c =? 5760)
   || ((8192 <=? c) && (c <=? 8202))
   || (c =? 8232) || (c =? 8233) || (c =? 8239) || (c =? 8287)
   || (c =? 12288))%N.

Fixpoint lstrip (s : str) : str :=
  match s with
  | [] => []
  | c :: s' => if isspace c then lstrip s' else s
  end.

Definition rstrip (s : str) : str := rev (lstrip (rev s)).

(** [s.strip()] *)
Definition strip (s : str) : str := rstrip (lstrip s).

(** [v.strip()] on a value read from JSON: [None] has no such method. *)
Definition strip_method (v : pyval) : result str :=
  match v with
  | PStr s => Ok (strip s)
  | PNone => Raise AttributeError
  end.

(** [len(s)] *)
Definition len (s : str) : nat := List.length s.

(** [s.count(c)] for a one-character [c]. *)
Fixpoint count (c : N) (s : str) : nat :=
  match s with
  | [] => 0
  | x :: s' => (if (x =? c)%N then 1 else 0) + count c s'
  end.

Definition open_brace : N := 123.
Definition close_brace : N := 125.

(** [sorted(l)] on Python values, as a stable insertion sort whose every
    comparison is [py_lt]: it raises when two elements do not compare. *)
Fixpoint insort (x : pyval) (l : list pyval) : result (list pyval) :=
  match l with
  | [] => Ok [x]
  | y :: l' =>
      bind (py_lt y x) (fun lt =>
        if lt then bind (insort x l') (fun r => Ok (y :: r))
        else Ok (x :: y :: l'))
  end.

Fixpoint sorted (l : list pyval) : result (list pyval) :=
  match l with
  | [] => Ok []
  | x :: l' => bind (sorted l') (insort x)
  end.

(** [needle in hay] for strings. *)
Fixpoint starts_with (needle hay : str) : bool :=
  match needle, hay with
  | [], _ => true
  | _ :: _, [] => false
  | x :: n', y :: h' => (x =? y)%N && starts_with n' h'
  end.

Fixpoint contains (needle hay : str) : bool :=
  starts_with needle hay
  || match hay with
     | [] => false
     | _ :: h' => contains needle h'
     end.

End Py.

Import Py.

Declare Scope py_scope.
Notation "x <- m ;; k" := (bind m (fun x => k))
  (at level 61, m at next level, right associativity) : py_scope.
Open Scope py_scope.

(** ** The sample filter: [_filter_bad_samples] *)

Module Filter.

(** One line of a samples file: a JSON object of which the filter reads the
    fields [task_id] and [completion]; its other fields, which the filter
    copies unread, are left out.  [None] is an absent field. *)
Record Sample := mkSample {
  f_task_id : option pyval;
  f_completion : option pyval
}.

(** [sample.get("task_id")] *)
Definition get_task_id (sample : Sample) : pyval :=
  match f_task_id sample with
  | Some v => v
  | None => PNone
  end.

(** [sample.get("completion", "")] *)
Definition get_completion (sample : Sample) : pyval :=
  match f_completion sample with
  | Some v => v
  | None => PStr []
  end.

(** The value of [problem_samples[task_id]]. *)
Record Entry := mkEntry {
  kept : list Sample;
  all : list Sample;
  filtered_reasons : list (string * nat)
}.

(** What the [defaultdict]'s factory makes. *)
Definition default_entry : Entry :=
  {| kept := []; all := []; filtered_reasons := [] |}.

(** [problem_samples]: a dict in insertion order. *)
Definition Dict := list (pyval * Entry).

(** [problem_samples[task_id]] followed by an update [f] of the entry; an
    absent key gets the factory's entry first. *)
Fixpoint upd (task_id : pyval) (f : Entry -> Entry) (d : Dict) : Dict :=
  match d with
  | [] => [(task_id, f default_entry)]
  | (k, e) :: d' =>
      if pyval_eqb k task_id then (k, f e) :: d'
      else (k, e) :: upd task_id f d'
  end.

(** [problem_samples[task_id]] read in the second pass, on a key of the dict. *)
Fixpoint lookup (task_id : pyval) (d : Dict) : Entry :=
  match d with
  | [] => default_entry
  | (k, e) :: d' => if pyval_eqb k task_id then e else lookup task_id d'
  end.

Definition keys (d : Dict) : list pyval := map fst d.

(** [reasons.get(k, 0)] *)
Fixpoint reasons_get (k : string) (r : list (string * nat)) : nat :=
  match r with
  | [] => 0
  | (k', n) :: r' => if String.eqb k' k then n else reasons_get k r'
  end.

(** [reasons[k] = n] *)
Fixpoint reasons_set (k : string) (n : nat) (r : list (string * nat))
  : list (string * nat) :=
  match r with
  | [] => [(k, n)]
  | (k', m) :: r' =>
      if String.eqb k' k then (k', n) :: r' else (k', m) :: reasons_set k n r'
  end.

(** [e["all"].append(sample)] *)
Definition append_all (sample : Sample) (e : Entry) : Entry :=
  {| kept := kept e; all := all e ++ [sample];
     filtered_reasons := filtered_reasons e |}.

(** [e["kept"].append(sample)] *)
Definition append_kept (sample : Sample) (e : Entry) : Entry :=
  {| kept := kept e ++ [sample]; all := all e;
     filtered_reasons := filtered_reasons e |}.

(** [e["filtered_reasons"][k] = e["filtered_reasons"].get(k, 0) + 1] *)
Definition count_reason (k : string) (e : Entry) : Entry :=
  {| kept := kept e; all := all e;
     filtered_reasons :=
       reasons_set k (reasons_get k (filtered_reasons e) + 1)
                   (filtered_reasons e) |}.

(** The locals of the first pass. *)
Record State := mkState {
  filtered_count : nat;
  total_count : nat;
  problem_samples : Dict
}.

Definition initial : State :=
  {| filtered_count := 0; total_count := 0; problem_samples := [] |}.

(** The sample is counted as filtered for reason [k] and the loop continues. *)
Definition reject (k : string) (task_id : pyval) (st : State) (d : Dict)
  : State :=
  {| filtered_count := filtered_count st + 1;
     total_count := total_count st + 1;
     problem_samples := upd task_id (count_reason k) d |}.

(** [abs(open_braces - close_braces)] *)
Definition brace_delta (completion : str) : Z :=
  Z.abs (Z.of_nat (count open_brace completion)
         - Z.of_nat (count close_brace completion)).

(** The body of the first pass's loop, for one sample. *)
Definition first_pass_step (st : State) (sample : Sample) : result State :=
  let task_id := get_task_id sample in
  completion <- strip_method (get_completion sample) ;;
  let d := upd task_id (append_all sample) (problem_samples st) in
  if (len completion =? 0)%nat then Ok (reject "empty" task_id st d)
  else if (len completion <? 10)%nat then Ok (reject "short" task_id st d)
  else if (brace_delta completion >? 3)%Z then Ok (reject "braces" task_id st d)
  else Ok {| filtered_count := filtered_count st;
             total_count := total_count st + 1;
             problem_samples := upd task_id (append_kept sample) d |}.

Fixpoint first_pass (st : State) (samples : list Sample) : result State :=
  match samples with
  | [] => Ok st
  | sample :: rest => st' <- first_pass_step st sample ;; first_pass st' rest
  end.

(** What the filter prints.  The texts are kept as data: a line's fields are
    the values the f-string formats. *)
Inductive Printed :=
| AllFilteredWarning (task_id : pyval) (reasons : list (string * nat))
| FilteredOutLine (filtered total : nat)
| EvaluatingLine (final_count : nat).

(** The body of the second pass's loop, for one task: the records written and
    the lines printed. *)
Definition second_pass_step (d : Dict) (task_id : pyval)
  : list Sample * list Printed :=
  let e := lookup task_id d in
  match kept e with
  | [] =>
      match all e with
      | first :: _ => ([first], [AllFilteredWarning task_id (filtered_reasons e)])
      | [] => ([], [])
      end
  | _ :: _ => (kept e, [])
  end.

Fixpoint second_pass (d : Dict) (order : list pyval)
  : list Sample * list Printed :=
  match order with
  | [] => ([], [])
  | task_id :: rest =>
      let '(w, p) := second_pass_step d task_id in
      let '(w', p') := second_pass d rest in
      (w ++ w', p ++ p')
  end.

(** The generator expression summed into [final_count]. *)
Definition final_count (d : Dict) : nat :=
  fold_right
    (fun task_id acc =>
       let e := lookup task_id d in
       (if (List.length (kept e) =? 0)%nat && (0 <? List.length (all e))%nat
        then Nat.max 1 (List.length (kept e))
        else List.length (kept e)) + acc)
    0 (keys d).

(** The two files the function knows: the one it was given and the one it
    writes, [sample_file + ".filtered"]. *)
Inductive Path :=
| SampleFile
| FilteredFile.

(** The effects and the value of a call that returns. *)
Record Outcome := mkOutcome {
  written : list Sample;
  printed : list Printed;
  returned : Path
}.

(** [_filter_bad_samples(sample_file)], on the records of [sample_file]. *)
Definition _filter_bad_samples (samples : list Sample) : result Outcome :=
  st <- first_pass initial samples ;;
  order <- sorted (keys (problem_samples st)) ;;
  let '(w, p) := second_pass (problem_samples st) order in
  Ok {| written := w;
        printed :=
          p ++ (if (0 <? filtered_count st)%nat
                then [FilteredOutLine (filtered_count st) (total_count st);
                      EvaluatingLine (final_count (problem_samples st))]
                else []);
        returned :=
          if (0 <? filtered_count st)%nat then FilteredFile else SampleFile |}.

(** The records of the file the returned path names: the input file itself
    when [sample_file] is returned. *)
Definition records_at (samples : list Sample) (o : Outcome) : list Sample :=
  match returned o with
  | SampleFile => samples
  | FilteredFile => written o
  end.

(** The filtered output of a run on [samples], when the call returns. *)
Definition filtered_output (samples : list Sample) : result (list Sample) :=
  o <- _filter_bad_samples samples ;; Ok (records_at samples o).

End Filter.

(** ** The sandbox resolver: [_resolve_sandbox_mode] *)

Module Sandbox.

Section Resolver.

(** [str.lower], Python's own. *)
Variable lower : str -> str.
(** [shutil.which]: the path of a program of the host, [None] without one. *)
Variable which : str -> option str.

(** The truth value of a string. *)
Definition truthy_str (s : str) : bool := negb (len s =? 0)%nat.

(** The truth value of [shutil.which(...)]. *)
Definition truthy_path (p : option str) : bool :=
  match p with
  | Some s => truthy_str s
  | None => false
  end.

(** [normalized = requested.lower() if requested else None] *)
Definition normalize (requested : option str) : option str :=
  match requested with
  | Some s => if truthy_str s then Some (lower s) else None
  | None => None
  end.

Definition opt_is (o : option str) (lit : string) : bool :=
  match o with
  | Some s => str_eqb s (u lit)
  | None => false
  end.

(** How an f-string renders [requested]. *)
Definition format_requested (requested : option str) : str :=
  match requested with
  | Some s => s
  | None => u "None"
  end.

Definition invalid_mode_message (requested : option str) : str :=
  u "Invalid sandbox mode '" ++ format_requested requested
    ++ u "'. Choose 'firejail', 'none', or 'auto'.".

Definition firejail_missing_message : str :=
  u "Firejail requested but not available. Install Firejail or use --sandbox-mode none.".

Definition using_firejail_message : str := u "Using sandbox mode: firejail".

Definition unsandboxed_warning : str :=
  u "WARNING: Running without a sandbox executes arbitrary code on the host.".

Definition auto_firejail_message : str :=
  u "Auto-detected Firejail; enabling sandboxed evaluation.".

Definition auto_none_warning : str :=
  u "WARNING: Firejail not found; proceeding without sandbox protection (mode: none).".

(** [_resolve_sandbox_mode(requested)]: the resolved mode and the messages. *)
Definition _resolve_sandbox_mode (requested : option str)
  : result (str * list str) :=
  let normalized := normalize requested in
  let normalized := if opt_is normalized "auto" then None else normalized in
  match normalized with
  | Some n =>
      if negb (str_eqb n (u "firejail") || str_eqb n (u "none"))
      then Raise (ValueError (invalid_mode_message requested))
      else if str_eqb n (u "firejail") then
        if negb (truthy_path (which (u "firejail")))
        then Raise (RuntimeError firejail_missing_message)
        else Ok (u "firejail", [using_firejail_message])
      else Ok (u "none", [unsandboxed_warning])
  | None =>
      if truthy_path (which (u "firejail"))
      then Ok (u "firejail", [auto_firejail_message])
      else Ok (u "none", [auto_none_warning])
  end.

End Resolver.

(** [str.lower] on the letters A to Z; used where a concrete host is needed. *)
Definition lower_ascii (s : str) : str :=
  map (fun c => if ((65 <=? c) && (c <=? 90))%N then (c + 32)%N else c) s.

(** A host with Firejail installed, and one without. *)
Definition host_with_firejail (prog : str) : option str :=
  if str_eqb prog (u "firejail") then Some (u "/usr/bin/firejail") else None.

Definition host_without_firejail (prog : str) : option str := None.

End Sandbox.

(** ** The ecosystem validator: [validate_ecosystem.py] *)

Module Validator.

Definition REQUIREMENTS : list (str * str) :=
  [ (u "human-eval-rust", u "2.1.0");
    (u "sigil-pipeline", u "2.2.0");
    (u "sigilderg-finetuner", u "2.9.0") ].

Definition MODULE_NAMES : list (str * str) :=
  [ (u "human-eval-rust", u "human_eval");
    (u "sigil-pipeline", u "sigil_pipeline");
    (u "sigilderg-finetuner", u "rust_qlora") ].

(** [d.get(k, default)] *)
Fixpoint dict_get (k : str) (d : list (str * str)) (default : str) : str :=
  match d with
  | [] => default
  | (k', v) :: d' => if str_eqb k' k then v else dict_get k d' default
  end.

(** [s.replace(a, b)] for one-character [a] and [b]. *)
Definition replace (a b : N) (s : str) : str :=
  map (fun c => if (c =? a)%N then b else c) s.

(** [s.split(sep)] for a one-character [sep]: never an empty list. *)
Fixpoint split (sep : N) (s : str) : list str :=
  match s with
  | [] => [[]]
  | c :: s' =>
      if (c =? sep)%N then [] :: split sep s'
      else match split sep s' with
           | w :: ws => (c :: w) :: ws
           | [] => [[c]]
           end
  end.

Definition dot : N := 46.

(** [a >= b] on tuples of integers. *)
Fixpoint tuple_ge (a b : list Z) : bool :=
  match a, b with
  | _, [] => true
  | [], _ :: _ => false
  | x :: a', y :: b' => if (x =? y)%Z then tuple_ge a' b' else (y <? x)%Z
  end.

(** The fields of the dict [validate_package] returns, [package] and
    [required_version] apart from the ones it computes. *)
Record PackageResult := mkPackageResult {
  package : str;
  required_version : str;
  installed_version : option str;
  import_success : bool;
  version_ok : bool;
  error : option str
}.

(** [MODULE_NAMES.get(pkg_name, pkg_name.replace("-", "_"))] *)
Definition module_name_of (pkg_name : str) : str :=
  dict_get pkg_name MODULE_NAMES (replace 45 95 pkg_name).

Section Host.

(** [int(x)] on a string, Python's own: [None] is its [ValueError]. *)
Variable int_of : str -> option Z.
(** [importlib.metadata.version]: the installed version, or the text of the
    exception it raises. *)
Variable pkg_version : str -> str + str.
(** [importlib.import_module]: [None] when the import succeeds, else the text
    of the exception. *)
Variable import_module : str -> option str.

(** [int(x)] *)
Definition int (x : str) : result Z :=
  match int_of x with
  | Some n => Ok n
  | None => Raise (ValueError (u "invalid literal for int() with base 10: '" ++ x ++ u "'"))
  end.

(** [tuple(int(x) for x in xs)] *)
Fixpoint ints (xs : list str) : result (list Z) :=
  match xs with
  | [] => Ok []
  | x :: xs' => n <- int x ;; ns <- ints xs' ;; Ok (n :: ns)
  end.

(** [parse_version(v)] *)
Definition parse_version (v : str) : result (list Z) :=
  ints (firstn 3 (split dot v)).

(** [check_version(installed, required)]: [ValueError] and [TypeError] are
    caught, anything else goes through. *)
Definition check_version (installed required : str) : result bool :=
  match (i <- parse_version installed ;;
         r <- parse_version required ;;
         Ok (tuple_ge i r)) with
  | Ok b => Ok b
  | Raise (ValueError _) => Ok false
  | Raise TypeError => Ok false
  | Raise e => Raise e
  end.

(** [validate_package(pkg_name, min_version, module_name)] *)
Definition validate_package (pkg_name min_version module_name : str)
  : result PackageResult :=
  match pkg_version pkg_name with
  | inr e =>
      Ok {| package := pkg_name; required_version := min_version;
            installed_version := None; import_success := false;
            version_ok := false;
            error := Some (u "Not installed: " ++ e) |}
  | inl v =>
      ok <- check_version v min_version ;;
      match import_module module_name with
      | None =>
          Ok {| package := pkg_name; required_version := min_version;
                installed_version := Some v; import_success := true;
                version_ok := ok; error := None |}
      | Some e =>
          Ok {| package := pkg_name; required_version := min_version;
                installed_version := Some v; import_success := false;
                version_ok := ok;
                error := Some (u "Import failed: " ++ e) |}
      end
  end.

(** The loop of [validate_all] over the items of a requirements dict. *)
Fixpoint validate_each (reqs : list (str * str)) : result (list PackageResult) :=
  match reqs with
  | [] => Ok []
  | (pkg_name, min_version) :: rest =>
      let module_name := module_name_of pkg_name in
      r <- validate_package pkg_name min_version module_name ;;
      rs <- validate_each rest ;;
      Ok (r :: rs)
  end.

(** [validate_all()] *)
Definition validate_all : result (list PackageResult) :=
  validate_each REQUIREMENTS.

End Host.

Definition rule : str := repeat 61%N 60.

(** [x or 'Not found'] *)
Definition or_not_found (v : option str) : str :=
  match v with
  | Some s => if (len s =? 0)%nat then u "Not found" else s
  | None => u "Not found"
  end.

(** The truth value of [r["error"]]. *)
Definition has_error (e : option str) : option str :=
  match e with
  | Some s => if (len s =? 0)%nat then None else Some s
  | None => None
  end.

Definition status_ok (r : PackageResult) : bool :=
  version_ok r && import_success r.

(** The lines [print_results] prints for one package. *)
Definition package_lines (r : PackageResult) : list str :=
  [ u "Package: " ++ package r;
    u "  Required: >= " ++ required_version r;
    u "  Installed: " ++ or_not_found (installed_version r);
    u "  Import: " ++ (if import_success r then u "Success" else u "Failed");
    u "  Status: " ++ (if status_ok r then u "OK" else u "FAIL") ]
  ++ match has_error (error r) with
     | Some e => [u "  Error: " ++ e]
     | None => []
     end
  ++ [ [] ].

(** The loop of [print_results]: the lines printed and [all_ok]. *)
Fixpoint print_loop (all_ok : bool) (results : list PackageResult)
  : list str * bool :=
  match results with
  | [] => ([], all_ok)
  | r :: rest =>
      let all_ok := if status_ok r then all_ok else false in
      let '(lines, ok) := print_loop all_ok rest in
      (package_lines r ++ lines, ok)
  end.

(** [print_results(results)]: what it prints and what it returns. *)
Definition print_results (results : list PackageResult) : list str * bool :=
  let '(lines, all_ok) := print_loop true results in
  ([rule; u "SigilDERG Ecosystem Validation"; rule; []]
     ++ lines
     ++ [rule;
         if all_ok then u "All ecosystem packages validated successfully!"
         else u "Some packages failed validation. Please install/upgrade.";
         rule],
   all_ok).

(** [main()]: the lines printed and the exit status. *)
Definition main (int_of : str -> option Z) (pkg_version : str -> str + str)
           (import_module : str -> option str) : result (list str * Z) :=
  results <- validate_all int_of pkg_version import_module ;;
  let '(lines, success) := print_results results in
  Ok (lines, if success then 0%Z else 1%Z).

(** [int] on runs of ASCII digits, refusing every other string (Python's
    [int] also takes blanks, a sign, underscores and other decimal digits);
    used where a concrete host is needed. *)
Fixpoint digits_value (acc : Z) (s : str) : option Z :=
  match s with
  | [] => Some acc
  | c :: s' =>
      if ((48 <=? c) && (c <=? 57))%N
      then digits_value (10 * acc + Z.of_N (c - 48)) s'
      else None
  end.

Definition int_decimal (s : str) : option Z :=
  match s with
  | [] => None
  | _ :: _ => digits_value 0 s
  end.

(** A host on which every import succeeds, with the three packages
    installed: [human-eval-rust] as a development build of its minimum
    version. *)
Definition all_import (module_name : str) : option str := None.

Definition dev_build_host (pkg_name : str) : str + str :=
  if str_eqb pkg_name (u "human-eval-rust") then inl (u "2.1.0.dev0")
  else if str_eqb pkg_name (u "sigil-pipeline") then inl (u "2.2.0")
  else if str_eqb pkg_name (u "sigilderg-finetuner") then inl (u "2.9.0")
  else inr (u "No package metadata was found").

(** The same host with a release candidate written into the third
    component. *)
Definition rc_build_host (pkg_name : str) : str + str :=
  if str_eqb pkg_name (u "human-eval-rust") then inl (u "2.1.0rc1")
  else dev_build_host pkg_name.

End Validator.

(** ** The evaluator wrapper and the orchestrator *)

Module Orchestrator.

Import Filter.

(** How a call ends: it returns, the process exits ([sys.exit]), or an
    exception leaves it. *)
Inductive outcome (A : Type) :=
| Return (a : A)
| Exit (status : Z)
| Throw (e : exn).
Arguments Return {A} a.
Arguments Exit {A} status.
Arguments Throw {A} e.

(** The command line, as far as it steers the run. *)
Record Args := mkArgs {
  sandbox_mode : option str;
  policy_only : bool;
  no_policy_only : bool;
  skip_base : bool;
  skip_finetuned : bool;
  seed : Z;
  k_values : str
}.

(** [torch], as far as seeding uses it. *)
Record Torch := mkTorch {
  manual_seed : Z -> result unit;
  cuda_is_available : bool;
  cuda_manual_seed_all : Z -> result unit
}.

(** What a run needs of the interpreter and of the installed packages. *)
Record Runtime := mkRuntime {
  (** [int(x)] on a string, Python's own: [None] is its [ValueError]. *)
  int_of : str -> option Z;
  (** [np.random.seed]; [None] where [import numpy] raises [ImportError]. *)
  numpy_seed : option (Z -> result unit);
  (** [torch], which [main] imports before it parses the command line. *)
  torch : Torch;
  (** [from human_eval.evaluation import evaluate_functional_correctness]:
      the import returns, or the exception it raises. *)
  import_engine : result unit
}.

Section Run.

(** The value of a metric: a float of the evaluation engine. *)
Variable Value : Type.

(** The engine's result: a dict from metric name ([pass@k]) to value. *)
Definition Metrics := list (str * Value).

(** The dict [run_evaluation_mode] returns; its third key, [config], makes it
    a non-empty dict whatever the other two hold. *)
Record ModeResult := mkModeResult {
  base : option Metrics;
  finetuned : option Metrics
}.

(** [all_results] *)
Record AllResults := mkAllResults {
  no_policy : option ModeResult;
  policy : option ModeResult
}.

(** The lines of [combined_summary.md]. *)
Inductive SummaryText :=
| SummaryHeader
| NoPolicyHeading
| PolicyHeading
| BaseHeading
| FinetunedHeading
| MetricLine (metric : str) (value : Value).

(** What a run does that can be seen from outside, in order.  Banners and
    progress lines that depend on the arguments alone are not traced, nor is
    the line that names the device.  The two booleans of an event are
    [enforce_policy] and [is_peft]. *)
Inductive Event :=
| Say (line : str)
| FilterSaid (p : Filter.Printed)
| MadeDir (mode : option bool)
| Generated (enforce_policy is_peft : bool)
| FilterWrote (records : list Sample)
| EngineRan (mode : str) (enforce_policy : bool) (records : list Sample)
| FilteredRemoved
| EvaluationFailed (e : exn)
| MetricsJson (enforce_policy : bool) (b f : Metrics)
| ComparisonReport (enforce_policy : bool)
| SummaryOpened
| SummaryWrote (line : SummaryText)
| SummarySaved
| MetadataWritten (no_policy_present policy_present : bool).

(** A computation: the events it leaves and how it ends. *)
Definition M (A : Type) : Type := list Event * outcome A.

Definition ret {A} (a : A) : M A := ([], Return a).
Definition say (ev : Event) : M unit := ([ev], Return tt).
Definition throw {A} (e : exn) : M A := ([], Throw e).
Definition exit {A} (status : Z) : M A := ([], Exit status).

Definition bindM {A B} (m : M A) (k : A -> M B) : M B :=
  match m with
  | (t, Return a) => let '(t', o) := k a in (t ++ t', o)
  | (t, Exit s) => (t, Exit s)
  | (t, Throw e) => (t, Throw e)
  end.

Notation "x <~ m ;; k" := (bindM m (fun x => k))
  (at level 61, m at next level, right associativity).

Definition lift {A} (r : result A) : M A :=
  match r with
  | Ok a => ret a
  | Raise e => throw e
  end.

Definition when (b : bool) (m : M unit) : M unit := if b then m else ret tt.

Fixpoint say_all (evs : list Event) : M unit :=
  match evs with
  | [] => ret tt
  | ev :: rest => _ <~ say ev ;; say_all rest
  end.

(** The host and the external collaborators. *)
Variable lower : str -> str.
Variable which : str -> option str.
(** [generate_samples_for_model] for a phase and a model: the records of the
    samples file it leaves, or the exception that ends it. *)
Variable generate : bool -> bool -> result (list Sample).
(** [evaluate_functional_correctness] on a samples file, under a sandbox mode
    and a policy flag: the metrics, or the exception that ends it. *)
Variable engine : str -> bool -> list Sample -> result Metrics.
(** The interpreter and the packages of the host. *)
Variable rt : Runtime.

(** [set_seed(seed)].  [random.seed] takes every [int].  The seeding of
    [numpy] and of [torch] is passed over where the import raises
    [ImportError] ([None] here); an exception of a seeding call itself goes
    through. *)
Definition set_seed (numpy_seed : option (Z -> result unit))
           (torch : option Torch) (seed : Z) : M unit :=
  _ <~ match numpy_seed with
       | Some np_random_seed => lift (np_random_seed seed)
       | None => ret tt
       end ;;
  match torch with
  | Some t =>
      _ <~ lift (manual_seed t seed) ;;
      when (cuda_is_available t) (lift (cuda_manual_seed_all t seed))
  | None => ret tt
  end.

Definition comma : N := 44.

(** [[int(k.strip()) for k in k_values.split(",")]] *)
Definition parse_k_values (k_values : str) : result (list Z) :=
  Validator.ints (int_of rt) (map strip (Validator.split comma k_values)).

(** The [try] statement of [evaluate_samples]: the engine is called on the
    file the filter returned; its exception is printed and raised again. *)
Definition evaluate_try (samples : list Sample) (o : Filter.Outcome)
           (mode : str) (enforce_policy : bool) : M Metrics :=
  _ <~ say (EngineRan mode enforce_policy (records_at samples o)) ;;
  match engine mode enforce_policy (records_at samples o) with
  | Ok results =>
      _ <~ when (match returned o with FilteredFile => true | SampleFile => false end)
                (say FilteredRemoved) ;;
      ret results
  | Raise e =>
      _ <~ say (EvaluationFailed e) ;;
      throw e
  end.

Definition unsandboxed_evaluation_warning : str :=
  u "WARNING: Evaluation is running unsandboxed; proceed only if you trust the code.".

(** [evaluate_samples(sample_file, ...)] on the records of [sample_file].
    It imports the engine first.  Its next statement,
    [os.environ["TOKENIZERS_PARALLELISM"] = "false"], reads [os] as a local
    of the function, for the [import os] inside the [try] binds that name in
    the function's scope; nothing has bound it yet, so the statement raises
    [UnboundLocalError]. *)
Definition evaluate_samples (samples : list Sample) (mode : str)
           (enforce_policy : bool) : M Metrics :=
  _ <~ lift (import_engine rt) ;;
  _ <~ @throw unit UnboundLocalError ;;
  _ <~ when (str_eqb mode (u "none")) (say (Say unsandboxed_evaluation_warning)) ;;
  o <~ lift (_filter_bad_samples samples) ;;
  _ <~ say (FilterWrote (written o)) ;;
  _ <~ say_all (map FilterSaid (printed o)) ;;
  evaluate_try samples o mode enforce_policy.

(** The truth value of a results dict that may be [None]. *)
Definition truthy_metrics (m : option Metrics) : bool :=
  match m with
  | Some (_ :: _) => true
  | _ => false
  end.

(** [results or {}] *)
Definition or_empty (m : option Metrics) : Metrics :=
  match m with
  | Some (x :: r) => x :: r
  | _ => []
  end.

(** One model of [run_evaluation_mode]: generation, then evaluation. *)
Definition evaluate_model (mode : str) (enforce_policy is_peft : bool)
  : M Metrics :=
  samples <~ lift (generate enforce_policy is_peft) ;;
  _ <~ say (Generated enforce_policy is_peft) ;;
  evaluate_samples samples mode enforce_policy.

(** [run_evaluation_mode(...)] for one policy mode. *)
Definition run_evaluation_mode (mode : str) (enforce_policy : bool)
           (skip_base skip_finetuned : bool) : M ModeResult :=
  _ <~ say (MadeDir (Some enforce_policy)) ;;
  base_results <~
    (if negb skip_base
     then r <~ evaluate_model mode enforce_policy false ;; ret (Some r)
     else ret None) ;;
  finetuned_results <~
    (if negb skip_finetuned
     then r <~ evaluate_model mode enforce_policy true ;; ret (Some r)
     else ret None) ;;
  _ <~ say (MetricsJson enforce_policy (or_empty base_results)
                        (or_empty finetuned_results)) ;;
  _ <~ when (truthy_metrics base_results && truthy_metrics finetuned_results)
            (say (ComparisonReport enforce_policy)) ;;
  ret {| base := base_results; finetuned := finetuned_results |}.

(** The truth value of a slot of [all_results]. *)
Definition truthy_slot (slot : option ModeResult) : bool :=
  match slot with
  | Some _ => true
  | None => false
  end.

(** [all_results[...][key]]: subscripting [None] is a [TypeError]. *)
Definition subscript (slot : option ModeResult)
           (key : ModeResult -> option Metrics) : M (option Metrics) :=
  match slot with
  | Some r => ret (key r)
  | None => throw TypeError
  end.

(** [sorted(d.items())]: the keys of a dict differ, so the key decides. *)
Fixpoint insort_item (x : str * Value) (l : Metrics) : Metrics :=
  match l with
  | [] => [x]
  | y :: l' =>
      if str_ltb (fst y) (fst x) then y :: insort_item x l' else x :: y :: l'
  end.

Definition sorted_items (d : Metrics) : Metrics := fold_right insort_item [] d.

(** [for metric, value in sorted(d.items()): f.write(...)] *)
Definition write_metrics (d : option Metrics) : M unit :=
  say_all (map (fun kv => SummaryWrote (MetricLine (fst kv) (snd kv)))
               (sorted_items (or_empty d))).

(** The four [if] statements the summary has for one mode, in the order and
    at the nesting the source has them: only the first tests the slot. *)
Definition summary_section (slot : option ModeResult) (heading : SummaryText)
  : M unit :=
  _ <~ when (truthy_slot slot) (say (SummaryWrote heading)) ;;
  b <~ subscript slot base ;;
  _ <~ when (truthy_metrics b)
            (_ <~ say (SummaryWrote BaseHeading) ;; write_metrics b) ;;
  f <~ subscript slot finetuned ;;
  when (truthy_metrics f)
       (_ <~ say (SummaryWrote FinetunedHeading) ;; write_metrics f).

(** The combined summary of [main]. *)
Definition write_combined_summary (all_results : AllResults) : M unit :=
  when (truthy_slot (no_policy all_results) || truthy_slot (policy all_results))
       (_ <~ say SummaryOpened ;;
        _ <~ say (SummaryWrote SummaryHeader) ;;
        _ <~ summary_section (no_policy all_results) NoPolicyHeading ;;
        _ <~ summary_section (policy all_results) PolicyHeading ;;
        say SummarySaved).

(** [write_eval_metadata]: what it records of [all_results]. *)
Definition write_eval_metadata (all_results : AllResults) : M unit :=
  say (MetadataWritten (truthy_slot (no_policy all_results))
                       (truthy_slot (policy all_results))).

(** The [try] statement of [main] around the resolver. *)
Definition resolve_or_exit (requested : option str) : M str :=
  match Sandbox._resolve_sandbox_mode lower which requested with
  | Ok (mode, messages) =>
      _ <~ say_all (map Say messages) ;; ret mode
  | Raise (ValueError msg) =>
      _ <~ say (Say (u "Error resolving sandbox mode: " ++ msg)) ;; exit 1
  | Raise (RuntimeError msg) =>
      _ <~ say (Say (u "Error resolving sandbox mode: " ++ msg)) ;; exit 1
  | Raise e => throw e
  end.

(** The two phases of [main], from [all_results = {...}] to the summary. *)
Definition run_phases (args : Args) (mode : str) : M AllResults :=
  no_policy_results <~
    (if negb (policy_only args)
     then r <~ run_evaluation_mode mode false (skip_base args) (skip_finetuned args) ;;
          ret (Some r)
     else ret None) ;;
  policy_results <~
    (if negb (no_policy_only args)
     then r <~ run_evaluation_mode mode true (skip_base args) (skip_finetuned args) ;;
          ret (Some r)
     else ret None) ;;
  ret {| no_policy := no_policy_results; policy := policy_results |}.

(** The statements of [main] between [parser.parse_args()] and
    [output_dir.mkdir(...)]: the seeding and the parsing of [--k-values].
    The device detection between them reads [torch] and prints one line. *)
Definition seed_and_k_values (args : Args) : M (list Z) :=
  _ <~ set_seed (numpy_seed rt) (Some (torch rt)) (seed args) ;;
  lift (parse_k_values (k_values args)).

(** [main()] from [args = parser.parse_args()] on.  The [k_values] go to the
    engine and into the summary's header. *)
Definition main_body (args : Args) : M unit :=
  _ <~ seed_and_k_values args ;;
  _ <~ say (MadeDir None) ;;
  mode <~ resolve_or_exit (sandbox_mode args) ;;
  let run_no_policy := negb (policy_only args) in
  let run_policy := negb (no_policy_only args) in
  if negb run_no_policy && negb run_policy
  then _ <~ say (Say (u "Nothing to do: both modes disabled.")) ;; exit 0
  else
    all_results <~ run_phases args mode ;;
    _ <~ write_combined_summary all_results ;;
    write_eval_metadata all_results.

(** [--sandbox-mode] as [argparse] reads it: one of its three choices, [auto]
    when the option is not given; any other word ends the process with
    status 2. *)
Definition parse_sandbox_mode (given : option str) : M str :=
  match given with
  | None => ret (u "auto")
  | Some s =>
      if str_eqb s (u "firejail") || str_eqb s (u "none") || str_eqb s (u "auto")
      then ret s
      else exit 2
  end.

(** [main()], the command line's sandbox mode not yet parsed. *)
Definition main (given : option str) (args : Args) : M unit :=
  s <~ parse_sandbox_mode given ;;
  main_body {| sandbox_mode := Some s;
               policy_only := policy_only args;
               no_policy_only := no_policy_only args;
               skip_base := skip_base args;
               skip_finetuned := skip_finetuned args;
               seed := seed args;
               k_values := k_values args |}.

(** The events of generation and evaluation. *)
Definition is_work (ev : Event) : bool :=
  match ev with
  | Generated _ _ | FilterWrote _ | EngineRan _ _ _ | MetricsJson _ _ _
  | ComparisonReport _ | MadeDir (Some _) => true
  | _ => false
  end.

(** The events of the combined summary and of the metadata file. *)
Definition is_report (ev : Event) : bool :=
  match ev with
  | SummaryOpened | SummaryWrote _ | SummarySaved | MetadataWritten _ _ => true
  | _ => false
  end.

(** The events that belong to the phase with [enforce_policy = p]. *)
Definition of_phase (p : bool) (ev : Event) : bool :=
  match ev with
  | Generated q _ | EngineRan _ q _ | MetricsJson q _ _
  | ComparisonReport q | MadeDir (Some q) => Bool.eqb p q
  | _ => false
  end.

End Run.

Arguments Say {Value} line.
Arguments FilterSaid {Value} p.
Arguments MadeDir {Value} mode.
Arguments Generated {Value} enforce_policy is_peft.
Arguments FilterWrote {Value} records.
Arguments EngineRan {Value} mode enforce_policy records.
Arguments FilteredRemoved {Value}.
Arguments EvaluationFailed {Value} e.
Arguments ComparisonReport {Value} enforce_policy.
Arguments SummaryOpened {Value}.
Arguments SummarySaved {Value}.
Arguments MetadataWritten {Value} no_policy_present policy_present.
Arguments SummaryHeader {Value}.
Arguments NoPolicyHeading {Value}.
Arguments PolicyHeading {Value}.
Arguments BaseHeading {Value}.
Arguments FinetunedHeading {Value}.
Arguments ret {Value A} a.
Arguments throw {Value A} e.
Arguments exit {Value A} status.

End Orchestrator.

(** ** The words of the specification *)

Module Terms.

Import Filter.

(** A record of the data model: its [task_id] is a string, and its
    [completion] is a string or is not there. *)
Definition well_formed (s : Sample) : bool :=
  match f_task_id s, f_completion s with
  | Some (PStr _), Some (PStr _) => true
  | Some (PStr _), None => true
  | _, _ => false
  end.

(** The trimmed completion of a record. *)
Definition trimmed (s : Sample) : str :=
  match get_completion s with
  | PStr c => strip c
  | PNone => []
  end.

(** The three rejection predicates, on a trimmed completion. *)
Definition is_empty (c : str) : bool := (len c =? 0)%nat.
Definition too_short (c : str) : bool := (len c <? 10)%nat.
Definition brace_imbalance (c : str) : bool := (brace_delta c >? 3)%Z.

(** A sample passes when none of the three predicates rejects it. *)
Definition passes (s : Sample) : bool :=
  negb (is_empty (trimmed s)) && negb (too_short (trimmed s))
  && negb (brace_imbalance (trimmed s)).

Definition same_task (t : pyval) (s : Sample) : bool :=
  pyval_eqb (get_task_id s) t.

(** The raw samples of a task, in arrival order. *)
Definition of_task (t : pyval) (samples : list Sample) : list Sample :=
  filter (same_task t) samples.

(** What the second pass is to write for a task: the samples that pass, or
    the first raw one when none does. *)
Definition expected_for (t : pyval) (samples : list Sample) : list Sample :=
  match filter passes (of_task t samples) with
  | [] => firstn 1 (of_task t samples)
  | k => k
  end.

(** [a <= b] on task ids that are strings. *)
Definition task_le (a b : pyval) : Prop :=
  match a, b with
  | PStr s, PStr t => str_ltb t s = false
  | _, _ => False
  end.

(** A key that is a string. *)
Definition is_str (v : pyval) : Prop :=
  match v with
  | PStr _ => True
  | PNone => False
  end.

(** The [completion] of the record, where it has one, is a string. *)
Definition has_text (s : Sample) : bool :=
  match f_completion s with
  | Some PNone => false
  | _ => true
  end.

(** What the second pass writes for an entry of the dict. *)
Definition emitted (e : Entry) : list Sample :=
  match kept e with
  | [] => firstn 1 (all e)
  | k => k
  end.

(** The records the filter counts as filtered. *)
Definition rejected (samples : list Sample) : list Sample :=
  filter (fun s => negb (passes s)) samples.

(** The task ids of a list of records. *)
Definition task_ids (l : list Sample) : list pyval := map get_task_id l.

(** One step of the first pass counted the sample for reason [k], and for
    that reason alone. *)
Definition counted_as (k : string) (st : State) (sample : Sample) (st' : State)
  : Prop :=
  let t := get_task_id sample in
  filtered_count st' = filtered_count st + 1
  /\ total_count st' = total_count st + 1
  /\ kept (lookup t (problem_samples st')) = kept (lookup t (problem_samples st))
  /\ all (lookup t (problem_samples st'))
     = all (lookup t (problem_samples st)) ++ [sample]
  /\ forall k',
       reasons_get k' (filtered_reasons (lookup t (problem_samples st')))
       = reasons_get k' (filtered_reasons (lookup t (problem_samples st)))
         + (if String.eqb k k' then 1 else 0).

(** One step of the first pass kept the sample and counted no reason. *)
Definition kept_by (st : State) (sample : Sample) (st' : State) : Prop :=
  let t := get_task_id sample in
  filtered_count st' = filtered_count st
  /\ total_count st' = total_count st + 1
  /\ kept (lookup t (problem_samples st'))
     = kept (lookup t (problem_samples st)) ++ [sample]
  /\ all (lookup t (problem_samples st'))
     = all (lookup t (problem_samples st)) ++ [sample]
  /\ filtered_reasons (lookup t (problem_samples st'))
     = filtered_reasons (lookup t (problem_samples st)).

(** The three words a sandbox mode may be, once normalized. *)
Definition legal_mode (n : str) : bool :=
  str_eqb n (u "firejail") || str_eqb n (u "none") || str_eqb n (u "auto").

(** The request is [auto], or is not set. *)
Definition auto_or_unset (lower : str -> str) (requested : option str) : Prop :=
  Sandbox.normalize lower requested = None
  \/ Sandbox.normalize lower requested = Some (u "auto").

(** The request is the word [lit], in any case of letters. *)
Definition asks_for (lower : str -> str) (requested : option str)
           (lit : string) : Prop :=
  Sandbox.normalize lower requested = Some (u lit).

(** A required package is validated: it is installed, its version meets the
    minimum, and its module imports. *)
Definition validated (int_of : str -> option Z) (pkg_version : str -> str + str)
           (import_module : str -> option str) (req : str * str) : Prop :=
  exists v,
    pkg_version (fst req) = inl v
    /\ Validator.check_version int_of v (snd req) = Ok true
    /\ import_module (Validator.module_name_of (fst req)) = None.

(** The first three dot-separated components of a version string. *)
Definition first_three (v : str) : list str :=
  firstn 3 (Validator.split Validator.dot v).

(** Firejail is on the host: the truth value of [shutil.which("firejail")]. *)
Definition firejail_found (which : str -> option str) : bool :=
  Sandbox.truthy_path (which (u "firejail")).

(** The marker of a warning. *)
Definition is_warning (msg : str) : bool := contains (u "WARNING") msg.

(** The exception a call of [evaluate_samples] ends in: that of the engine's
    import, or the [UnboundLocalError] of the statement after it. *)
Definition evaluation_exception (rt : Orchestrator.Runtime) : exn :=
  match Orchestrator.import_engine rt with
  | Raise e => e
  | Ok _ => UnboundLocalError
  end.

End Terms.

(** ** Concrete inputs *)

Module Examples.

Import Filter.

Definition sample (task completion : string) : Sample :=
  {| f_task_id := Some (PStr (u task));
     f_completion := Some (PStr (u completion)) |}.

(** The scenario of the specification: a good and an empty sample for [t1],
    a short one for [t2], an unbalanced one for [t3]. *)
Definition scenario : list Sample :=
  [ sample "t1" "ok codeok codeok codeok codeok code";
    sample "t1" "";
    sample "t2" "x";
    sample "t3" "{{{{{" ].

(** Two samples that pass, the later task first. *)
Definition unsorted_pair : list Sample :=
  [ sample "t2" "fn main() { }"; sample "t1" "fn main() { }" ].

(** A record with no [completion] field, and one of blanks. *)
Definition no_completion : Sample :=
  {| f_task_id := Some (PStr (u "t1")); f_completion := None |}.

Definition blank_completion : Sample := sample "t1" "   ".

(** Completions at the two thresholds. *)
Definition ten_chars : Sample := sample "t1" "  abcdefghij  ".
Definition nine_chars : Sample := sample "t1" "abcdefghi".
Definition three_open : Sample := sample "t1" "fn f() { { { x".
Definition four_open : Sample := sample "t1" "fn f() { { { { x".

(** A completion of ten open braces, and the samples at the thresholds as
    the samples of one task. *)
Definition ten_braces : Sample := sample "t1" "{{{{{{{{{{".

Definition boundary_samples : list Sample :=
  [ ten_chars; nine_chars; three_open; four_open ].

(** Runs of the orchestrator: the defaults of the command line, and
    [--policy-only --skip-base --skip-finetuned]. *)
Definition default_args : Orchestrator.Args :=
  {| Orchestrator.sandbox_mode := Some (u "auto");
     Orchestrator.policy_only := false;
     Orchestrator.no_policy_only := false;
     Orchestrator.skip_base := false;
     Orchestrator.skip_finetuned := false;
     Orchestrator.seed := 1234;
     Orchestrator.k_values := u "1,10,100" |}.

Definition policy_only_args : Orchestrator.Args :=
  {| Orchestrator.sandbox_mode := Some (u "auto");
     Orchestrator.policy_only := true;
     Orchestrator.no_policy_only := false;
     Orchestrator.skip_base := true;
     Orchestrator.skip_finetuned := true;
     Orchestrator.seed := 1234;
     Orchestrator.k_values := u "1,10,100" |}.

(** [--policy-only --no-policy-only], [--skip-base --skip-finetuned], and
    the defaults with a letter among the [--k-values]. *)
Definition both_only_args : Orchestrator.Args :=
  {| Orchestrator.sandbox_mode := Some (u "auto");
     Orchestrator.policy_only := true;
     Orchestrator.no_policy_only := true;
     Orchestrator.skip_base := false;
     Orchestrator.skip_finetuned := false;
     Orchestrator.seed := 1234;
     Orchestrator.k_values := u "1,10,100" |}.

Definition skip_models_args : Orchestrator.Args :=
  {| Orchestrator.sandbox_mode := Some (u "auto");
     Orchestrator.policy_only := false;
     Orchestrator.no_policy_only := false;
     Orchestrator.skip_base := true;
     Orchestrator.skip_finetuned := true;
     Orchestrator.seed := 1234;
     Orchestrator.k_values := u "1,10,100" |}.

Definition bad_k_values_args : Orchestrator.Args :=
  {| Orchestrator.sandbox_mode := Some (u "auto");
     Orchestrator.policy_only := false;
     Orchestrator.no_policy_only := false;
     Orchestrator.skip_base := false;
     Orchestrator.skip_finetuned := false;
     Orchestrator.seed := 1234;
     Orchestrator.k_values := u "1,x" |}.

(** A host without [numpy] and without a GPU, on which the engine loads,
    and the same host with an engine that raises while it is loaded. *)
Definition cpu_torch : Orchestrator.Torch :=
  {| Orchestrator.manual_seed := fun _ => Ok tt;
     Orchestrator.cuda_is_available := false;
     Orchestrator.cuda_manual_seed_all := fun _ => Ok tt |}.

Definition plain_runtime : Orchestrator.Runtime :=
  {| Orchestrator.int_of := Validator.int_decimal;
     Orchestrator.numpy_seed := None;
     Orchestrator.torch := cpu_torch;
     Orchestrator.import_engine := Ok tt |}.

(** A generator that leaves two samples, an engine that cannot start and one
    that solves nothing. *)
Definition generate_pair (enforce_policy is_peft : bool)
  : result (list Sample) :=
  Ok unsorted_pair.

Definition engine_fault : exn := EngineError (u "cannot spawn workers").

Definition faulty_engine (mode : str) (enforce_policy : bool)
           (records : list Sample) : result (Orchestrator.Metrics nat) :=
  Raise engine_fault.

Definition zero_engine (mode : str) (enforce_policy : bool)
           (records : list Sample) : result (Orchestrator.Metrics nat) :=
  Ok [(u "pass@1", 0)].

(** The result of a phase in which both models were skipped. *)
Definition nothing_evaluated : Orchestrator.ModeResult nat :=
  {| Orchestrator.base := None; Orchestrator.finetuned := None |}.

(** The plain host with an engine that raises while it is loaded. *)
Definition engine_load_fault : exn :=
  EngineError (u "human_eval.evaluation failed to load").

Definition broken_engine_runtime : Orchestrator.Runtime :=
  {| Orchestrator.int_of := Validator.int_decimal;
     Orchestrator.numpy_seed := None;
     Orchestrator.torch := cpu_torch;
     Orchestrator.import_engine := Raise engine_load_fault |}.

End Examples.

(** ** Sample generation: the parts of [generate_samples_for_model] that
    are not the model *)

Module Generation.

Import Filter.

(** [s.split(sep)] for a separator of one character or more: the pieces
    between the occurrences of [sep], found from the left, one after the
    other.  [skip] counts the characters of an occurrence still to pass. *)
Fixpoint split_skip (sep : str) (skip : nat) (s : str) : list str :=
  match s with
  | [] => [[]]
  | c :: s' =>
      match skip with
      | S k => split_skip sep k s'
      | O =>
          if starts_with sep s then [] :: split_skip sep (len sep - 1) s'
          else match split_skip sep 0 s' with
               | w :: ws => (c :: w) :: ws
               | [] => [[c]]
               end
      end
  end.

Definition split_on (sep s : str) : list str := split_skip sep 0 s.

Definition fence_rust : str := u "```rust".
Definition fence : str := u "```".

(** The clean-up of a decoded completion:
    [if "```rust" in c: c = c.split("```rust")[-1]],
    [if "```" in c: c = c.split("```")[0]], [c = c.strip()]. *)
Definition clean_completion (completion : str) : str :=
  let completion :=
    if contains fence_rust completion
    then last (split_on fence_rust completion) []
    else completion in
  let completion :=
    if contains fence completion
    then hd [] (split_on fence completion)
    else completion in
  strip completion.

Definition checkpoint_marker : str := u "/checkpoint-".

(** [actual_model_path] and [checkpoint_subfolder] of a model path. *)
Definition checkpoint_location (model_path : str) (is_peft : bool)
  : str * option str :=
  if is_peft && contains checkpoint_marker model_path
  then let parts := split_on checkpoint_marker model_path in
       (nth 0 parts [], Some (u "checkpoint-" ++ nth 1 parts []))
  else (model_path, None).

Definition placeholder_text : str :=
  u "// Placeholder: generation failed for this problem".

(** [{"task_id": task_id, "completion": completion}] *)
Definition record (task_id completion : str) : Sample :=
  {| f_task_id := Some (PStr task_id);
     f_completion := Some (PStr completion) |}.

(** [range(0, stop, step)], its values in order. *)
Definition range_from_zero (stop : nat) (step : Z) : result (list nat) :=
  if (step =? 0)%Z
  then Raise (ValueError (u "range() arg 3 must not be zero"))
  else if (step <? 0)%Z then Ok []
  else Ok (map (fun i => i * Z.to_nat step)
               (seq 0 ((stop + Z.to_nat step - 1) / Z.to_nat step))).

(** [l[a:b]] for [a <= b]. *)
Definition slice {A} (l : list A) (a b : nat) : list A :=
  firstn (b - a) (skipn a l).

(** What the generator hands to its writers and prints about failures, in
    order: a batch to the writer of the output file, one record or one
    placeholder to a writer that appends to it.  The bytes of the file are
    not modelled. *)
Inductive Event :=
| WroteAll (batch : list Sample)
| Appended (sample : Sample)
| BatchFailed (batch_start : nat) (e : exn)
| SampleFailed (task_id : str) (e : exn)
| PlaceholderAppended (sample : Sample).

(** The locals of the generation loop. *)
Record State := mkState {
  samples : list Sample;
  problems_with_samples : list str;
  events : list Event
}.

Definition start : State :=
  {| samples := []; problems_with_samples := []; events := [] |}.

(** [t in problems_with_samples] *)
Definition has_sample (st : State) (t : str) : bool :=
  existsb (str_eqb t) (problems_with_samples st).

Section Generator.

(** The prompt as it is sent: the instructions added, the chat template
    applied where the tokenizer has one. *)
Variable format_prompt : str -> str.
(** Tokenizing, generating and decoding the batch that starts at an index:
    the decoded new text of each output row, or the exception. *)
Variable generate_batch : nat -> list str -> result (list str).
(** The same for one prompt of a batch, in the fallback. *)
Variable generate_one : nat -> nat -> str -> result str.
(** The order in which a [set] of task ids is iterated. *)
Variable iteration_order : list str -> list str.

(** [all_prompts] and [task_ids]: [num_samples_per_task] copies for each
    problem, in the order of the problems. *)
Definition prepare (problems : list (str * str)) (num_samples_per_task : Z)
  : list str * list str :=
  (flat_map (fun p => repeat (format_prompt (snd p))
                             (Z.to_nat num_samples_per_task)) problems,
   flat_map (fun p => repeat (fst p) (Z.to_nat num_samples_per_task))
            problems).

(** The fallback for one prompt of a failed batch. *)
Definition fallback_step (batch_start : nat) (st : State)
           (item : nat * (str * str)) : State :=
  let '(i, (task_id, prompt)) := item in
  match generate_one batch_start i prompt with
  | Ok completion =>
      let sample := record task_id (clean_completion completion) in
      {| samples := samples st ++ [sample];
         problems_with_samples := problems_with_samples st ++ [task_id];
         events := events st ++ [Appended sample] |}
  | Raise e2 =>
      {| samples := samples st;
         problems_with_samples := problems_with_samples st;
         events := events st ++ [SampleFailed task_id e2] |}
  end.

(** The body of the loop over the batches. *)
Definition batch_step (all_prompts task_ids : list str)
           (batch_size total : nat) (st : State) (batch_start : nat)
  : State :=
  let batch_end := Nat.min (batch_start + batch_size) total in
  let batch_prompts := slice all_prompts batch_start batch_end in
  let batch_task_ids := slice task_ids batch_start batch_end in
  match generate_batch batch_start batch_prompts with
  | Ok outputs =>
      let batch_samples :=
        map (fun item => record (fst item) (clean_completion (snd item)))
            (combine batch_task_ids outputs) in
      {| samples := samples st ++ batch_samples;
         problems_with_samples :=
           problems_with_samples st
           ++ map fst (combine batch_task_ids outputs);
         events := events st ++ [WroteAll batch_samples] |}
  | Raise e =>
      fold_left (fallback_step batch_start)
                (combine (seq 0 (List.length batch_task_ids))
                         (combine batch_task_ids batch_prompts))
                {| samples := samples st;
                   problems_with_samples := problems_with_samples st;
                   events := events st ++ [BatchFailed batch_start e] |}
  end.

(** The placeholders for the problems that got no sample. *)
Definition add_placeholders (problem_ids : list str) (st : State) : State :=
  let missing_problems :=
    filter (fun t => negb (has_sample st t)) problem_ids in
  match missing_problems with
  | [] => st
  | _ :: _ =>
      let placeholders :=
        map (fun t => record t placeholder_text)
            (iteration_order missing_problems) in
      {| samples := samples st ++ placeholders;
         problems_with_samples :=
           problems_with_samples st ++ iteration_order missing_problems;
         events := events st ++ map PlaceholderAppended placeholders |}
  end.

(** [generate_samples_for_model], from [problems = read_problems(...)] on:
    the samples collected and the events, or the exception. *)
Definition generate_samples_for_model (problems : list (str * str))
           (num_samples_per_task batch_size : Z) : result State :=
  let '(all_prompts, task_ids) := prepare problems num_samples_per_task in
  let total_tasks := List.length all_prompts in
  starts <- range_from_zero total_tasks batch_size ;;
  let st :=
    fold_left (batch_step all_prompts task_ids (Z.to_nat batch_size)
                          total_tasks)
              starts start in
  Ok (add_placeholders (map fst problems) st).

End Generator.

(** The records an event hands to a writer of the output file. *)
Definition handed (e : Event) : list Sample :=
  match e with
  | WroteAll batch => batch
  | Appended sample => [sample]
  | PlaceholderAppended sample => [sample]
  | BatchFailed _ _ => []
  | SampleFailed _ _ => []
  end.

(** A string with no blank at its left end. *)
Definition no_lead (s : str) : bool :=
  match s with
  | [] => true
  | c :: _ => negb (isspace c)
  end.

(** A record as the generator builds them: a task id and a completion that
    is trimmed and holds no code fence. *)
Definition generated (problem_ids : list str) (s : Sample) : Prop :=
  exists t c, s = record t c /\ In t problem_ids
              /\ strip c = c /\ contains fence c = false.

(** The locals of the loop agree: the task ids noted are those of the
    samples collected, the samples collected are the records handed to the
    writers, in that order, and each is a record of a problem. *)
Definition consistent (problem_ids : list str) (st : State) : Prop :=
  Terms.task_ids (samples st) = map PStr (problems_with_samples st)
  /\ flat_map handed (events st) = samples st
  /\ Forall (generated problem_ids) (samples st).

(** The event is a batch handed to the writer of the output file. *)
Definition is_batch (e : Event) : bool :=
  match e with
  | WroteAll _ => true
  | _ => false
  end.

(** The event is a placeholder. *)
Definition is_placeholder (e : Event) : bool :=
  match e with
  | PlaceholderAppended _ => true
  | _ => false
  end.

End Generation.

(** ** Examples for the generator *)

Module GenerationExamples.

Import Generation.

Definition two_problems : list (str * str) :=
  [(u "Rust/0", u "fn add(a: i32, b: i32) -> i32 {");
   (u "Rust/1", u "fn neg(a: i32) -> i32 {")].

(** A tokenizer with no chat template, and a prompt with no instructions
    added. *)
Definition raw_prompt (prompt : str) : str := prompt.

(** A model that answers every prompt of a batch with a fenced block. *)
Definition fenced_answer : str := u "```rust a + b } ```".

Definition answering_batch (batch_start : nat) (prompts : list str)
  : result (list str) :=
  Ok (map (fun _ => fenced_answer) prompts).

(** A model that fails on every batch, and on every prompt alone. *)
Definition failing_batch (batch_start : nat) (prompts : list str)
  : result (list str) :=
  Raise (RuntimeError (u "CUDA out of memory")).

Definition failing_one (batch_start i : nat) (prompt : str) : result str :=
  Raise (RuntimeError (u "CUDA out of memory")).

(** A model whose output has no rows. *)
Definition silent_batch (batch_start : nat) (prompts : list str)
  : result (list str) :=
  Ok [].

(** A set that is iterated in the order of the list. *)
Definition listed_order (l : list str) : list str := l.

End GenerationExamples.

(** ** More words, for the filter's diagnostics *)

Module Diagnostics.

Import Filter Terms.

(** The reason the loop counts a record for, [None] for a record it keeps:
    the first of the three predicates that holds. *)
Definition reason_of (s : Sample) : option string :=
  if is_empty (trimmed s) then Some "empty"%string
  else if too_short (trimmed s) then Some "short"%string
  else if brace_imbalance (trimmed s) then Some "braces"%string
  else None.

Definition rejected_for (k : string) (s : Sample) : bool :=
  match reason_of s with
  | Some k' => String.eqb k' k
  | None => false
  end.

(** The records of task [t] the loop counts for reason [k]. *)
Definition rejected_of (k : string) (t : pyval) (samples : list Sample)
  : list Sample :=
  filter (fun s => same_task t s && rejected_for k s) samples.

(** The lines the second pass prints for a task. *)
Definition warned (d : Dict) (t : pyval) : list Printed :=
  snd (second_pass_step d t).

(** The record's [completion] is [null]. *)
Definition null_completion (s : Sample) : bool := negb (has_text s).

(** The record has no [task_id], or has [null] for it. *)
Definition no_task_id (s : Sample) : bool :=
  match get_task_id s with
  | PNone => true
  | PStr _ => false
  end.

End Diagnostics.

(* ================================================================== *)
(** * Part II. Theorems                                                 *)
(* ================================================================== *)

Import Filter Terms.

(** ** Strings and their order *)

Lemma str_eqb_eq (a b : str) : str_eqb a b = true <-> a = b.
Proof.
  revert b; induction a as [|x a IH]; intros [|y b]; simpl; split;
    try congruence; try discriminate.
  - intros H. apply andb_true_iff in H as [Hx Hab].
    apply N.eqb_eq in Hx. apply IH in Hab. congruence.
  - intros H. injection H as -> ->. rewrite N.eqb_refl. simpl. now apply IH.
Qed.

Lemma str_eqb_refl (a : str) : str_eqb a a = true.
Proof. now apply str_eqb_eq. Qed.

Lemma pyval_eqb_eq (a b : pyval) : pyval_eqb a b = true <-> a = b.
Proof.
  destruct a, b; simpl; split; try congruence; try discriminate.
  - intros H. apply str_eqb_eq in H. congruence.
  - intros H. injection H as ->. apply str_eqb_refl.
Qed.

Lemma pyval_eqb_refl (a : pyval) : pyval_eqb a a = true.
Proof. now apply pyval_eqb_eq. Qed.

Lemma pyval_eqb_neq (a b : pyval) : pyval_eqb a b = false <-> a <> b.
Proof.
  split.
  - intros H E. apply pyval_eqb_eq in E. congruence.
  - intros H. destruct (pyval_eqb a b) eqn:E; [|reflexivity].
    apply pyval_eqb_eq in E. contradiction.
Qed.

Lemma str_ltb_irrefl (a : str) : str_ltb a a = false.
Proof.
  induction a as [|x a IH]; simpl; [reflexivity|].
  now rewrite N.ltb_irrefl.
Qed.

Lemma str_ltb_asym (a b : str) : str_ltb a b = true -> str_ltb b a = false.
Proof.
  revert b; induction a as [|x a IH]; intros [|y b]; simpl; try congruence.
  destruct (N.ltb_spec x y), (N.ltb_spec y x); try congruence; try lia.
  apply IH.
Qed.

Lemma str_le_trans (a b c : str) :
  str_ltb b a = false -> str_ltb c b = false -> str_ltb c a = false.
Proof.
  revert b c; induction a as [|x a IH]; intros [|y b] [|z c]; simpl;
    try congruence.
  destruct (N.ltb_spec y x), (N.ltb_spec x y), (N.ltb_spec z y),
    (N.ltb_spec y z), (N.ltb_spec z x), (N.ltb_spec x z);
    try congruence; try lia.
  apply IH.
Qed.

Lemma task_le_trans (a b c : pyval) : task_le a b -> task_le b c -> task_le a c.
Proof.
  destruct a, b, c; simpl; try tauto. apply str_le_trans.
Qed.

Lemma task_le_refl (s : str) : task_le (PStr s) (PStr s).
Proof. apply str_ltb_irrefl. Qed.

(** ** [sorted] on keys that are strings *)

Lemma insort_strings (x : pyval) (l : list pyval) :
  is_str x -> Forall is_str l -> Sorted task_le l ->
  exists r, insort x l = Ok r /\ Permutation (x :: l) r /\ Sorted task_le r
            /\ (forall h, HdRel task_le h l -> task_le h x -> HdRel task_le h r).
Proof.
  intros Hx. induction l as [|y l IH]; intros Hl Hs.
  - exists [x]. simpl. repeat split; auto.
  - inversion Hl as [|? ? Hy Hl']; subst.
    inversion Hs as [|? ? Hs' Hhd]; subst.
    destruct x as [|sx]; [destruct Hx|]. destruct y as [|sy]; [destruct Hy|].
    simpl. destruct (str_ltb sy sx) eqn:E.
    + destruct (IH Hl' Hs') as (r & Hr & Hp & Hsr & Hh).
      rewrite Hr. simpl. exists (PStr sy :: r). repeat split.
      * rewrite perm_swap. now constructor.
      * constructor; [assumption|]. apply Hh; [assumption|].
        simpl. now apply str_ltb_asym.
      * intros h Hh1 Hh2. inversion Hh1; subst. now constructor.
    + exists (PStr sx :: PStr sy :: l). split; [reflexivity|].
      split; [apply Permutation_refl|]. split.
      * constructor; [assumption|]. constructor. exact E.
      * intros h _ Hh2. now constructor.
Qed.

Lemma sorted_strings (l : list pyval) :
  Forall is_str l ->
  exists r, sorted l = Ok r /\ Permutation l r /\ Sorted task_le r.
Proof.
  induction l as [|x l IH]; intros Hl.
  - exists []. simpl. repeat split; auto.
  - inversion Hl as [|? ? Hx Hl']; subst.
    destruct (IH Hl') as (r & Hr & Hp & Hs).
    assert (Hfr : Forall is_str r).
    { rewrite Forall_forall in *. intros v Hv. apply Hl'.
      eapply Permutation_in; [symmetry; eassumption|assumption]. }
    destruct (insort_strings x Hx Hfr Hs) as (r' & Hr' & Hp' & Hs' & _).
    exists r'. simpl. rewrite Hr. simpl. repeat split; auto.
    rewrite <- Hp'. now constructor.
Qed.

Lemma sorted_strongly (l : list pyval) :
  Sorted task_le l -> StronglySorted task_le l.
Proof.
  apply Sorted_StronglySorted. intros a b c. apply task_le_trans.
Qed.

(** ** The dict [problem_samples] *)

Lemma lookup_upd (t t' : pyval) (f : Entry -> Entry) (d : Dict) :
  lookup t (upd t' f d)
  = if pyval_eqb t' t then f (lookup t d) else lookup t d.
Proof.
  induction d as [|[k e] d IH]; simpl.
  - destruct (pyval_eqb t' t); reflexivity.
  - destruct (pyval_eqb k t') eqn:Ekt'; simpl.
    + apply pyval_eqb_eq in Ekt'. subst k.
      destruct (pyval_eqb t' t); reflexivity.
    + rewrite IH. destruct (pyval_eqb k t) eqn:Ekt; [|reflexivity].
      apply pyval_eqb_eq in Ekt. subst k.
      destruct (pyval_eqb t' t) eqn:Et't; [|reflexivity].
      apply pyval_eqb_eq in Et't. subst t'.
      now rewrite pyval_eqb_refl in Ekt'.
Qed.

Lemma keys_upd (t k : pyval) (f : Entry -> Entry) (d : Dict) :
  In k (keys (upd t f d)) <-> k = t \/ In k (keys d).
Proof.
  unfold keys. induction d as [|[k' e] d IH]; simpl.
  - intuition.
  - destruct (pyval_eqb k' t) eqn:E; simpl.
    + apply pyval_eqb_eq in E. subst k'. intuition.
    + rewrite IH. intuition.
Qed.

Lemma keys_upd_NoDup (t : pyval) (f : Entry -> Entry) (d : Dict) :
  NoDup (keys d) -> NoDup (keys (upd t f d)).
Proof.
  unfold keys. induction d as [|[k e] d IH]; simpl; intros H.
  - constructor; [intros []|constructor].
  - inversion H as [|? ? Hk Hd]; subst.
    destruct (pyval_eqb k t) eqn:E; simpl.
    + now constructor.
    + constructor; [|now apply IH].
      intros Hin. apply (keys_upd t k f d) in Hin as [->|Hin].
      * now rewrite pyval_eqb_refl in E.
      * contradiction.
Qed.

(** ** The first pass *)

Lemma has_text_completion (s : Sample) :
  has_text s = true -> get_completion s = PStr (match get_completion s with
                                                | PStr c => c
                                                | PNone => []
                                                end).
Proof.
  unfold has_text, get_completion. destruct (f_completion s) as [[|c]|];
    simpl; congruence.
Qed.

(** What one turn of the loop does to the locals, for a record whose
    completion is text. *)
Lemma first_pass_step_spec (st : State) (s : Sample) :
  has_text s = true ->
  exists st',
    first_pass_step st s = Ok st'
    /\ (forall x, all (lookup x (problem_samples st'))
                  = all (lookup x (problem_samples st))
                    ++ (if same_task x s then [s] else []))
    /\ (forall x, kept (lookup x (problem_samples st'))
                  = kept (lookup x (problem_samples st))
                    ++ (if same_task x s && passes s then [s] else []))
    /\ filtered_count st' = filtered_count st + (if passes s then 0 else 1)
    /\ total_count st' = total_count st + 1
    /\ (forall k, In k (keys (problem_samples st'))
                  <-> k = get_task_id s \/ In k (keys (problem_samples st)))
    /\ (NoDup (keys (problem_samples st))
        -> NoDup (keys (problem_samples st'))).
Proof.
  intros Ht. pose proof (has_text_completion s Ht) as Hc.
  unfold first_pass_step, passes, trimmed, is_empty, too_short, brace_imbalance,
    same_task.
  rewrite Hc. simpl strip_method. cbv beta iota delta [bind].
  set (c := strip _).
  destruct (len c =? 0)%nat; [|destruct (len c <? 10)%nat;
                                [|destruct (brace_delta c >? 3)%Z]];
    eexists; (split; [reflexivity|]); simpl;
    (split; [intros x; rewrite !lookup_upd;
             destruct (pyval_eqb (get_task_id s) x); simpl;
             now rewrite ?app_nil_r|]);
    (split; [intros x; rewrite !lookup_upd;
             destruct (pyval_eqb (get_task_id s) x); simpl;
             now rewrite ?app_nil_r|]);
    (split; [lia|]); (split; [reflexivity|]);
    (split; [intros k; rewrite !keys_upd; tauto|]);
    intros Hnd; now repeat apply keys_upd_NoDup.
Qed.

Lemma first_pass_spec (samples : list Sample) : forall st,
  Forall (fun s => has_text s = true) samples ->
  exists st',
    first_pass st samples = Ok st'
    /\ (forall x, all (lookup x (problem_samples st'))
                  = all (lookup x (problem_samples st)) ++ of_task x samples)
    /\ (forall x, kept (lookup x (problem_samples st'))
                  = kept (lookup x (problem_samples st))
                    ++ filter passes (of_task x samples))
    /\ filtered_count st' = filtered_count st + List.length (rejected samples)
    /\ total_count st' = total_count st + List.length samples
    /\ (forall k, In k (keys (problem_samples st'))
                  <-> In k (task_ids samples) \/ In k (keys (problem_samples st)))
    /\ (NoDup (keys (problem_samples st))
        -> NoDup (keys (problem_samples st'))).
Proof.
  induction samples as [|s rest IH]; intros st Hall.
  - exists st. simpl. repeat split; intros; rewrite ?app_nil_r; auto; tauto.
  - inversion Hall as [|? ? Hs Hrest]; subst.
    destruct (first_pass_step_spec st s Hs)
      as (st1 & E1 & A1 & K1 & F1 & T1 & I1 & N1).
    destruct (IH st1 Hrest) as (st' & E' & A' & K' & F' & T' & I' & N').
    exists st'. simpl first_pass. rewrite E1. simpl bind. split; [exact E'|].
    split; [|split; [|split; [|split; [|split]]]].
    + intros x. rewrite A', A1. unfold of_task. simpl.
      destruct (same_task x s); simpl; now rewrite <- app_assoc.
    + intros x. rewrite K', K1. unfold of_task. simpl.
      destruct (same_task x s); simpl; [|now rewrite app_nil_r].
      destruct (passes s); simpl; now rewrite <- app_assoc.
    + rewrite F', F1. unfold rejected. simpl.
      destruct (passes s); simpl; lia.
    + rewrite T', T1. simpl. lia.
    + intros k. rewrite I', I1. unfold task_ids. simpl. intuition.
    + auto.
Qed.

(** ** The second pass *)

Lemma second_pass_step_written (d : Dict) (t : pyval) :
  fst (second_pass_step d t) = emitted (lookup t d).
Proof.
  unfold second_pass_step, emitted.
  destruct (kept (lookup t d)); [|reflexivity].
  destruct (all (lookup t d)); reflexivity.
Qed.

Lemma second_pass_written (d : Dict) (order : list pyval) :
  fst (second_pass d order) = flat_map (fun t => emitted (lookup t d)) order.
Proof.
  induction order as [|t order IH]; simpl; [reflexivity|].
  rewrite <- IH, <- second_pass_step_written.
  destruct (second_pass_step d t), (second_pass d order). reflexivity.
Qed.

(** ** The whole call, on records of the data model *)

Lemma well_formed_has_text (s : Sample) :
  well_formed s = true -> has_text s = true.
Proof.
  unfold well_formed, has_text.
  destruct (f_task_id s) as [[|t]|], (f_completion s) as [[|c]|]; congruence.
Qed.

Lemma well_formed_is_str (s : Sample) :
  well_formed s = true -> is_str (get_task_id s).
Proof.
  unfold well_formed, get_task_id.
  destruct (f_task_id s) as [[|t]|], (f_completion s) as [[|c]|];
    simpl; congruence || exact (fun _ => I).
Qed.

Lemma rejected_nil_iff (samples : list Sample) :
  (0 <? List.length (rejected samples))%nat = negb (forallb passes samples).
Proof.
  unfold rejected. induction samples as [|s rest IH]; simpl; [reflexivity|].
  destruct (passes s); simpl; [exact IH|reflexivity].
Qed.

(** The call returns, and this is what it leaves: the filtered file holds, for
    each task in sorted order, the samples of [expected_for]; the path
    returned is the filtered file when some sample was rejected and the input
    file when none was. *)
Lemma filter_run (samples : list Sample) :
  Forall (fun s => well_formed s = true) samples ->
  exists o order,
    _filter_bad_samples samples = Ok o
    /\ written o = flat_map (fun t => expected_for t samples) order
    /\ returned o = (if forallb passes samples then SampleFile else FilteredFile)
    /\ Sorted task_le order
    /\ NoDup order
    /\ (forall t, In t order <-> In t (task_ids samples)).
Proof.
  intros Hwf.
  assert (Htext : Forall (fun s => has_text s = true) samples).
  { eapply Forall_impl; [|exact Hwf]. apply well_formed_has_text. }
  destruct (first_pass_spec initial Htext)
    as (st & E & A & K & F & T & I & N).
  simpl in A, K, F, I, N.
  assert (Hkeys : Forall is_str (keys (problem_samples st))).
  { rewrite Forall_forall. intros k Hk. apply I in Hk as [Hk|[]].
    unfold task_ids in Hk. apply in_map_iff in Hk as (s & <- & Hs).
    apply well_formed_is_str. rewrite Forall_forall in Hwf. now apply Hwf. }
  destruct (sorted_strings Hkeys) as (order & Eo & Hp & Hs).
  unfold _filter_bad_samples. rewrite E. simpl bind. rewrite Eo. simpl bind.
  pose proof (second_pass_written (problem_samples st) order) as Hw.
  destruct (second_pass (problem_samples st) order) as [w p]. simpl in Hw.
  eexists; exists order. split; [reflexivity|]. simpl.
  split; [|split; [|split; [assumption|split]]].
  - rewrite Hw. apply flat_map_ext. intros t.
    unfold emitted, expected_for. now rewrite K, A.
  - rewrite F, rejected_nil_iff. now destruct (forallb passes samples).
  - eapply Permutation_NoDup; [exact Hp|]. apply N. constructor.
  - intros t. split; intros Ht.
    + apply (Permutation_in _ (Permutation_sym Hp)) in Ht.
      apply I in Ht. tauto.
    + apply (Permutation_in _ Hp). apply I. now left.
Qed.

(** ** Tasks of the output *)

Lemma same_task_eq (t : pyval) (s : Sample) :
  same_task t s = true <-> get_task_id s = t.
Proof. apply pyval_eqb_eq. Qed.

Lemma filter_all {A} (f : A -> bool) (l : list A) :
  (forall x, In x l -> f x = true) -> filter f l = l.
Proof.
  induction l as [|a l IH]; simpl; intros H; [reflexivity|].
  rewrite (H a) by now left. f_equal. apply IH. intros x Hx. apply H. now right.
Qed.

Lemma filter_none {A} (f : A -> bool) (l : list A) :
  (forall x, In x l -> f x = false) -> filter f l = [].
Proof.
  induction l as [|a l IH]; simpl; intros H; [reflexivity|].
  rewrite (H a) by now left. apply IH. intros x Hx. apply H. now right.
Qed.

Lemma in_task_ids_iff (t : pyval) (l : list Sample) :
  In t (task_ids l) <-> of_task t l <> [].
Proof.
  unfold task_ids, of_task. induction l as [|s l IH]; simpl.
  - split; [intros []|congruence].
  - destruct (same_task t s) eqn:E.
    + apply same_task_eq in E. split; [discriminate|now left].
    + rewrite <- IH. split; [|tauto].
      intros [H|H]; [|assumption].
      apply same_task_eq in H. congruence.
Qed.

Lemma expected_for_in (t : pyval) (samples : list Sample) (x : Sample) :
  In x (expected_for t samples) -> get_task_id x = t /\ In x samples.
Proof.
  intros H.
  assert (Hx : In x (of_task t samples)).
  { unfold expected_for in H.
    destruct (filter passes (of_task t samples)) eqn:E.
    - destruct (of_task t samples); simpl in H; [destruct H|].
      destruct H as [<-|[]]. now left.
    - rewrite <- E in H. now apply filter_In in H. }
  unfold of_task in Hx. apply filter_In in Hx as [Hin Hs].
  apply same_task_eq in Hs. now split.
Qed.

Lemma expected_for_nil_iff (t : pyval) (samples : list Sample) :
  expected_for t samples = [] <-> of_task t samples = [].
Proof.
  unfold expected_for. split.
  - destruct (filter passes (of_task t samples)); [|discriminate].
    destruct (of_task t samples); [reflexivity|discriminate].
  - intros ->. reflexivity.
Qed.

Lemma expected_for_all_pass (t : pyval) (samples : list Sample) :
  forallb passes samples = true -> expected_for t samples = of_task t samples.
Proof.
  intros H. unfold expected_for.
  rewrite filter_all.
  - now destruct (of_task t samples).
  - intros x Hx. unfold of_task in Hx. apply filter_In in Hx as [Hx _].
    rewrite forallb_forall in H. now apply H.
Qed.

Lemma of_task_flat_map (t : pyval) (samples : list Sample)
      (order : list pyval) :
  NoDup order ->
  of_task t (flat_map (fun t' => expected_for t' samples) order)
  = if existsb (pyval_eqb t) order then expected_for t samples else [].
Proof.
  unfold of_task. induction order as [|a order IH]; intros Hnd; simpl;
    [reflexivity|].
  inversion Hnd as [|? ? Ha Hrest]; subst.
  rewrite filter_app, (IH Hrest).
  destruct (pyval_eqb t a) eqn:E; simpl.
  - apply pyval_eqb_eq in E. subst a.
    rewrite filter_all.
    + assert (Hno : existsb (pyval_eqb t) order = false).
      { destruct (existsb (pyval_eqb t) order) eqn:Ex; [|reflexivity].
        apply existsb_exists in Ex as (y & Hy & Ey).
        apply pyval_eqb_eq in Ey. subst y. contradiction. }
      rewrite Hno. apply app_nil_r.
    + intros x Hx. apply same_task_eq. now apply expected_for_in in Hx.
  - rewrite filter_none; [reflexivity|].
    intros x Hx. apply expected_for_in in Hx as [Hx _].
    destruct (same_task t x) eqn:Es; [|reflexivity].
    apply same_task_eq in Es. apply pyval_eqb_neq in E. congruence.
Qed.

Lemma strongly_sorted_flat_map (samples : list Sample) (order : list pyval) :
  StronglySorted task_le order ->
  Forall is_str order ->
  StronglySorted task_le
    (task_ids (flat_map (fun t => expected_for t samples) order)).
Proof.
  unfold task_ids.
  induction order as [|a order IH]; intros Hs Hstr; simpl; [constructor|].
  inversion Hs as [|? ? Hs' Ha]; subst.
  inversion Hstr as [|? ? Hsa Hstr']; subst.
  specialize (IH Hs' Hstr'). rewrite map_app.
  assert (Hhead : forall x, In x (expected_for a samples) -> get_task_id x = a).
  { intros x Hx. now apply expected_for_in in Hx. }
  assert (Htail : Forall (task_le a)
            (map get_task_id (flat_map (fun t => expected_for t samples) order))).
  { rewrite Forall_forall. intros v Hv.
    apply in_map_iff in Hv as (x & <- & Hx).
    apply in_flat_map in Hx as (t & Ht & Hx).
    apply expected_for_in in Hx as [-> _].
    rewrite Forall_forall in Ha. now apply Ha. }
  induction (expected_for a samples) as [|x l IHl]; simpl; [exact IH|].
  constructor.
  - apply IHl. intros y Hy. apply Hhead. now right.
  - rewrite (Hhead x) by now left.
    apply Forall_app. split; [|exact Htail].
    rewrite Forall_forall. intros v Hv.
    apply in_map_iff in Hv as (y & <- & Hy).
    rewrite (Hhead y) by now right.
    destruct a; [destruct Hsa|apply task_le_refl].
Qed.

(** The filtered output of a run on records of the data model: it is the
    input itself when every sample passes, it is sorted by task id when some
    sample is rejected, and either way it holds for each task the samples of
    [expected_for], so the tasks of the output are the tasks of the input. *)
Lemma output_by_task (samples : list Sample) :
  Forall (fun s => well_formed s = true) samples ->
  exists out,
    filtered_output samples = Ok out
    /\ (forallb passes samples = true -> out = samples)
    /\ (forallb passes samples = false
        -> StronglySorted task_le (task_ids out))
    /\ (forall t, of_task t out = expected_for t samples)
    /\ (forall t, In t (task_ids out) <-> In t (task_ids samples)).
Proof.
  intros Hwf.
  destruct (filter_run Hwf) as (o & order & E & Hw & Hr & Hs & Hnd & Hin).
  assert (Hout : exists out,
             filtered_output samples = Ok out
             /\ (forallb passes samples = true -> out = samples)
             /\ (forallb passes samples = false
                 -> StronglySorted task_le (task_ids out))
             /\ (forall t, of_task t out = expected_for t samples)).
  { unfold filtered_output, records_at. rewrite E. simpl bind. rewrite Hr.
    destruct (forallb passes samples) eqn:Hp.
    - exists samples. repeat split; try congruence.
      intros t. symmetry. now apply expected_for_all_pass.
    - exists (written o). split; [reflexivity|]. split; [congruence|].
      rewrite Hw. split.
      + intros _. apply strongly_sorted_flat_map.
        * now apply sorted_strongly.
        * rewrite Forall_forall. intros t Ht. apply Hin in Ht.
          unfold task_ids in Ht. apply in_map_iff in Ht as (s & <- & Hs').
          apply well_formed_is_str. rewrite Forall_forall in Hwf.
          now apply Hwf.
      + intros t. rewrite (of_task_flat_map t samples Hnd).
        destruct (existsb (pyval_eqb t) order) eqn:Ex; [reflexivity|].
        symmetry. apply expected_for_nil_iff.
        destruct (of_task t samples) eqn:Et; [reflexivity|].
        assert (Hmem : In t order).
        { apply Hin. apply in_task_ids_iff. congruence. }
        assert (existsb (pyval_eqb t) order = true); [|congruence].
        apply existsb_exists. exists t. split; [assumption|].
        apply pyval_eqb_refl. }
  destruct Hout as (out & Eo & Hall & Hsorted & Htask).
  exists out. repeat split; try assumption.
  - intros Ht. apply in_task_ids_iff. apply in_task_ids_iff in Ht.
    rewrite Htask in Ht. now rewrite expected_for_nil_iff in Ht.
  - intros Ht. apply in_task_ids_iff. apply in_task_ids_iff in Ht.
    rewrite Htask. now rewrite expected_for_nil_iff.
Qed.

(** ** The claims about the filter *)

Import Examples.

(** C1. Coverage: on every sequence of samples of the data model (the empty
    one included) the call returns, and its filtered output covers exactly the
    task ids of the input: a task id is in the output if and only if it is in
    the input.  Where every sample of a task is rejected, the output holds for
    that task its first raw sample and nothing else. *)
Theorem coverage_invariant (samples : list Sample) :
  Forall (fun s => well_formed s = true) samples ->
  exists out,
    filtered_output samples = Ok out
    /\ (forall t, In t (task_ids out) <-> In t (task_ids samples))
    /\ (forall t first rest,
          of_task t samples = first :: rest ->
          filter passes (of_task t samples) = [] ->
          of_task t out = [first]).
Proof.
  intros Hwf.
  destruct (output_by_task Hwf) as (out & E & _ & _ & Htask & Hcov).
  exists out. split; [exact E|]. split; [exact Hcov|].
  intros t first rest Hraw Hnone. rewrite Htask.
  unfold expected_for. now rewrite Hnone, Hraw.
Qed.

Lemma coverage_invariant_witness :
  exists out,
    filtered_output scenario = Ok out
    /\ (forall t, In t (task_ids out) <-> In t (task_ids scenario))
    /\ (forall t first rest,
          of_task t scenario = first :: rest ->
          filter passes (of_task t scenario) = [] ->
          of_task t out = [first]).
Proof.
  apply (@coverage_invariant scenario). repeat constructor.
Defined.

(** C4, the case the claim gets wrong: when no sample is rejected the call
    returns the input file, and two passing samples that arrive with the later
    task first stay in that order. *)
Lemma unsorted_when_nothing_rejected :
  filtered_output unsorted_pair = Ok unsorted_pair
  /\ task_ids unsorted_pair = [PStr (u "t2"); PStr (u "t1")]
  /\ ~ Sorted task_le (task_ids unsorted_pair).
Proof.
  split; [reflexivity|]. split; [reflexivity|].
  intros H. inversion H as [|? ? _ Hhd]; subst.
  inversion Hhd as [|? ? Hle]; subst. vm_compute in Hle. discriminate.
Qed.

(** C4, as the code has it: on every sequence of samples of the data model
    the call returns; its output holds, for every task, the samples that pass
    in their arrival order (the first raw sample when none passes); when some
    sample is rejected the tasks come in sorted order of task id; when no
    sample is rejected the output is the input, in the order it arrived.
    The output is a function of the input records: the same input gives the
    same output. *)
Theorem output_order (samples : list Sample) :
  Forall (fun s => well_formed s = true) samples ->
  exists out,
    filtered_output samples = Ok out
    /\ (forall t, of_task t out = expected_for t samples)
    /\ (forallb passes samples = false
        -> StronglySorted task_le (task_ids out))
    /\ (forallb passes samples = true -> out = samples).
Proof.
  intros Hwf.
  destruct (output_by_task Hwf) as (out & E & Hall & Hsorted & Htask & _).
  exists out. auto.
Qed.

Lemma output_order_witness :
  exists out,
    filtered_output scenario = Ok out
    /\ (forall t, of_task t out = expected_for t scenario)
    /\ (forallb passes scenario = false
        -> StronglySorted task_le (task_ids out))
    /\ (forallb passes scenario = true -> out = scenario).
Proof.
  apply (@output_order scenario). repeat constructor.
Defined.

(** C8. Filtering a set in which every sample passes gives the set back: the
    call returns the input file, whose records are the input. *)
Theorem filter_idempotent_on_passing (samples : list Sample) :
  Forall (fun s => well_formed s = true) samples ->
  forallb passes samples = true ->
  filtered_output samples = Ok samples.
Proof.
  intros Hwf Hp.
  destruct (output_by_task Hwf) as (out & E & Hall & _).
  rewrite E. f_equal. now apply Hall.
Qed.

Lemma filter_idempotent_on_passing_witness :
  filtered_output unsorted_pair = Ok unsorted_pair.
Proof.
  apply (@filter_idempotent_on_passing unsorted_pair).
  - repeat constructor.
  - reflexivity.
Defined.

(** ** One turn of the loop, reason by reason *)

Lemma reasons_get_set (k k' : string) (n : nat) (r : list (string * nat)) :
  reasons_get k' (reasons_set k n r)
  = if String.eqb k k' then n else reasons_get k' r.
Proof.
  induction r as [|[k0 m] r IH]; simpl.
  - destruct (String.eqb k k'); reflexivity.
  - destruct (String.eqb k0 k) eqn:E; simpl.
    + apply String.eqb_eq in E. subst k0.
      destruct (String.eqb k k'); reflexivity.
    + rewrite IH. destruct (String.eqb k0 k') eqn:E2; [|reflexivity].
      apply String.eqb_eq in E2. subst k0.
      rewrite String.eqb_sym in E. now rewrite E.
Qed.

Lemma reject_counted (k : string) (st : State) (s : Sample) :
  counted_as k st s
    (reject k (get_task_id s) st
            (upd (get_task_id s) (append_all s) (problem_samples st))).
Proof.
  unfold counted_as, reject. simpl.
  rewrite !lookup_upd, pyval_eqb_refl. simpl.
  repeat split. intros k'. rewrite reasons_get_set.
  destruct (String.eqb_spec k k'); [subst k'|]; lia.
Qed.

Lemma keep_kept (st : State) (s : Sample) :
  kept_by st s
    {| filtered_count := filtered_count st;
       total_count := total_count st + 1;
       problem_samples :=
         upd (get_task_id s) (append_kept s)
             (upd (get_task_id s) (append_all s) (problem_samples st)) |}.
Proof.
  unfold kept_by. simpl. rewrite !lookup_upd, pyval_eqb_refl. simpl.
  repeat split.
Qed.

Lemma first_pass_step_eq (st : State) (s : Sample) :
  has_text s = true ->
  first_pass_step st s
  = Ok (let t := get_task_id s in
        let d := upd t (append_all s) (problem_samples st) in
        if is_empty (trimmed s) then reject "empty" t st d
        else if too_short (trimmed s) then reject "short" t st d
        else if brace_imbalance (trimmed s) then reject "braces" t st d
        else {| filtered_count := filtered_count st;
                total_count := total_count st + 1;
                problem_samples := upd t (append_kept s) d |}).
Proof.
  intros Ht. pose proof (has_text_completion s Ht) as Hc.
  unfold first_pass_step, trimmed, is_empty, too_short, brace_imbalance.
  rewrite Hc. simpl.
  destruct (len _ =? 0)%nat; [reflexivity|].
  destruct (len _ <? 10)%nat; [reflexivity|].
  destruct (brace_delta _ >? 3)%Z; reflexivity.
Qed.

(** One turn of the loop, at the thresholds of the three predicates, each
    for a record the earlier predicates let through: a record is either
    kept, or counted for one reason. *)
Lemma first_pass_step_thresholds (st : State) (s : Sample) :
  has_text s = true ->
  exists st',
    first_pass_step st s = Ok st'
    /\ (len (trimmed s) = 0 -> counted_as "empty" st s st')
    /\ (0 < len (trimmed s) < 10 -> counted_as "short" st s st')
    /\ (len (trimmed s) = 10 -> (brace_delta (trimmed s) <= 3)%Z
        -> kept_by st s st')
    /\ (10 <= len (trimmed s) -> brace_delta (trimmed s) = 3%Z
        -> kept_by st s st')
    /\ (10 <= len (trimmed s) -> (4 <= brace_delta (trimmed s))%Z
        -> counted_as "braces" st s st')
    /\ ((passes s = true /\ kept_by st s st')
        \/ (passes s = false /\ exists k, counted_as k st s st')).
Proof.
  intros Ht. rewrite (first_pass_step_eq st s Ht). eexists. split; [reflexivity|].
  unfold passes, is_empty, too_short, brace_imbalance. cbv zeta.
  destruct (Nat.eqb_spec (len (trimmed s)) 0) as [E0|E0];
    [|destruct (Nat.ltb_spec (len (trimmed s)) 10) as [E1|E1];
      [|rewrite Z.gtb_ltb;
        destruct (Z.ltb_spec 3 (brace_delta (trimmed s))) as [E2|E2]]];
    simpl;
    repeat match goal with
           | |- _ /\ _ => split
           | |- _ -> _ => intros
           end;
    try lia;
    try apply reject_counted; try apply keep_kept.
  - right. split; [reflexivity|]. eexists. apply reject_counted.
  - right. split; [reflexivity|]. eexists. apply reject_counted.
  - right. split; [reflexivity|]. eexists. apply reject_counted.
  - left. split; [reflexivity|]. apply keep_kept.
Qed.

(** A record whose [completion] is [null] is no such record: [strip] is
    called on [None], and the call ends there. *)
Lemma null_completion_raises (st : State) (t : option pyval) :
  first_pass_step st {| f_task_id := t; f_completion := Some PNone |}
  = Raise AttributeError.
Proof. reflexivity. Qed.

(** C9. A record with no [completion] field, or whose completion trims to
    the empty string, does not make the loop raise: the turn returns, the
    record is counted as [empty] and for no other reason, and it is appended
    to the raw samples of its task.  It stays the fallback of its task: in a
    run where it is the first raw sample of its task and no sample of that
    task passes, the call returns and the output holds that record, alone,
    for the task. *)
Theorem missing_completion_counts_as_empty (s : Sample) :
  f_completion s = None
  \/ (exists c, f_completion s = Some (PStr c) /\ strip c = []) ->
  (forall st, exists st',
       first_pass_step st s = Ok st' /\ counted_as "empty" st s st')
  /\ (forall samples rest,
         Forall (fun x => well_formed x = true) samples ->
         of_task (get_task_id s) samples = s :: rest ->
         filter passes (of_task (get_task_id s) samples) = [] ->
         exists out,
           filtered_output samples = Ok out
           /\ of_task (get_task_id s) out = [s]).
Proof.
  intros H.
  assert (Ht : has_text s = true /\ trimmed s = []).
  { unfold has_text, trimmed, get_completion.
    destruct H as [->|(c & -> & Hc)]; auto. }
  destruct Ht as [Ht Hc]. split.
  - intros st. rewrite (first_pass_step_eq st s Ht). rewrite Hc. simpl.
    eexists. split; [reflexivity|]. apply reject_counted.
  - intros samples rest Hwf Hfirst Hnone.
    destruct (output_by_task Hwf) as (out & E & _ & _ & Htask & _).
    exists out. split; [exact E|]. rewrite Htask.
    unfold expected_for. now rewrite Hnone, Hfirst.
Qed.

Lemma missing_completion_counts_as_empty_witness :
  (exists st', first_pass_step initial no_completion = Ok st'
               /\ counted_as "empty" initial no_completion st')
  /\ (exists st', first_pass_step initial blank_completion = Ok st'
                  /\ counted_as "empty" initial blank_completion st')
  /\ (exists out,
         filtered_output [no_completion; sample "t1" "x"; sample "t0" "fn a() {}"]
         = Ok out
         /\ of_task (PStr (u "t1")) out = [no_completion]).
Proof.
  destruct (@missing_completion_counts_as_empty no_completion
              (or_introl eq_refl)) as [A B].
  split; [apply A|]. split.
  { apply (@missing_completion_counts_as_empty blank_completion).
    right. exists (u "   "). split; reflexivity. }
  apply (B [no_completion; sample "t1" "x"; sample "t0" "fn a() {}"]
           [sample "t1" "x"]).
  - repeat constructor.
  - reflexivity.
  - reflexivity.
Defined.

(** ** The sandbox resolver *)

Section ResolverProps.

Variable lower : str -> str.
Variable which : str -> option str.

(** C7. The resolver's policy.  A request of [auto], or none, resolves to
    [none] with a warning when Firejail is not on the host and to [firejail]
    with a message that is no warning when it is; a request of [firejail]
    resolves to [firejail] when it is on the host and fails (with a
    [RuntimeError]) when it is not; a request of [none] resolves to [none]
    and its one message is a warning, whatever the host. *)
Theorem resolver_policy (requested : option str) :
  (auto_or_unset lower requested -> firejail_found which = false ->
   Sandbox._resolve_sandbox_mode lower which requested
   = Ok (u "none", [Sandbox.auto_none_warning]))
  /\ (auto_or_unset lower requested -> firejail_found which = true ->
      Sandbox._resolve_sandbox_mode lower which requested
      = Ok (u "firejail", [Sandbox.auto_firejail_message]))
  /\ (asks_for lower requested "firejail" -> firejail_found which = true ->
      Sandbox._resolve_sandbox_mode lower which requested
      = Ok (u "firejail", [Sandbox.using_firejail_message]))
  /\ (asks_for lower requested "firejail" -> firejail_found which = false ->
      Sandbox._resolve_sandbox_mode lower which requested
      = Raise (RuntimeError Sandbox.firejail_missing_message))
  /\ (asks_for lower requested "none" ->
      Sandbox._resolve_sandbox_mode lower which requested
      = Ok (u "none", [Sandbox.unsandboxed_warning]))
  /\ is_warning Sandbox.auto_none_warning = true
  /\ is_warning Sandbox.unsandboxed_warning = true
  /\ is_warning Sandbox.auto_firejail_message = false
  /\ is_warning Sandbox.using_firejail_message = false.
Proof.
  unfold firejail_found, auto_or_unset, asks_for,
    Sandbox._resolve_sandbox_mode.
  repeat split; try (vm_compute; reflexivity).
  - intros [H|H] Hw; rewrite H; cbn in Hw |- *; rewrite Hw; reflexivity.
  - intros [H|H] Hw; rewrite H; cbn in Hw |- *; rewrite Hw; reflexivity.
  - intros H Hw; rewrite H; cbn in Hw |- *; rewrite Hw; reflexivity.
  - intros H Hw; rewrite H; cbn in Hw |- *; rewrite Hw; reflexivity.
  - intros H; rewrite H; reflexivity.
Qed.

End ResolverProps.

Lemma resolver_policy_witness :
  Sandbox._resolve_sandbox_mode Sandbox.lower_ascii Sandbox.host_without_firejail
    (Some (u "Auto"))
  = Ok (u "none", [Sandbox.auto_none_warning])
  /\ Sandbox._resolve_sandbox_mode Sandbox.lower_ascii Sandbox.host_with_firejail
       None
     = Ok (u "firejail", [Sandbox.auto_firejail_message])
  /\ Sandbox._resolve_sandbox_mode Sandbox.lower_ascii Sandbox.host_with_firejail
       (Some (u "FIREJAIL"))
     = Ok (u "firejail", [Sandbox.using_firejail_message])
  /\ Sandbox._resolve_sandbox_mode Sandbox.lower_ascii Sandbox.host_without_firejail
       (Some (u "firejail"))
     = Raise (RuntimeError Sandbox.firejail_missing_message)
  /\ Sandbox._resolve_sandbox_mode Sandbox.lower_ascii Sandbox.host_with_firejail
       (Some (u "none"))
     = Ok (u "none", [Sandbox.unsandboxed_warning]).
Proof.
  split; [|split; [|split; [|split]]].
  - apply (resolver_policy Sandbox.lower_ascii Sandbox.host_without_firejail
             (Some (u "Auto"))); [right|]; reflexivity.
  - apply (resolver_policy Sandbox.lower_ascii Sandbox.host_with_firejail None);
      [left|]; reflexivity.
  - apply (resolver_policy Sandbox.lower_ascii Sandbox.host_with_firejail
             (Some (u "FIREJAIL"))); reflexivity.
  - apply (resolver_policy Sandbox.lower_ascii Sandbox.host_without_firejail
             (Some (u "firejail"))); reflexivity.
  - apply (resolver_policy Sandbox.lower_ascii Sandbox.host_with_firejail
             (Some (u "none"))); reflexivity.
Defined.

(** ** Substrings *)

Lemma starts_with_app (n h : str) : starts_with n (n ++ h) = true.
Proof.
  induction n as [|x n IH]; simpl; [reflexivity|].
  now rewrite N.eqb_refl.
Qed.

Lemma contains_starts (n h : str) :
  starts_with n h = true -> contains n h = true.
Proof. intros H. destruct h; simpl; rewrite H; reflexivity. Qed.

Lemma contains_app_r (n a h : str) :
  contains n h = true -> contains n (a ++ h) = true.
Proof.
  intros H. induction a as [|x a IH]; simpl; [exact H|].
  rewrite IH. apply orb_true_r.
Qed.

Lemma contains_middle (s a b : str) : contains s (a ++ s ++ b) = true.
Proof. apply contains_app_r, contains_starts, starts_with_app. Qed.

(** ** The statements of [main] before the output directory *)

Lemma seed_and_k_values_quiet (Value : Type) (rt : Orchestrator.Runtime)
      (args : Orchestrator.Args) :
  fst (Orchestrator.seed_and_k_values Value rt args) = [].
Proof.
  unfold Orchestrator.seed_and_k_values, Orchestrator.set_seed,
    Orchestrator.when.
  destruct (Orchestrator.numpy_seed rt) as [f|];
    [destruct (f (Orchestrator.seed args)) as [[]|e]|];
    cbn; try reflexivity;
    (destruct (Orchestrator.manual_seed (Orchestrator.torch rt)
                                        (Orchestrator.seed args)) as [[]|e'];
     cbn; [|reflexivity];
     destruct (Orchestrator.cuda_is_available (Orchestrator.torch rt));
     cbn;
     [destruct (Orchestrator.cuda_manual_seed_all (Orchestrator.torch rt)
                                                  (Orchestrator.seed args))
        as [[]|e'']; cbn; [|reflexivity]|];
     destruct (Orchestrator.parse_k_values rt (Orchestrator.k_values args));
     reflexivity).
Qed.

(** ** An invalid sandbox mode *)

Section InvalidMode.

Variable Value : Type.
Variable lower : str -> str.
Variable which : str -> option str.
Variable generate : bool -> bool -> result (list Sample).
Variable engine : str -> bool -> list Sample -> result (Orchestrator.Metrics Value).
Variable rt : Orchestrator.Runtime.

(** C6. A requested mode whose normalized value [n] is none of [firejail],
    [none], [auto] (and is a value: the request is set) makes the resolver
    fail with a [ValueError] whose message holds the requested word as given
    and the three legal choices, each in quotes.  [main], from its parsed
    arguments on, then does not return and nothing is generated and nothing
    evaluated; when the seeding and the parsing of [--k-values] return, it
    leaves the output directory and the printed error behind and exits with
    status 1.  From the command line the word does not even reach the
    resolver: [argparse] ends the process with status 2 and no event at
    all. *)
Theorem invalid_mode_is_configuration_error (requested : option str) (n : str) :
  Sandbox.normalize lower requested = Some n ->
  legal_mode n = false ->
  Sandbox._resolve_sandbox_mode lower which requested
  = Raise (ValueError (Sandbox.invalid_mode_message requested))
  /\ (exists s, requested = Some s
                /\ contains s (Sandbox.invalid_mode_message requested) = true)
  /\ contains (u "'firejail'") (Sandbox.invalid_mode_message requested) = true
  /\ contains (u "'none'") (Sandbox.invalid_mode_message requested) = true
  /\ contains (u "'auto'") (Sandbox.invalid_mode_message requested) = true
  /\ (forall args,
         Orchestrator.sandbox_mode args = requested ->
         exists trace o,
           Orchestrator.main_body lower which generate engine rt args
           = (trace, o)
           /\ o <> Orchestrator.Return tt
           /\ existsb (@Orchestrator.is_work Value) trace = false
           /\ (forall k,
                  Orchestrator.seed_and_k_values Value rt args
                  = ([], Orchestrator.Return k) ->
                  o = Orchestrator.Exit 1
                  /\ trace = [Orchestrator.MadeDir None;
                              Orchestrator.Say
                                (u "Error resolving sandbox mode: "
                                   ++ Sandbox.invalid_mode_message
                                        requested)]))
  /\ (lower (u "firejail") = u "firejail" ->
      lower (u "none") = u "none" ->
      lower (u "auto") = u "auto" ->
      forall args,
        Orchestrator.main lower which generate engine rt requested args
        = ([], Orchestrator.Exit 2)).
Proof.
  intros Hn Hlegal.
  assert (Hres : Sandbox._resolve_sandbox_mode lower which requested
                 = Raise (ValueError (Sandbox.invalid_mode_message requested))).
  { unfold Sandbox._resolve_sandbox_mode. rewrite Hn.
    unfold legal_mode in Hlegal.
    apply orb_false_iff in Hlegal as [Hlegal Hauto].
    unfold Sandbox.opt_is. rewrite Hauto, Hlegal. reflexivity. }
  assert (Hs : exists s, requested = Some s /\ n = lower s
                         /\ Sandbox.truthy_str s = true).
  { unfold Sandbox.normalize in Hn. destruct requested as [s|]; [|discriminate].
    destruct (Sandbox.truthy_str s) eqn:E; [|discriminate].
    exists s. split; [reflexivity|]. split; [congruence|exact E]. }
  destruct Hs as (s & -> & -> & Hts).
  split; [exact Hres|]. split.
  { exists s. split; [reflexivity|].
    unfold Sandbox.invalid_mode_message, Sandbox.format_requested.
    apply contains_middle. }
  split; [|split; [|split; [|split]]].
  - unfold Sandbox.invalid_mode_message. now apply contains_app_r, contains_app_r.
  - unfold Sandbox.invalid_mode_message. now apply contains_app_r, contains_app_r.
  - unfold Sandbox.invalid_mode_message. now apply contains_app_r, contains_app_r.
  - intros args Hargs.
    pose proof (seed_and_k_values_quiet Value rt args) as Hq.
    unfold Orchestrator.main_body, Orchestrator.resolve_or_exit.
    rewrite Hargs, Hres.
    destruct (Orchestrator.seed_and_k_values Value rt args) as [t [k|st|e]];
      cbn in Hq; subst t; cbn.
    + eexists _, _. split; [reflexivity|]. split; [discriminate|].
      split; [reflexivity|]. intros _ _. now split.
    + eexists _, _. split; [reflexivity|]. split; [discriminate|].
      split; [reflexivity|]. intros k H. discriminate.
    + eexists _, _. split; [reflexivity|]. split; [discriminate|].
      split; [reflexivity|]. intros k H. discriminate.
  - intros Hf Hno Ha args. unfold Orchestrator.main, Orchestrator.parse_sandbox_mode.
    unfold legal_mode in Hlegal.
    assert (Hchoice : str_eqb s (u "firejail") || str_eqb s (u "none")
                      || str_eqb s (u "auto") = false).
    { destruct (str_eqb s (u "firejail")) eqn:E1.
      { apply str_eqb_eq in E1. subst s. rewrite Hf in Hlegal. discriminate. }
      destruct (str_eqb s (u "none")) eqn:E2.
      { apply str_eqb_eq in E2. subst s. rewrite Hno in Hlegal. discriminate. }
      destruct (str_eqb s (u "auto")) eqn:E3; [|reflexivity].
      apply str_eqb_eq in E3. subst s. rewrite Ha in Hlegal. discriminate. }
    rewrite Hchoice. reflexivity.
Qed.

End InvalidMode.

Lemma invalid_mode_is_configuration_error_witness :
  Sandbox._resolve_sandbox_mode Sandbox.lower_ascii Sandbox.host_with_firejail
    (Some (u "Docker"))
  = Raise (ValueError (u "Invalid sandbox mode 'Docker'. Choose 'firejail', 'none', or 'auto'.")).
Proof.
  apply (@invalid_mode_is_configuration_error unit Sandbox.lower_ascii
           Sandbox.host_with_firejail (fun _ _ => Ok [])
           (fun _ _ _ => Ok []) plain_runtime (Some (u "Docker"))
           (u "docker"));
    reflexivity.
Defined.

(** ** The orchestrator *)

Section OrchestratorProps.

Import Orchestrator.

Variable Value : Type.
Variable lower : str -> str.
Variable which : str -> option str.
Variable generate : bool -> bool -> result (list Sample).
Variable engine : str -> bool -> list Sample -> result (Metrics Value).
Variable rt : Runtime.

Lemma say_all_trace (evs : list (Event Value)) :
  say_all evs = (evs, Return tt).
Proof.
  induction evs as [|ev evs IH]; [reflexivity|].
  cbn [say_all]. unfold bindM, say. rewrite IH. reflexivity.
Qed.

(** [evaluate_samples] never reaches its third statement: whatever the
    samples, the sandbox mode, the policy flag and the engine, the call
    leaves no event and ends in the exception of the engine's import or,
    where the engine loads, in [UnboundLocalError], for the statement after
    the import reads the name [os] that the [import os] further down makes
    local. *)
Lemma evaluate_samples_raises (samples : list Sample) (mode : str) (p : bool) :
  evaluate_samples engine rt samples mode p
  = ([], Throw (evaluation_exception rt)).
Proof.
  unfold evaluate_samples, evaluation_exception.
  now destruct (import_engine rt) as [[]|e].
Qed.

(** C2, on the summary alone: with one slot of [all_results] holding [None]
    and the other the result of a phase, the summary is opened, and the
    unguarded [all_results[...]["base"]] subscripts [None]: a [TypeError]
    leaves the step.  With both slots [None] nothing is written and nothing
    raised; with both filled the step returns. *)
Theorem combined_summary_raises_on_absent_slot (r : ModeResult Value) :
  (exists t, write_combined_summary {| no_policy := None; policy := Some r |}
             = (t, Throw TypeError))
  /\ (exists t, write_combined_summary {| no_policy := Some r; policy := None |}
                = (t, Throw TypeError))
  /\ write_combined_summary (@mkAllResults Value None None)
     = ([], Return tt)
  /\ (forall r', exists t,
         write_combined_summary {| no_policy := Some r; policy := Some r' |}
         = (t, Return tt)).
Proof.
  assert (Hsec : forall (r0 : ModeResult Value) h, exists t,
             summary_section (Some r0) h = (t, Return tt)).
  { intros r0 h. unfold summary_section, subscript, write_metrics, when. simpl.
    destruct (truthy_metrics (base r0)), (truthy_metrics (finetuned r0));
      simpl; rewrite ?say_all_trace; simpl; rewrite ?say_all_trace;
      eexists; reflexivity. }
  split; [|split; [|split]].
  - eexists. reflexivity.
  - destruct (Hsec r NoPolicyHeading) as (t & Ht).
    unfold write_combined_summary. simpl. rewrite Ht. simpl.
    eexists. reflexivity.
  - reflexivity.
  - intros r'. destruct (Hsec r NoPolicyHeading) as (t & Ht).
    destruct (Hsec r' PolicyHeading) as (t' & Ht').
    unfold write_combined_summary. simpl. rewrite Ht. simpl. rewrite Ht'.
    simpl. eexists. reflexivity.
Qed.

(** What one phase leaves: events of its own policy mode, no line of the
    summary and no metadata, and no call of the engine. *)
Lemma run_evaluation_mode_events (mode : str) (p sb sf : bool) t o :
  run_evaluation_mode generate engine rt mode p sb sf = (t, o) ->
  existsb (of_phase (negb p)) t = false
  /\ existsb (@is_report Value) t = false
  /\ forall m q r, ~ In (EngineRan m q r) t.
Proof.
  unfold run_evaluation_mode, evaluate_model, evaluate_samples.
  destruct sb, sf; simpl;
    destruct (generate p false), (generate p true),
      (import_engine rt) as [[]|]; simpl;
    intros H; inversion H; subst; simpl;
    (split; [destruct p; reflexivity|]); (split; [reflexivity|]);
    intros m q r Hin; simpl in Hin;
    repeat (destruct Hin as [Hin|Hin]; [discriminate|]);
    try contradiction.
Qed.

Lemma run_evaluation_mode_phase (mode : str) (p sb sf : bool) t o :
  run_evaluation_mode generate engine rt mode p sb sf = (t, o) ->
  existsb (of_phase (negb p)) t = false.
Proof. intros H. now apply run_evaluation_mode_events in H. Qed.

(** A phase that is to evaluate a model does not return. *)
Lemma run_evaluation_mode_fails (mode : str) (p sb sf : bool) :
  sb = false \/ sf = false ->
  exists t e,
    run_evaluation_mode generate engine rt mode p sb sf = (t, Throw e).
Proof.
  unfold run_evaluation_mode, evaluate_model, evaluate_samples.
  intros [-> | ->]; [|destruct sb]; simpl;
    destruct (generate p false), (generate p true),
      (import_engine rt) as [[]|]; simpl;
    eexists _, _; reflexivity.
Qed.

Lemma existsb_says (p : bool) (msgs : list str) :
  existsb (@of_phase Value p) (map Say msgs) = false.
Proof. induction msgs; simpl; auto. Qed.

Lemma no_report_in_says (msgs : list str) :
  existsb (@is_report Value) (map Say msgs) = false.
Proof. induction msgs; simpl; auto. Qed.

Lemma main_body_resolved (args : Args) (mode : str) (msgs : list str)
      (k : list Z) :
  seed_and_k_values Value rt args = ([], Return k) ->
  Sandbox._resolve_sandbox_mode lower which (sandbox_mode args)
  = Ok (mode, msgs) ->
  negb (negb (policy_only args)) && negb (negb (no_policy_only args)) = false ->
  main_body lower which generate engine rt args
  = bindM (MadeDir None :: map Say msgs, Return tt)
          (fun _ =>
             bindM (run_phases generate engine rt args mode)
                   (fun all_results =>
                      bindM (write_combined_summary all_results)
                            (fun _ => write_eval_metadata all_results))).
Proof.
  intros Hk Hres Hrun. unfold main_body, resolve_or_exit.
  rewrite Hk, Hres, Hrun, say_all_trace. simpl.
  destruct (bindM (run_phases generate engine rt args mode) _) as [t o].
  now rewrite app_nil_r.
Qed.

(** C3, as the code has it.  Once the seeding and the parsing of
    [--k-values] have returned and the sandbox mode is resolved:
    when the no-policy phase is to run and ends in an exception, [main] ends
    in that exception, its trace ends with the trace of that phase, nothing
    of the policy phase is in it, and no line of the summary and no metadata;
    when the policy phase alone is to run and ends in an exception, [main]
    ends in that exception, with no summary and no metadata;
    a phase that is to evaluate a model does end in an exception, that of
    the generator or that of [evaluate_samples];
    and when the phases return, a slot of [all_results] is [None] exactly
    when its phase was skipped on the command line. *)
Theorem failed_phase_aborts_run (args : Args) (mode : str) (msgs : list str)
        (k : list Z) :
  seed_and_k_values Value rt args = ([], Return k) ->
  Sandbox._resolve_sandbox_mode lower which (sandbox_mode args)
  = Ok (mode, msgs) ->
  (forall t e,
      policy_only args = false ->
      run_evaluation_mode generate engine rt mode false
                          (skip_base args) (skip_finetuned args)
      = (t, Throw e) ->
      main_body lower which generate engine rt args
      = (MadeDir None :: map Say msgs ++ t, Throw e)
      /\ existsb (of_phase true) (MadeDir None :: map Say msgs ++ t) = false
      /\ existsb (@is_report Value) (MadeDir None :: map Say msgs ++ t)
         = false)
  /\ (forall t e,
         policy_only args = true ->
         no_policy_only args = false ->
         run_evaluation_mode generate engine rt mode true
                             (skip_base args) (skip_finetuned args)
         = (t, Throw e) ->
         main_body lower which generate engine rt args
         = (MadeDir None :: map Say msgs ++ t, Throw e)
         /\ existsb (@is_report Value) (MadeDir None :: map Say msgs ++ t)
            = false)
  /\ (forall p,
         skip_base args = false \/ skip_finetuned args = false ->
         exists t e,
           run_evaluation_mode generate engine rt mode p
                               (skip_base args) (skip_finetuned args)
           = (t, Throw e))
  /\ (forall t all_results,
         run_phases generate engine rt args mode = (t, Return all_results) ->
         (no_policy all_results = None <-> policy_only args = true)
         /\ (policy all_results = None <-> no_policy_only args = true)).
Proof.
  intros Hk Hres. split; [|split; [|split]].
  - intros t e Hp Hrun.
    assert (Hph : run_phases generate engine rt args mode = (t, Throw e)).
    { unfold run_phases. rewrite Hp. simpl negb. cbv iota.
      rewrite Hrun. reflexivity. }
    destruct (run_evaluation_mode_events _ _ _ _ Hrun) as (Hof & Hrep & _).
    split; [|split].
    + rewrite (main_body_resolved args Hk Hres) by now rewrite Hp.
      rewrite Hph. reflexivity.
    + simpl. rewrite existsb_app, existsb_says. exact Hof.
    + simpl. rewrite existsb_app, no_report_in_says. exact Hrep.
  - intros t e Hp Hnp Hrun.
    assert (Hph : run_phases generate engine rt args mode = (t, Throw e)).
    { unfold run_phases. rewrite Hp, Hnp. simpl negb. cbv iota.
      rewrite Hrun. reflexivity. }
    destruct (run_evaluation_mode_events _ _ _ _ Hrun) as (_ & Hrep & _).
    split.
    + rewrite (main_body_resolved args Hk Hres) by now rewrite Hp, Hnp.
      rewrite Hph. reflexivity.
    + simpl. rewrite existsb_app, no_report_in_says. exact Hrep.
  - intros p Hs. now apply run_evaluation_mode_fails.
  - intros t ar. unfold run_phases.
    destruct (policy_only args), (no_policy_only args); simpl;
      repeat match goal with
             | |- context [run_evaluation_mode ?g ?e ?r ?m ?p ?a ?b] =>
                 destruct (run_evaluation_mode g e r m p a b) as [? [?|?|?]];
                 simpl
             end;
      intros H; inversion H; subst; simpl;
      repeat split; intros; congruence.
Qed.

End OrchestratorProps.

Import Orchestrator.

Lemma failed_phase_aborts_run_witness :
  main_body Sandbox.lower_ascii Sandbox.host_with_firejail generate_pair
            zero_engine plain_runtime default_args
  = ([MadeDir None; Say Sandbox.auto_firejail_message;
      MadeDir (Some false); Generated false false],
     Throw UnboundLocalError)
  /\ existsb (of_phase true)
       [MadeDir None; Say Sandbox.auto_firejail_message;
        MadeDir (Some false); @Generated nat false false] = false
  /\ existsb (@is_report nat)
       [MadeDir None; Say Sandbox.auto_firejail_message;
        MadeDir (Some false); Generated false false] = false.
Proof.
  apply (@failed_phase_aborts_run nat Sandbox.lower_ascii
           Sandbox.host_with_firejail generate_pair zero_engine
           plain_runtime default_args (u "firejail")
           [Sandbox.auto_firejail_message] [1; 10; 100]%Z
           eq_refl eq_refl); reflexivity.
Defined.

(** C3, the case the claim gets wrong: a host on which the engine raises
    while [evaluate_samples] loads it, and the defaults of the command line.
    The evaluation of the no-policy phase ends in the engine's exception
    right after the base model's generation, and [main] ends in it: no event
    of the policy phase follows, no summary and no metadata are written, and
    no [None] is recorded for a slot.  On the same host with an engine that
    loads the run ends in another exception, at the same place. *)
Lemma engine_fault_aborts_run :
  evaluate_samples zero_engine broken_engine_runtime unsorted_pair
                   (u "firejail") false
  = ([], Throw engine_load_fault)
  /\ main_body Sandbox.lower_ascii Sandbox.host_with_firejail generate_pair
               zero_engine broken_engine_runtime default_args
     = ([MadeDir None; Say Sandbox.auto_firejail_message;
         MadeDir (Some false); Generated false false],
        Throw engine_load_fault)
  /\ main_body Sandbox.lower_ascii Sandbox.host_with_firejail generate_pair
               zero_engine plain_runtime default_args
     = ([MadeDir None; Say Sandbox.auto_firejail_message;
         MadeDir (Some false); Generated false false],
        Throw UnboundLocalError).
Proof. repeat split. Qed.

(** C2, on a run: [--policy-only] with both models skipped evaluates
    nothing, so the policy phase returns and its slot is filled while the
    no-policy slot stays [None]; the summary is opened, gets its header, and
    the run ends in the [TypeError] before any metadata is written. *)
Lemma policy_only_run_raises :
  run_phases generate_pair zero_engine plain_runtime policy_only_args
             (u "firejail")
  = ([MadeDir (Some true); MetricsJson true [] []],
     Return {| no_policy := None; policy := Some nothing_evaluated |})
  /\ write_combined_summary
       {| no_policy := None; policy := Some nothing_evaluated |}
     = ([SummaryOpened; SummaryWrote SummaryHeader], Throw TypeError)
  /\ main_body Sandbox.lower_ascii Sandbox.host_with_firejail generate_pair
               zero_engine plain_runtime policy_only_args
     = ([MadeDir None; Say Sandbox.auto_firejail_message;
         MadeDir (Some true); MetricsJson true [] [];
         SummaryOpened; SummaryWrote SummaryHeader],
        Throw TypeError).
Proof. repeat split. Qed.

(** ** The ecosystem validator *)

Section ValidatorProps.

Import Validator.

Variable int_of : str -> option Z.
Variable pkg_version : str -> str + str.
Variable import_module : str -> option str.

Lemma ints_raise (xs : list str) (e : exn) :
  ints int_of xs = Raise e -> exists msg, e = ValueError msg.
Proof.
  revert e. induction xs as [|x xs IH]; simpl; intros e; [discriminate|].
  unfold int. destruct (int_of x); simpl.
  - destruct (ints int_of xs) eqn:E; simpl; [discriminate|].
    intros H. injection H as <-. now apply IH.
  - intros H. injection H as <-. eexists. reflexivity.
Qed.

Lemma ints_non_numeric (xs : list str) (x : str) :
  In x xs -> int_of x = None -> exists msg, ints int_of xs = Raise (ValueError msg).
Proof.
  intros Hin Hx. induction xs as [|y xs IH]; [destruct Hin|].
  simpl. unfold int. destruct Hin as [->|Hin].
  - rewrite Hx. simpl. eexists. reflexivity.
  - destruct (int_of y); simpl; [|eexists; reflexivity].
    destruct (IH Hin) as (msg & ->). simpl. eexists. reflexivity.
Qed.

(** [check_version] returns a boolean, whatever the strings: the only
    exception of [parse_version] is the [ValueError] it catches. *)
Lemma check_version_returns (installed required : str) :
  exists b, check_version int_of installed required = Ok b.
Proof.
  unfold check_version, parse_version.
  generalize (firstn 3 (split dot installed)) (firstn 3 (split dot required)).
  intros xs ys.
  destruct (ints int_of xs) eqn:Ei; cbn [bind].
  - destruct (ints int_of ys) eqn:Er; cbn [bind].
    + eexists. reflexivity.
    + apply ints_raise in Er as (msg & ->). eexists. reflexivity.
  - apply ints_raise in Ei as (msg & ->). eexists. reflexivity.
Qed.

Lemma check_version_true_iff (installed required : str) :
  check_version int_of installed required = Ok true
  <-> exists i r,
        ints int_of (first_three installed) = Ok i
        /\ ints int_of (first_three required) = Ok r
        /\ tuple_ge i r = true.
Proof.
  unfold check_version, parse_version, first_three.
  generalize (firstn 3 (split dot installed)) (firstn 3 (split dot required)).
  intros xs ys.
  destruct (ints int_of xs) as [i|e] eqn:Ei; cbn [bind].
  - destruct (ints int_of ys) as [r|e] eqn:Er; cbn [bind].
    + split.
      * intros H. exists i, r. repeat split. congruence.
      * intros (i' & r' & Hi & Hr & Hge). congruence.
    + apply ints_raise in Er as (msg & ->). split; [discriminate|].
      intros (i' & r' & _ & Hr & _). discriminate.
  - apply ints_raise in Ei as (msg & ->). split; [discriminate|].
    intros (i' & r' & Hi & _). discriminate.
Qed.

Lemma print_loop_all_ok (results : list PackageResult) : forall b,
  snd (print_loop b results) = b && forallb status_ok results.
Proof.
  induction results as [|r rest IH]; intros b; simpl.
  - now rewrite andb_true_r.
  - specialize (IH (if status_ok r then b else false)).
    destruct (print_loop (if status_ok r then b else false) rest) as [l ok].
    simpl in *. rewrite IH. destruct (status_ok r), b; reflexivity.
Qed.

Lemma validate_package_status (req : str * str) :
  exists r,
    validate_package int_of pkg_version import_module (fst req) (snd req)
                     (module_name_of (fst req)) = Ok r
    /\ (status_ok r = true <-> validated int_of pkg_version import_module req).
Proof.
  unfold validate_package, validated, status_ok.
  destruct (pkg_version (fst req)) as [v|e] eqn:Ev.
  - destruct (check_version_returns v (snd req)) as (b & Hb). rewrite Hb. simpl.
    destruct (import_module (module_name_of (fst req))) eqn:Em;
      eexists; (split; [reflexivity|]); simpl.
    + rewrite andb_false_r. split; [discriminate|].
      intros (v' & _ & _ & H). discriminate.
    + rewrite andb_true_r. split.
      * intros ->. exists v. auto.
      * intros (v' & Hv & Hc & _). congruence.
  - eexists. split; [reflexivity|]. simpl. split; [discriminate|].
    intros (v' & Hv & _). discriminate.
Qed.

Lemma validate_each_status (reqs : list (str * str)) :
  exists rs,
    validate_each int_of pkg_version import_module reqs = Ok rs
    /\ (forallb status_ok rs = true
        <-> Forall (validated int_of pkg_version import_module) reqs).
Proof.
  induction reqs as [|[pkg min] reqs (rs & E & H)].
  - exists []. split; [reflexivity|]. simpl. split; auto.
  - destruct (validate_package_status (pkg, min)) as (r & Er & Hr).
    simpl in Er. exists (r :: rs). simpl. rewrite Er. simpl. rewrite E. simpl.
    split; [reflexivity|]. rewrite andb_true_iff, Hr, H. split.
    + intros [H1 H2]. now constructor.
    + intros H0. inversion H0; subst. auto.
Qed.

(** C10, as the code has it.  [main] returns, with status 0 or 1, and the
    status is 0 exactly when every required package is installed, meets its
    minimum version and imports.  A version meets the minimum when the first
    three dot-separated components of both strings are integers and the
    installed tuple is at least the required one.  A component among the
    first three that [int] refuses makes [check_version] return [False], so
    a package installed at such a version makes the status 1. *)
Theorem validator_exit_status :
  (exists lines status,
      main int_of pkg_version import_module = Ok (lines, status)
      /\ (status = 0%Z \/ status = 1%Z)
      /\ (status = 0%Z
          <-> Forall (validated int_of pkg_version import_module) REQUIREMENTS))
  /\ (forall installed required,
         check_version int_of installed required = Ok true
         <-> exists i r,
               ints int_of (first_three installed) = Ok i
               /\ ints int_of (first_three required) = Ok r
               /\ tuple_ge i r = true)
  /\ (forall installed required x,
         In x (first_three installed) -> int_of x = None ->
         check_version int_of installed required = Ok false)
  /\ (forall req v x,
         In req REQUIREMENTS -> pkg_version (fst req) = inl v ->
         In x (first_three v) -> int_of x = None ->
         exists lines, main int_of pkg_version import_module = Ok (lines, 1%Z)).
Proof.
  assert (Hnon : forall installed required x,
             In x (first_three installed) -> int_of x = None ->
             check_version int_of installed required = Ok false).
  { intros installed required x Hin Hx.
    unfold check_version, parse_version.
    destruct (@ints_non_numeric (first_three installed) x Hin Hx)
      as (msg & E).
    unfold first_three in E. rewrite E. reflexivity. }
  assert (Hmain : exists lines status,
             main int_of pkg_version import_module = Ok (lines, status)
             /\ (status = 0%Z \/ status = 1%Z)
             /\ (status = 0%Z
                 <-> Forall (validated int_of pkg_version import_module)
                            REQUIREMENTS)).
  { destruct (validate_each_status REQUIREMENTS) as (rs & E & H).
    unfold main, validate_all. rewrite E. simpl bind.
    unfold print_results.
    pose proof (print_loop_all_ok rs true) as Hok.
    destruct (print_loop true rs) as [lines ok]. simpl in Hok. subst ok.
    eexists. eexists. split; [reflexivity|].
    destruct (forallb status_ok rs).
    - split; [now left|]. split; [intros _; now apply H|reflexivity].
    - split; [now right|]. split; [discriminate|].
      intros HF. apply H in HF. discriminate. }
  split; [exact Hmain|]. split; [exact check_version_true_iff|].
  split; [exact Hnon|].
  intros req v x Hreq Hv Hin Hx.
  destruct Hmain as (lines & status & E & [->| ->] & Hiff).
  - exfalso. assert (HF : Forall (validated int_of pkg_version import_module)
                                 REQUIREMENTS) by now apply Hiff.
    rewrite Forall_forall in HF. destruct (HF req Hreq) as (v' & Hv' & Hc & _).
    rewrite Hv in Hv'. injection Hv' as <-.
    rewrite (Hnon v (snd req) x Hin Hx) in Hc. discriminate.
  - exists lines. exact E.
Qed.

End ValidatorProps.

Lemma validator_exit_status_witness :
  Validator.check_version Validator.int_decimal (u "2.1.0rc1") (u "2.1.0")
  = Ok false
  /\ exists lines,
       Validator.main Validator.int_decimal Validator.rc_build_host
                      Validator.all_import
       = Ok (lines, 1%Z).
Proof.
  destruct (@validator_exit_status Validator.int_decimal
              Validator.rc_build_host Validator.all_import)
    as (_ & _ & Hnon & Hmain).
  split.
  - apply (Hnon (u "2.1.0rc1") (u "2.1.0") (u "0rc1")).
    + right. right. left. reflexivity.
    + reflexivity.
  - apply (Hmain (u "human-eval-rust", u "2.1.0") (u "2.1.0rc1") (u "0rc1")).
    + left. reflexivity.
    + reflexivity.
    + right. right. left. reflexivity.
    + reflexivity.
Defined.

(** C10, the case the claim gets wrong: a development build of the minimum
    version has a component that is no number, [dev0], but it is the fourth;
    [check_version] returns [True], and with the package importing [main]
    returns 0. *)
Lemma dev_build_passes_validation :
  Validator.split Validator.dot (u "2.1.0.dev0")
  = [u "2"; u "1"; u "0"; u "dev0"]
  /\ Validator.int_decimal (u "dev0") = None
  /\ Validator.check_version Validator.int_decimal (u "2.1.0.dev0") (u "2.1.0")
     = Ok true
  /\ exists lines,
       Validator.main Validator.int_decimal Validator.dev_build_host
                      Validator.all_import
       = Ok (lines, 0%Z).
Proof.
  repeat split. eexists. vm_compute. reflexivity.
Qed.

(** ** Filtering twice *)

Lemma str_le_antisym (a b : str) :
  str_ltb b a = false -> str_ltb a b = false -> a = b.
Proof.
  revert b; induction a as [|x a IH]; intros [|y b]; simpl;
    try congruence.
  destruct (N.ltb_spec y x), (N.ltb_spec x y); try congruence; try lia.
  intros H1 H2. f_equal; [lia|now apply IH].
Qed.

Lemma task_le_antisym (a b : pyval) : task_le a b -> task_le b a -> a = b.
Proof.
  destruct a, b; simpl; try tauto.
  intros H1 H2. f_equal. now apply str_le_antisym.
Qed.

Lemma expected_for_stable (t : pyval) (samples : list Sample) :
  match filter passes (expected_for t samples) with
  | [] => firstn 1 (expected_for t samples)
  | k => k
  end = expected_for t samples.
Proof.
  unfold expected_for.
  destruct (filter passes (of_task t samples)) as [|s0 l] eqn:F.
  - destruct (of_task t samples) as [|r R]; [reflexivity|].
    simpl in F. destruct (passes r) eqn:Hr; [discriminate|].
    simpl. now rewrite Hr.
  - rewrite <- F. rewrite filter_all.
    + now rewrite F.
    + intros x Hx. now apply filter_In in Hx.
Qed.

Lemma sorted_same_tasks_eq (l1 : list Sample) : forall l2,
  StronglySorted task_le (task_ids l1) ->
  StronglySorted task_le (task_ids l2) ->
  (forall t, of_task t l1 = of_task t l2) ->
  l1 = l2.
Proof.
  assert (Hhead : forall x y l l',
             StronglySorted task_le (task_ids (x :: l)) ->
             (forall t, of_task t (x :: l) = of_task t (y :: l')) ->
             get_task_id x <> get_task_id y ->
             task_le (get_task_id x) (get_task_id y)).
  { intros x y l l' S H Hne.
    assert (Hin : In (get_task_id y) (task_ids (x :: l))).
    { apply in_task_ids_iff. rewrite H. unfold of_task. simpl.
      unfold same_task. now rewrite pyval_eqb_refl. }
    simpl in Hin. destruct Hin as [Hin|Hin]; [congruence|].
    simpl in S. inversion S as [|? ? _ Hall]; subst.
    rewrite Forall_forall in Hall. now apply Hall. }
  induction l1 as [|x l1 IH]; intros [|y l2] S1 S2 H.
  - reflexivity.
  - specialize (H (get_task_id y)). unfold of_task in H. simpl in H.
    unfold same_task in H. rewrite pyval_eqb_refl in H. discriminate.
  - specialize (H (get_task_id x)). unfold of_task in H. simpl in H.
    unfold same_task in H. rewrite pyval_eqb_refl in H. discriminate.
  - assert (Ht : get_task_id x = get_task_id y).
    { destruct (pyval_eqb (get_task_id x) (get_task_id y)) eqn:E;
        [now apply pyval_eqb_eq|].
      apply pyval_eqb_neq in E. apply task_le_antisym.
      - exact (Hhead x y l1 l2 S1 H E).
      - apply (Hhead y x l2 l1 S2); [intros t; symmetry; apply H|congruence]. }
    assert (Hxy : x = y).
    { specialize (H (get_task_id x)). unfold of_task in H. simpl in H.
      unfold same_task in H. rewrite <- Ht, pyval_eqb_refl in H. congruence. }
    subst y. f_equal. apply IH.
    + simpl in S1. now inversion S1.
    + simpl in S2. now inversion S2.
    + intros t. specialize (H t). unfold of_task in *. simpl in H.
      destruct (same_task t x); congruence.
Qed.

(** Idempotence in full: on records of the data model the call returns, and
    filtering its output again returns that output unchanged, fallback
    samples included. *)
Theorem filter_twice (samples : list Sample) :
  Forall (fun s => well_formed s = true) samples ->
  exists out,
    filtered_output samples = Ok out /\ filtered_output out = Ok out.
Proof.
  intros Hwf.
  destruct (output_by_task Hwf) as (out & E & Hall & Hsorted & Htask & _).
  exists out. split; [exact E|].
  assert (Hwf' : Forall (fun s => well_formed s = true) out).
  { rewrite Forall_forall in *. intros x Hx. apply Hwf.
    assert (Hx' : In x (of_task (get_task_id x) out)).
    { unfold of_task. apply filter_In. split; [assumption|].
      apply pyval_eqb_refl. }
    rewrite Htask in Hx'. now apply expected_for_in in Hx'. }
  destruct (output_by_task Hwf') as (out2 & E2 & Hall2 & Hsorted2 & Htask2 & _).
  rewrite E2. f_equal.
  destruct (forallb passes out) eqn:Hp2; [now apply Hall2|].
  destruct (forallb passes samples) eqn:Hp.
  - rewrite (Hall eq_refl) in Hp2. congruence.
  - apply sorted_same_tasks_eq; auto.
    intros t. rewrite Htask2. unfold expected_for at 1. rewrite Htask.
    apply expected_for_stable.
Qed.

Lemma filter_twice_witness :
  exists out,
    filtered_output scenario = Ok out /\ filtered_output out = Ok out.
Proof.
  apply (@filter_twice scenario). repeat constructor.
Defined.

(* ================================================================== *)
(** * Part III. More of the code                                        *)
(* ================================================================== *)

Import Diagnostics.

(** ** The filter: when the call returns *)

Lemma sorted_raises_type_error (l : list pyval) (e : exn) :
  sorted l = Raise e -> e = TypeError.
Proof.
  revert e. induction l as [|x l IH]; simpl; intros e; [discriminate|].
  destruct (sorted l) as [r|e'] eqn:E; simpl.
  - clear IH E. revert e. induction r as [|y r IHr]; simpl; intros e;
      [discriminate|].
    destruct y as [|sy], x as [|sx]; simpl; try congruence.
    destruct (str_ltb sy sx); [|discriminate].
    destruct (insort (PStr sx) r) eqn:Er; simpl; [discriminate|].
    intros H. injection H as <-. now apply IHr.
  - intros H. injection H as <-. now apply IH.
Qed.

Lemma insort_length (x : pyval) (l r : list pyval) :
  insort x l = Ok r -> List.length r = S (List.length l).
Proof.
  revert r. induction l as [|y l IH]; simpl; intros r.
  - intros H. injection H as <-. reflexivity.
  - destruct (py_lt y x) as [[|]|]; simpl; try discriminate.
    + destruct (insort x l) eqn:E; simpl; [|discriminate].
      intros H. injection H as <-. simpl. f_equal. now apply IH.
    + intros H. injection H as <-. reflexivity.
Qed.

Lemma insort_in (x : pyval) (l r : list pyval) (v : pyval) :
  insort x l = Ok r -> (In v r <-> v = x \/ In v l).
Proof.
  revert r. induction l as [|y l IH]; simpl; intros r.
  - intros H. injection H as <-. simpl. intuition.
  - destruct (py_lt y x) as [[|]|]; simpl; try discriminate.
    + destruct (insort x l) eqn:E; simpl; [|discriminate].
      intros H. injection H as <-. simpl. rewrite (IH _ eq_refl). intuition.
    + intros H. injection H as <-. simpl. intuition.
Qed.

Lemma sorted_length_in (l r : list pyval) :
  sorted l = Ok r ->
  List.length r = List.length l /\ (forall v, In v r <-> In v l).
Proof.
  revert r. induction l as [|x l IH]; simpl; intros r.
  - intros H. injection H as <-. split; [reflexivity|tauto].
  - destruct (sorted l) as [r'|] eqn:E; simpl; [|discriminate].
    intros H. destruct (IH r' eq_refl) as [Hlen Hin]. split.
    + rewrite (insort_length _ _ H). now f_equal.
    + intros v. rewrite (insort_in _ _ v H), Hin. intuition.
Qed.

(** [sorted] on two or more keys, one of them [None], is a [TypeError]. *)
Lemma sorted_none_raises (l : list pyval) :
  In PNone l -> 2 <= List.length l -> sorted l = Raise TypeError.
Proof.
  induction l as [|x l IH]; simpl; intros Hin Hlen; [lia|].
  destruct (sorted l) as [r|e] eqn:E; simpl.
  - destruct (sorted_length_in _ E) as [Hrlen Hrin].
    destruct r as [|y r]; [simpl in Hrlen; lia|].
    destruct x as [|sx]; [now destruct y|].
    destruct Hin as [Hx|Hin]; [discriminate|].
    destruct (le_lt_dec 2 (List.length l)) as [H2|H1].
    + discriminate (IH Hin H2).
    + simpl in Hrlen. destruct r; [|simpl in Hrlen; lia].
      assert (Hy : In y l) by (apply Hrin; now left).
      destruct l as [|z [|z' l]]; simpl in *; try lia.
      destruct Hin as [->|[]]. destruct Hy as [<-|[]]. reflexivity.
  - apply sorted_raises_type_error in E. now subst.
Qed.

Lemma sorted_short (l : list pyval) :
  List.length l <= 1 -> sorted l = Ok l.
Proof. destruct l as [|x [|y l]]; simpl; intros H; try reflexivity; lia. Qed.

Lemma first_pass_null (samples : list Sample) : forall st,
  existsb null_completion samples = true ->
  first_pass st samples = Raise AttributeError.
Proof.
  induction samples as [|s rest IH]; intros st H; [discriminate|].
  simpl in H. simpl first_pass. unfold null_completion in H at 1.
  destruct (has_text s) eqn:Ht; simpl in H.
  - destruct (first_pass_step_spec st s Ht) as (st1 & E1 & _).
    rewrite E1. simpl. now apply IH.
  - unfold has_text in Ht. unfold first_pass_step, get_completion.
    destruct (f_completion s) as [[|c]|]; try discriminate. reflexivity.
Qed.

Lemma forallb_has_text (samples : list Sample) :
  forallb has_text samples = true ->
  Forall (fun s => has_text s = true) samples.
Proof. intros H. rewrite Forall_forall. now apply forallb_forall. Qed.

(** X2. When [_filter_bad_samples] returns and when it raises.  A record
    whose [completion] is [null] makes the call end in [AttributeError].
    With every completion a string or absent: records without a [task_id]
    mixed with records that have one make it end in the [TypeError] of
    [sorted]; records that all have a [task_id], or that all lack one, make
    it return. *)
Theorem filter_returns_or_raises (samples : list Sample) :
  (existsb null_completion samples = true ->
   _filter_bad_samples samples = Raise AttributeError)
  /\ (forallb has_text samples = true ->
      existsb no_task_id samples = true ->
      existsb (fun s => negb (no_task_id s)) samples = true ->
      _filter_bad_samples samples = Raise TypeError)
  /\ (forallb has_text samples = true ->
      existsb no_task_id samples = false
      \/ existsb (fun s => negb (no_task_id s)) samples = false ->
      exists o, _filter_bad_samples samples = Ok o).
Proof.
  split; [|split].
  - intros H. unfold _filter_bad_samples.
    now rewrite (first_pass_null samples initial H).
  - intros Ht Hnone Hsome.
    destruct (first_pass_spec initial (forallb_has_text _ Ht))
      as (st & E & _ & _ & _ & _ & I & N).
    unfold _filter_bad_samples. rewrite E. simpl bind.
    rewrite sorted_none_raises; [reflexivity| |].
    + apply I. left. apply existsb_exists in Hnone as (s & Hs & Hn).
      unfold task_ids. apply in_map_iff. exists s. split; [|assumption].
      unfold no_task_id in Hn. now destruct (get_task_id s).
    + apply existsb_exists in Hnone as (s & Hs & Hn).
      apply existsb_exists in Hsome as (s' & Hs' & Hn').
      assert (H1 : In (get_task_id s) (keys (problem_samples st))).
      { apply I. left. now apply in_map. }
      assert (H2 : In (get_task_id s') (keys (problem_samples st))).
      { apply I. left. now apply in_map. }
      assert (Hne : get_task_id s <> get_task_id s').
      { revert Hn Hn'. unfold no_task_id.
        destruct (get_task_id s), (get_task_id s'); simpl; congruence. }
      specialize (N (NoDup_nil _)).
      destruct (keys (problem_samples st)) as [|a [|b l]]; simpl in *;
        [tauto| |lia].
      destruct H1 as [H1|[]], H2 as [H2|[]]. congruence.
  - intros Ht Hcase.
    destruct (first_pass_spec initial (forallb_has_text _ Ht))
      as (st & E & _ & _ & _ & _ & I & N).
    assert (Hs : exists order, sorted (keys (problem_samples st)) = Ok order).
    { destruct Hcase as [Hall|Hnone].
      - destruct (@sorted_strings (keys (problem_samples st)))
          as (order & Eo & _); [|now exists order].
        rewrite Forall_forall. intros k Hk.
        apply I in Hk as [Hk|[]]. unfold task_ids in Hk.
        apply in_map_iff in Hk as (s & <- & Hs).
        destruct (no_task_id s) eqn:En.
        + assert (existsb no_task_id samples = true); [|congruence].
          apply existsb_exists. now exists s.
        + unfold no_task_id in En. now destruct (get_task_id s).
      - exists (keys (problem_samples st)). apply sorted_short.
        specialize (N (NoDup_nil _)).
        assert (Hk : forall k, In k (keys (problem_samples st)) -> k = PNone).
        { intros k Hk. apply I in Hk as [Hk|[]]. unfold task_ids in Hk.
          apply in_map_iff in Hk as (s & <- & Hs).
          destruct (no_task_id s) eqn:En.
          - unfold no_task_id in En. now destruct (get_task_id s).
          - assert (existsb (fun s => negb (no_task_id s)) samples = true);
              [|congruence].
            apply existsb_exists. exists s. now rewrite En. }
        destruct (keys (problem_samples st)) as [|a [|b l]]; simpl; try lia.
        inversion N as [|? ? Hnot _]; subst. exfalso. apply Hnot.
        rewrite (Hk a) by now left. rewrite (Hk b) by (right; now left).
        now left. }
    destruct Hs as (order & Eo).
    unfold _filter_bad_samples. rewrite E. simpl bind. rewrite Eo. simpl bind.
    destruct (second_pass (problem_samples st) order). eexists. reflexivity.
Qed.

Lemma filter_returns_or_raises_witness :
  _filter_bad_samples
    [sample "t1" "fn main() { }";
     {| f_task_id := Some (PStr (u "t2")); f_completion := Some PNone |}]
  = Raise AttributeError
  /\ _filter_bad_samples
       [sample "t1" "fn main() { }";
        {| f_task_id := None; f_completion := Some (PStr (u "x")) |}]
     = Raise TypeError
  /\ exists o,
       _filter_bad_samples
         [{| f_task_id := None; f_completion := Some (PStr (u "x")) |};
          {| f_task_id := Some PNone; f_completion := None |}]
       = Ok o.
Proof.
  split; [|split].
  - now apply (@filter_returns_or_raises
                 [sample "t1" "fn main() { }";
                  {| f_task_id := Some (PStr (u "t2"));
                     f_completion := Some PNone |}]).
  - now apply (@filter_returns_or_raises
                 [sample "t1" "fn main() { }";
                  {| f_task_id := None;
                     f_completion := Some (PStr (u "x")) |}]).
  - apply (@filter_returns_or_raises
             [{| f_task_id := None; f_completion := Some (PStr (u "x")) |};
              {| f_task_id := Some PNone; f_completion := None |}]);
      [reflexivity|now right].
Defined.

(** ** The filter: what is written and what is printed *)

Lemma second_pass_printed (d : Dict) (order : list pyval) :
  snd (second_pass d order) = flat_map (warned d) order.
Proof.
  induction order as [|t order IH]; simpl; [reflexivity|].
  rewrite <- IH. unfold warned.
  destruct (second_pass_step d t), (second_pass d order). reflexivity.
Qed.

(** The call on records of the data model, with its locals in view. *)
Lemma filter_call (samples : list Sample) :
  Forall (fun s => well_formed s = true) samples ->
  exists st order,
    first_pass initial samples = Ok st
    /\ Permutation (keys (problem_samples st)) order
    /\ Sorted task_le order
    /\ NoDup order
    /\ (forall t, In t order <-> In t (task_ids samples))
    /\ (forall t, all (lookup t (problem_samples st)) = of_task t samples)
    /\ (forall t, kept (lookup t (problem_samples st))
                  = filter passes (of_task t samples))
    /\ filtered_count st = List.length (rejected samples)
    /\ total_count st = List.length samples
    /\ _filter_bad_samples samples
       = Ok {| written :=
                 flat_map (fun t => emitted (lookup t (problem_samples st)))
                          order;
               printed :=
                 flat_map (warned (problem_samples st)) order
                 ++ (if (0 <? filtered_count st)%nat
                     then [FilteredOutLine (filtered_count st) (total_count st);
                           EvaluatingLine (final_count (problem_samples st))]
                     else []);
               returned :=
                 if (0 <? filtered_count st)%nat
                 then FilteredFile else SampleFile |}.
Proof.
  intros Hwf.
  assert (Htext : Forall (fun s => has_text s = true) samples).
  { eapply Forall_impl; [|exact Hwf]. apply well_formed_has_text. }
  destruct (first_pass_spec initial Htext)
    as (st & E & A & K & F & T & I & N).
  simpl in I, N.
  assert (Hkeys : Forall is_str (keys (problem_samples st))).
  { rewrite Forall_forall. intros k Hk. apply I in Hk as [Hk|[]].
    unfold task_ids in Hk. apply in_map_iff in Hk as (s & <- & Hs).
    apply well_formed_is_str. rewrite Forall_forall in Hwf. now apply Hwf. }
  destruct (sorted_strings Hkeys) as (order & Eo & Hp & Hs).
  exists st, order. split; [exact E|]. split; [exact Hp|].
  split; [exact Hs|]. split.
  { eapply Permutation_NoDup; [exact Hp|]. apply N. constructor. }
  split.
  { intros t. split; intros Ht.
    - apply (Permutation_in _ (Permutation_sym Hp)) in Ht.
      apply I in Ht. tauto.
    - apply (Permutation_in _ Hp). apply I. now left. }
  split; [exact A|]. split; [exact K|]. split; [exact F|]. split; [exact T|].
  unfold _filter_bad_samples. rewrite E. simpl bind. rewrite Eo. simpl bind.
  pose proof (second_pass_written (problem_samples st) order) as Hw.
  pose proof (second_pass_printed (problem_samples st) order) as Hq.
  destruct (second_pass (problem_samples st) order) as [w p].
  simpl in Hw, Hq. now rewrite Hw, Hq.
Qed.

Lemma filter_partition_length {A} (f : A -> bool) (l : list A) :
  List.length (filter f l) + List.length (filter (fun x => negb (f x)) l)
  = List.length l.
Proof.
  induction l as [|a l IH]; simpl; [reflexivity|].
  destruct (f a); simpl; lia.
Qed.

Lemma flat_map_agree {A B} (f g : A -> list B) (l : list A) :
  (forall x, In x l -> f x = g x) -> flat_map f l = flat_map g l.
Proof.
  induction l as [|a l IH]; simpl; intros H; [reflexivity|].
  rewrite (H a) by now left. f_equal. apply IH. intros x Hx. apply H. now right.
Qed.

Lemma of_task_without (a t : pyval) (l : list Sample) :
  t <> a ->
  of_task t (filter (fun x => negb (same_task a x)) l) = of_task t l.
Proof.
  intros Hne. unfold of_task. induction l as [|x l IH]; simpl; [reflexivity|].
  destruct (same_task a x) eqn:Ea; simpl.
  - apply same_task_eq in Ea.
    destruct (same_task t x) eqn:Et; [|exact IH].
    apply same_task_eq in Et. congruence.
  - destruct (same_task t x); [f_equal|]; exact IH.
Qed.

(** The tasks of [order] split a list of records whose task ids are all in
    [order]. *)
Lemma tasks_partition_length (order : list pyval) : forall l,
  NoDup order ->
  (forall s, In s l -> In (get_task_id s) order) ->
  List.length (flat_map (fun t => of_task t l) order) = List.length l.
Proof.
  induction order as [|a order IH]; intros l Hnd Hin; simpl.
  - destruct l as [|s l]; [reflexivity|]. destruct (Hin s). now left.
  - inversion Hnd as [|? ? Ha Hnd']; subst.
    rewrite length_app.
    rewrite <- (filter_partition_length (same_task a) l).
    f_equal. rewrite <- (IH (filter (fun x => negb (same_task a x)) l) Hnd').
    + f_equal. apply flat_map_agree. intros t Ht.
      symmetry. apply of_task_without. intros Heq. now subst.
    + intros s Hs. apply filter_In in Hs as [Hs Hne].
      destruct (Hin s Hs) as [Heq|Hr]; [|assumption].
      unfold same_task in Hne. rewrite <- Heq, pyval_eqb_refl in Hne.
      discriminate.
Qed.

Lemma first_pass_step_reasons (st st' : State) (s : Sample) :
  has_text s = true ->
  first_pass_step st s = Ok st' ->
  forall x k,
    reasons_get k (filtered_reasons (lookup x (problem_samples st')))
    = reasons_get k (filtered_reasons (lookup x (problem_samples st)))
      + (if same_task x s && rejected_for k s then 1 else 0).
Proof.
  intros Ht E x k. rewrite (first_pass_step_eq st s Ht) in E.
  injection E as <-. unfold rejected_for, reason_of, same_task. cbv zeta.
  destruct (is_empty (trimmed s));
    [|destruct (too_short (trimmed s));
      [|destruct (brace_imbalance (trimmed s))]];
    cbn -[String.eqb]; rewrite !lookup_upd;
    destruct (pyval_eqb (get_task_id s) x); cbn -[String.eqb];
    rewrite ?reasons_get_set; try lia;
    match goal with
    | |- context [String.eqb ?a k] =>
        destruct (String.eqb_spec a k); [subst k|]; lia
    end.
Qed.

Lemma first_pass_reasons (samples : list Sample) : forall st st',
  Forall (fun s => has_text s = true) samples ->
  first_pass st samples = Ok st' ->
  forall x k,
    reasons_get k (filtered_reasons (lookup x (problem_samples st')))
    = reasons_get k (filtered_reasons (lookup x (problem_samples st)))
      + List.length (rejected_of k x samples).
Proof.
  induction samples as [|s rest IH]; intros st st' Hall E x k.
  - simpl in E. injection E as <-. simpl. lia.
  - inversion Hall as [|? ? Hs Hrest]; subst.
    simpl in E. destruct (first_pass_step st s) as [st1|] eqn:E1;
      [|discriminate].
    simpl in E. rewrite (IH st1 st' Hrest E x k).
    rewrite (first_pass_step_reasons st s Hs E1 x k).
    unfold rejected_of. simpl.
    destruct (same_task x s && rejected_for k s); simpl; lia.
Qed.

Lemma reason_cases (s : Sample) :
  (if negb (passes s) then 1 else 0)
  = (if rejected_for "empty" s then 1 else 0)
    + (if rejected_for "short" s then 1 else 0)
    + (if rejected_for "braces" s then 1 else 0).
Proof.
  unfold passes, rejected_for, reason_of.
  destruct (is_empty (trimmed s));
    [|destruct (too_short (trimmed s));
      [|destruct (brace_imbalance (trimmed s))]];
    reflexivity.
Qed.

(** A rejected record is counted for one of the three reasons. *)
Lemma rejected_by_reason (t : pyval) (samples : list Sample) :
  List.length (rejected (of_task t samples))
  = List.length (rejected_of "empty" t samples)
    + List.length (rejected_of "short" t samples)
    + List.length (rejected_of "braces" t samples).
Proof.
  unfold rejected, rejected_of, of_task.
  induction samples as [|s rest IH]; simpl; [reflexivity|].
  destruct (same_task t s); simpl; [|exact IH].
  pose proof (reason_cases s) as Hc.
  destruct (negb (passes s)), (rejected_for "empty" s),
    (rejected_for "short" s), (rejected_for "braces" s);
    simpl in *; lia.
Qed.

Lemma emitted_expected (samples : list Sample) (d : Dict) (t : pyval) :
  all (lookup t d) = of_task t samples ->
  kept (lookup t d) = filter passes (of_task t samples) ->
  emitted (lookup t d) = expected_for t samples.
Proof. intros A K. unfold emitted, expected_for. now rewrite K, A. Qed.

Lemma expected_for_length (t : pyval) (samples : list Sample) :
  List.length (expected_for t samples) <= List.length (of_task t samples).
Proof.
  unfold expected_for.
  destruct (filter passes (of_task t samples)) eqn:E.
  - destruct (of_task t samples); simpl; lia.
  - rewrite <- E. clear E. induction (of_task t samples) as [|x r IH];
      simpl; [lia|]. destruct (passes x); simpl; lia.
Qed.

Lemma flat_map_length_le {A B} (f g : A -> list B) (l : list A) :
  (forall x, List.length (f x) <= List.length (g x)) ->
  List.length (flat_map f l) <= List.length (flat_map g l).
Proof.
  intros H. induction l as [|a l IH]; simpl; [lia|].
  rewrite !length_app. specialize (H a). lia.
Qed.

Lemma filter_passes_expected (t : pyval) (samples : list Sample) :
  filter passes (expected_for t samples) = filter passes (of_task t samples).
Proof.
  unfold expected_for.
  destruct (filter passes (of_task t samples)) as [|s0 l] eqn:E.
  - destruct (of_task t samples) as [|r R]; [reflexivity|].
    simpl in *. destruct (passes r); [discriminate|reflexivity].
  - rewrite <- E. apply filter_all. intros x Hx. now apply filter_In in Hx.
Qed.

Lemma written_in_order (samples : list Sample) (st : State)
      (order : list pyval) :
  (forall t, all (lookup t (problem_samples st)) = of_task t samples) ->
  (forall t, kept (lookup t (problem_samples st))
             = filter passes (of_task t samples)) ->
  flat_map (fun t => emitted (lookup t (problem_samples st))) order
  = flat_map (fun t => expected_for t samples) order.
Proof.
  intros A K. apply flat_map_agree. intros t _. now apply emitted_expected.
Qed.

Lemma returned_path (samples : list Sample) :
  (if (0 <? List.length (rejected samples))%nat
   then FilteredFile else SampleFile)
  = (if forallb passes samples then SampleFile else FilteredFile).
Proof. rewrite rejected_nil_iff. now destruct (forallb passes samples). Qed.

(** X3. The filter never drops a sample that passes and never invents one:
    on records of the data model the call returns; for every task the
    passing samples of the output are the passing samples of the input, in
    the same order; every record of the output is a record of the input; and
    the output is no longer than the input. *)
Theorem passing_samples_survive (samples : list Sample) :
  Forall (fun s => well_formed s = true) samples ->
  exists out,
    filtered_output samples = Ok out
    /\ (forall t, filter passes (of_task t out)
                  = filter passes (of_task t samples))
    /\ (forall x, In x out -> In x samples)
    /\ List.length out <= List.length samples.
Proof.
  intros Hwf.
  destruct (filter_call Hwf)
    as (st & order & _ & _ & _ & Hnd & Hin & A & K & F & _ & E).
  unfold filtered_output, records_at. rewrite E. simpl.
  rewrite F, returned_path.
  destruct (forallb passes samples) eqn:Hp.
  - exists samples. repeat split; auto.
  - rewrite (written_in_order samples st order A K).
    eexists. split; [reflexivity|]. split; [|split].
    + intros t. rewrite (of_task_flat_map t samples Hnd).
      destruct (existsb (pyval_eqb t) order) eqn:Ex.
      * apply filter_passes_expected.
      * destruct (of_task t samples) as [|s l] eqn:Et; [reflexivity|].
        assert (Hmem : In t order).
        { apply Hin. apply in_task_ids_iff. congruence. }
        assert (existsb (pyval_eqb t) order = true); [|congruence].
        apply existsb_exists. exists t. split; [assumption|].
        apply pyval_eqb_refl.
    + intros x Hx. apply in_flat_map in Hx as (t & _ & Hx).
      now apply expected_for_in in Hx.
    + rewrite <- (@tasks_partition_length order samples Hnd).
      * apply flat_map_length_le. intros t. apply expected_for_length.
      * intros s Hs. apply Hin. unfold task_ids. now apply in_map.
Qed.

Lemma passing_samples_survive_witness :
  exists out,
    filtered_output scenario = Ok out
    /\ (forall t, filter passes (of_task t out)
                  = filter passes (of_task t scenario))
    /\ (forall x, In x out -> In x scenario)
    /\ List.length out <= List.length scenario.
Proof.
  apply (@passing_samples_survive scenario). repeat constructor.
Defined.

Lemma emitted_length (d : Dict) (t : pyval) :
  List.length (emitted (lookup t d))
  = List.length (kept (lookup t d)) + List.length (warned d t).
Proof.
  unfold emitted, warned, second_pass_step.
  destruct (kept (lookup t d)); simpl; [|lia].
  destruct (all (lookup t d)); reflexivity.
Qed.

Lemma final_count_length (d : Dict) :
  final_count d
  = List.length (flat_map (fun t => emitted (lookup t d)) (keys d)).
Proof.
  unfold final_count. induction (keys d) as [|t l IH]; [reflexivity|].
  cbn [fold_right flat_map]. rewrite length_app, IH. f_equal. unfold emitted.
  destruct (kept (lookup t d)); simpl; [|reflexivity].
  destruct (all (lookup t d)); reflexivity.
Qed.

Lemma of_task_passing (t : pyval) (samples : list Sample) :
  filter passes (of_task t samples) = of_task t (filter passes samples).
Proof.
  unfold of_task. induction samples as [|s l IH]; simpl; [reflexivity|].
  destruct (same_task t s) eqn:Et, (passes s) eqn:Ep; simpl;
    rewrite ?Et, ?Ep; congruence.
Qed.

Lemma written_length (samples : list Sample) (st : State)
      (order : list pyval) :
  NoDup order ->
  (forall t, In t order <-> In t (task_ids samples)) ->
  (forall t, kept (lookup t (problem_samples st))
             = filter passes (of_task t samples)) ->
  List.length (flat_map (fun t => emitted (lookup t (problem_samples st)))
                        order)
  = List.length (filter passes samples)
    + List.length (flat_map (warned (problem_samples st)) order).
Proof.
  intros Hnd Hin K.
  rewrite <- (@tasks_partition_length order (filter passes samples) Hnd).
  - clear Hnd Hin. induction order as [|t order IH]; simpl; [reflexivity|].
    rewrite !length_app, IH, emitted_length, K, of_task_passing. lia.
  - intros s Hs. apply filter_In in Hs as [Hs _]. apply Hin.
    unfold task_ids. now apply in_map.
Qed.

(** X4. The numbers the filter prints are the numbers of its run.  On
    records of the data model the call returns; what it prints is its
    warnings and, when some sample is rejected, the line with the number of
    rejected samples and the number of input samples, then the line with the
    number of samples to evaluate, which is the number of records it wrote;
    that number is the number of passing samples plus one for every warning.
    When every sample passes it prints nothing and returns the input path;
    otherwise it returns the path of the filtered file. *)
Theorem filter_counts (samples : list Sample) :
  Forall (fun s => well_formed s = true) samples ->
  exists o warnings,
    _filter_bad_samples samples = Ok o
    /\ printed o
       = warnings
         ++ (if forallb passes samples then []
             else [FilteredOutLine (List.length (rejected samples))
                                   (List.length samples);
                   EvaluatingLine (List.length (written o))])
    /\ List.length (written o)
       = List.length (filter passes samples) + List.length warnings
    /\ List.length (written o) <= List.length samples
    /\ (forallb passes samples = true ->
        warnings = [] /\ returned o = SampleFile)
    /\ (forallb passes samples = false -> returned o = FilteredFile).
Proof.
  intros Hwf.
  destruct (filter_call Hwf)
    as (st & order & _ & Hperm & _ & Hnd & Hin & A & K & F & T & E).
  pose proof (written_length samples st Hnd Hin K) as Hlen.
  assert (Hle : List.length
                  (flat_map (fun t => emitted (lookup t (problem_samples st)))
                            order)
                <= List.length samples).
  { rewrite (written_in_order samples st order A K).
    rewrite <- (@tasks_partition_length order samples Hnd).
    - apply flat_map_length_le. intros t. apply expected_for_length.
    - intros s Hs. apply Hin. unfold task_ids. now apply in_map. }
  eexists. exists (flat_map (warned (problem_samples st)) order).
  split; [exact E|]. simpl. rewrite F, T, rejected_nil_iff.
  split; [|split; [exact Hlen|split; [exact Hle|split]]].
  - destruct (forallb passes samples); simpl; [reflexivity|].
    rewrite final_count_length.
    now rewrite (Permutation_length (Permutation_flat_map _ Hperm)).
  - intros Hp. rewrite Hp. split; [|reflexivity].
    assert (Hall : List.length (filter passes samples) = List.length samples).
    { rewrite filter_all; [reflexivity|]. now apply forallb_forall. }
    destruct (flat_map (warned (problem_samples st)) order);
      [reflexivity|simpl in *; lia].
  - intros Hp. now rewrite Hp.
Qed.

Lemma filter_counts_witness :
  exists o warnings,
    _filter_bad_samples scenario = Ok o
    /\ printed o
       = warnings
         ++ (if forallb passes scenario then []
             else [FilteredOutLine (List.length (rejected scenario))
                                   (List.length scenario);
                   EvaluatingLine (List.length (written o))])
    /\ List.length (written o)
       = List.length (filter passes scenario) + List.length warnings
    /\ List.length (written o) <= List.length scenario
    /\ (forallb passes scenario = true ->
        warnings = [] /\ returned o = SampleFile)
    /\ (forallb passes scenario = false -> returned o = FilteredFile).
Proof.
  apply (@filter_counts scenario). repeat constructor.
Defined.

Lemma warned_in (d : Dict) (t t' : pyval) (r : list (string * nat)) :
  In (AllFilteredWarning t r) (warned d t') ->
  t' = t /\ kept (lookup t d) = [] /\ all (lookup t d) <> []
  /\ r = filtered_reasons (lookup t d).
Proof.
  unfold warned, second_pass_step.
  destruct (kept (lookup t' d)) eqn:Ek; simpl; [|intros []].
  destruct (all (lookup t' d)) eqn:Ea; simpl; [intros []|].
  intros [H|[]]. injection H as -> <-. rewrite Ek, Ea. repeat split.
  discriminate.
Qed.

(** X5. The warnings name the tasks that were backfilled, and their counts
    are right.  On records of the data model the call returns, and it prints
    the warning for a task exactly when the task has samples and none of
    them passes; the warning's count for each reason is the number of the
    task's samples rejected for that reason, and the counts for [empty],
    [short] and [braces] add up to the number of the task's samples. *)
Theorem warnings_report_backfilled_tasks (samples : list Sample) :
  Forall (fun s => well_formed s = true) samples ->
  exists o,
    _filter_bad_samples samples = Ok o
    /\ (forall t r,
          In (AllFilteredWarning t r) (printed o) ->
          In t (task_ids samples)
          /\ filter passes (of_task t samples) = []
          /\ (forall k, reasons_get k r
                        = List.length (rejected_of k t samples))
          /\ reasons_get "empty" r + reasons_get "short" r
             + reasons_get "braces" r
             = List.length (of_task t samples))
    /\ (forall t,
          In t (task_ids samples) ->
          filter passes (of_task t samples) = [] ->
          exists r, In (AllFilteredWarning t r) (printed o)).
Proof.
  intros Hwf.
  assert (Htext : Forall (fun s => has_text s = true) samples).
  { eapply Forall_impl; [|exact Hwf]. apply well_formed_has_text. }
  destruct (filter_call Hwf)
    as (st & order & Efp & _ & _ & _ & Hin & A & K & _ & _ & E).
  eexists. split; [exact E|]. simpl. split.
  - intros t r Hw. apply in_app_or in Hw as [Hw|Hw].
    2:{ destruct (0 <? filtered_count st)%nat; simpl in Hw;
        intuition discriminate. }
    apply in_flat_map in Hw as (t' & Ht' & Hw).
    apply warned_in in Hw as (-> & Hk & Ha & ->).
    assert (Hr : forall k,
               reasons_get k (filtered_reasons (lookup t (problem_samples st)))
               = List.length (rejected_of k t samples)).
    { intros k. now rewrite (first_pass_reasons initial Htext Efp t k). }
    split; [now apply Hin|]. split; [now rewrite <- K|]. split; [exact Hr|].
    rewrite !Hr, <- rejected_by_reason.
    rewrite <- (filter_partition_length passes (of_task t samples)).
    rewrite <- K, Hk. reflexivity.
  - intros t Ht Hnone. exists (filtered_reasons (lookup t (problem_samples st))).
    apply in_or_app. left. apply in_flat_map. exists t.
    split; [now apply Hin|].
    unfold warned, second_pass_step. rewrite K, Hnone, A.
    apply in_task_ids_iff in Ht.
    destruct (of_task t samples); [congruence|]. now left.
Qed.

Lemma warnings_report_backfilled_tasks_witness :
  exists o,
    _filter_bad_samples scenario = Ok o
    /\ (forall t r,
          In (AllFilteredWarning t r) (printed o) ->
          In t (task_ids scenario)
          /\ filter passes (of_task t scenario) = []
          /\ (forall k, reasons_get k r
                        = List.length (rejected_of k t scenario))
          /\ reasons_get "empty" r + reasons_get "short" r
             + reasons_get "braces" r
             = List.length (of_task t scenario))
    /\ (forall t,
          In t (task_ids scenario) ->
          filter passes (of_task t scenario) = [] ->
          exists r, In (AllFilteredWarning t r) (printed o)).
Proof.
  apply (@warnings_report_backfilled_tasks scenario). repeat constructor.
Defined.

(** ** The filter: the thresholds *)

Lemma passes_thresholds (s : Sample) :
  passes s = true
  <-> 10 <= len (trimmed s) /\ (brace_delta (trimmed s) <= 3)%Z.
Proof.
  unfold passes, is_empty, too_short, brace_imbalance.
  rewrite Z.gtb_ltb.
  destruct (Nat.eqb_spec (len (trimmed s)) 0),
    (Nat.ltb_spec (len (trimmed s)) 10),
    (Z.ltb_spec 3 (brace_delta (trimmed s)));
    simpl; split; intros Hgoal; try discriminate; try lia; reflexivity.
Qed.

Lemma rejected_thresholds (s : Sample) :
  negb (passes s)
  = (len (trimmed s) <? 10) || (4 <=? brace_delta (trimmed s))%Z.
Proof.
  unfold passes, is_empty, too_short, brace_imbalance.
  rewrite Z.gtb_ltb.
  destruct (Nat.eqb_spec (len (trimmed s)) 0),
    (Nat.ltb_spec (len (trimmed s)) 10),
    (Z.ltb_spec 3 (brace_delta (trimmed s))),
    (Z.leb_spec 4 (brace_delta (trimmed s)));
    simpl; try reflexivity; lia.
Qed.

Lemma rejected_for_thresholds (s : Sample) :
  rejected_for "empty" s = (len (trimmed s) =? 0)
  /\ rejected_for "short" s
     = (0 <? len (trimmed s)) && (len (trimmed s) <? 10)
  /\ rejected_for "braces" s
     = (10 <=? len (trimmed s)) && (4 <=? brace_delta (trimmed s))%Z.
Proof.
  unfold rejected_for, reason_of, is_empty, too_short, brace_imbalance.
  rewrite Z.gtb_ltb.
  destruct (Nat.eqb_spec (len (trimmed s)) 0),
    (Nat.ltb_spec (len (trimmed s)) 10),
    (Nat.ltb_spec 0 (len (trimmed s))),
    (Nat.leb_spec 10 (len (trimmed s))),
    (Z.ltb_spec 3 (brace_delta (trimmed s))),
    (Z.leb_spec 4 (brace_delta (trimmed s)));
    simpl; try lia; repeat split.
Qed.

Lemma filter_twice_and {A} (f g : A -> bool) (l : list A) :
  filter f (filter g l) = filter (fun x => g x && f x) l.
Proof.
  induction l as [|x l IH]; simpl; [reflexivity|].
  destruct (g x); simpl; [destruct (f x)|]; now rewrite IH.
Qed.

Lemma rejected_of_task (k : string) (t : pyval) (samples : list Sample) :
  rejected_of k t samples = filter (rejected_for k) (of_task t samples).
Proof. unfold rejected_of, of_task. now rewrite filter_twice_and. Qed.

Lemma warned_only (d : Dict) (t : pyval) (x : Printed) :
  In x (warned d t) -> exists r, x = AllFilteredWarning t r.
Proof.
  unfold warned, second_pass_step.
  destruct (kept (lookup t d)); simpl; [|intros []].
  destruct (all (lookup t d)); simpl; [intros []|].
  intros [<-|[]]. eexists. reflexivity.
Qed.

Lemma passing_in_expected (t : pyval) (samples : list Sample) (s : Sample) :
  In s (filter passes (of_task t samples)) -> In s (expected_for t samples).
Proof.
  unfold expected_for.
  destruct (filter passes (of_task t samples)); [intros []|auto].
Qed.

Lemma rejected_in_expected (t : pyval) (samples : list Sample) (s : Sample) :
  passes s = false ->
  In s (expected_for t samples) ->
  filter passes (of_task t samples) = []
  /\ exists rest, of_task t samples = s :: rest.
Proof.
  intros Hp. unfold expected_for.
  destruct (filter passes (of_task t samples)) as [|x l] eqn:E.
  - intros Hin. split; [reflexivity|].
    destruct (of_task t samples) as [|y rest]; [destruct Hin|].
    destruct Hin as [<-|[]]. now exists rest.
  - intros Hin. rewrite <- E in Hin. apply filter_In in Hin as [_ Hin].
    congruence.
Qed.

(** C5. The thresholds of the three rejection predicates, on the call.  On
    records of the data model [_filter_bad_samples] returns, and for every
    sample of the input:
    - a trimmed completion of length 10 or more with a brace difference of
      3 or less is kept: the record is written, and no warning is printed
      for its task;
    - a trimmed completion of length 9 or less, or with a brace difference
      of 4 or more, is rejected: the record is written only as the first raw
      sample of a task that is warned about;
    - the number printed as filtered is the number of samples of length 9
      or less or of brace difference 4 or more, and it is printed when
      there is one;
    - the reasons a warning shows count the task's samples of length 0 as
      [empty], of length 1 to 9 as [short], and of length 10 or more with a
      brace difference of 4 or more as [braces]: each sample for one reason,
      so that the three counts add up to the number of the task's
      samples. *)
Theorem threshold_boundaries (samples : list Sample) :
  Forall (fun s => well_formed s = true) samples ->
  exists o,
    _filter_bad_samples samples = Ok o
    /\ (forall s,
          In s samples ->
          10 <= len (trimmed s) -> (brace_delta (trimmed s) <= 3)%Z ->
          In s (written o)
          /\ forall r, ~ In (AllFilteredWarning (get_task_id s) r) (printed o))
    /\ (forall s,
          In s samples ->
          len (trimmed s) < 10 \/ (4 <= brace_delta (trimmed s))%Z ->
          In s (written o) ->
          (exists rest, of_task (get_task_id s) samples = s :: rest)
          /\ exists r, In (AllFilteredWarning (get_task_id s) r) (printed o))
    /\ (forall n m,
          In (FilteredOutLine n m) (printed o) ->
          n = List.length
                (filter (fun s => (len (trimmed s) <? 10)
                                  || (4 <=? brace_delta (trimmed s))%Z)
                        samples)
          /\ m = List.length samples)
    /\ (forall s,
          In s samples ->
          len (trimmed s) < 10 \/ (4 <= brace_delta (trimmed s))%Z ->
          exists n, In (FilteredOutLine n (List.length samples)) (printed o))
    /\ (forall t r,
          In (AllFilteredWarning t r) (printed o) ->
          reasons_get "empty" r
          = List.length (filter (fun s => len (trimmed s) =? 0)
                                (of_task t samples))
          /\ reasons_get "short" r
             = List.length
                 (filter (fun s => (0 <? len (trimmed s))
                                   && (len (trimmed s) <? 10))
                         (of_task t samples))
          /\ reasons_get "braces" r
             = List.length
                 (filter (fun s => (10 <=? len (trimmed s))
                                   && (4 <=? brace_delta (trimmed s))%Z)
                         (of_task t samples))
          /\ reasons_get "empty" r + reasons_get "short" r
             + reasons_get "braces" r
             = List.length (of_task t samples)).
Proof.
  intros Hwf.
  assert (Htext : Forall (fun s => has_text s = true) samples).
  { eapply Forall_impl; [|exact Hwf]. apply well_formed_has_text. }
  destruct (filter_call Hwf)
    as (st & order & Efp & _ & _ & _ & Hin & A & K & F & T & E).
  assert (Hwarn : forall t r,
             In (AllFilteredWarning t r)
                (flat_map (warned (problem_samples st)) order
                 ++ (if (0 <? filtered_count st)%nat
                     then [FilteredOutLine (filtered_count st) (total_count st);
                           EvaluatingLine (final_count (problem_samples st))]
                     else [])) ->
             filter passes (of_task t samples) = []
             /\ r = filtered_reasons (lookup t (problem_samples st))).
  { intros t r Hw. apply in_app_or in Hw as [Hw|Hw].
    2:{ destruct (0 <? filtered_count st)%nat; simpl in Hw;
        intuition discriminate. }
    apply in_flat_map in Hw as (t' & Ht' & Hw).
    apply warned_in in Hw as (-> & Hk & _ & ->). now rewrite <- K. }
  assert (Hwritten : forall x,
             In x (flat_map (fun t => emitted (lookup t (problem_samples st)))
                            order)
             <-> In (get_task_id x) order
                 /\ In x (expected_for (get_task_id x) samples)).
  { intros x. rewrite (written_in_order samples st order A K).
    rewrite in_flat_map. split.
    - intros (t & Ht & Hx). destruct (expected_for_in _ _ _ Hx) as [<- _].
      now split.
    - intros [Ht Hx]. now exists (get_task_id x). }
  assert (Hcount : filtered_count st
                   = List.length
                       (filter (fun s => (len (trimmed s) <? 10)
                                         || (4 <=? brace_delta (trimmed s))%Z)
                               samples)).
  { rewrite F. unfold rejected. f_equal. apply filter_ext.
    intros x. apply rejected_thresholds. }
  eexists. split; [exact E|]. cbn [written printed].
  split; [|split; [|split; [|split]]].
  - intros s Hs Hlen Hbr.
    assert (Hp : passes s = true) by now apply passes_thresholds.
    assert (Hk : In s (filter passes (of_task (get_task_id s) samples))).
    { apply filter_In. split; [|exact Hp]. apply filter_In.
      split; [exact Hs|apply pyval_eqb_refl]. }
    split.
    + apply Hwritten. split.
      * apply Hin. unfold task_ids. now apply in_map.
      * now apply passing_in_expected.
    + intros r Hw. apply Hwarn in Hw as [Hnone _].
      rewrite Hnone in Hk. destruct Hk.
  - intros s Hs Hrej Hw.
    assert (Hp : passes s = false).
    { destruct (passes s) eqn:Hp; [|reflexivity].
      apply passes_thresholds in Hp. lia. }
    apply Hwritten in Hw as [Ht Hx].
    destruct (@rejected_in_expected _ _ _ Hp Hx) as (Hnone & rest & Hfirst).
    split; [now exists rest|].
    exists (filtered_reasons (lookup (get_task_id s) (problem_samples st))).
    apply in_or_app. left. apply in_flat_map. exists (get_task_id s).
    split; [exact Ht|].
    unfold warned, second_pass_step. rewrite K, Hnone, A, Hfirst. now left.
  - intros n m Hl. apply in_app_or in Hl as [Hl|Hl].
    + apply in_flat_map in Hl as (t & _ & Hl).
      apply warned_only in Hl as (r & Hl). discriminate.
    + destruct (0 <? filtered_count st)%nat; [|destruct Hl].
      destruct Hl as [Hl|[Hl|[]]]; [|discriminate].
      injection Hl as <- <-. now rewrite <- Hcount, T.
  - intros s Hs Hrej. exists (filtered_count st). apply in_or_app. right.
    assert (Hpos : 0 < filtered_count st).
    { rewrite Hcount.
      assert (Hf : In s (filter
                           (fun s => (len (trimmed s) <? 10)
                                     || (4 <=? brace_delta (trimmed s))%Z)
                           samples)).
      { apply filter_In. split; [exact Hs|]. apply orb_true_iff.
        destruct Hrej as [H|H]; [left; now apply Nat.ltb_lt|
                                 right; now apply Z.leb_le]. }
      destruct (filter _ samples); [destruct Hf|simpl; lia]. }
    apply Nat.ltb_lt in Hpos. rewrite Hpos, T. now left.
  - intros t r Hw. apply Hwarn in Hw as [Hnone ->].
    assert (Hr : forall k,
               reasons_get k (filtered_reasons (lookup t (problem_samples st)))
               = List.length (filter (rejected_for k) (of_task t samples))).
    { intros k. rewrite (first_pass_reasons initial Htext Efp t k).
      now rewrite rejected_of_task. }
    assert (Hsum : reasons_get "empty"
                     (filtered_reasons (lookup t (problem_samples st)))
                   + reasons_get "short"
                       (filtered_reasons (lookup t (problem_samples st)))
                   + reasons_get "braces"
                       (filtered_reasons (lookup t (problem_samples st)))
                   = List.length (of_task t samples)).
    { rewrite !Hr, <- !rejected_of_task, <- rejected_by_reason.
      rewrite <- (filter_partition_length passes (of_task t samples)).
      now rewrite Hnone. }
    split; [|split; [|split; [|exact Hsum]]]; rewrite Hr; f_equal;
      apply filter_ext; intros x; apply rejected_for_thresholds.
Qed.

Lemma threshold_boundaries_witness :
  exists o,
    _filter_bad_samples boundary_samples = Ok o
    /\ In ten_chars (written o)
    /\ In three_open (written o)
    /\ ~ In nine_chars (written o)
    /\ ~ In four_open (written o)
    /\ In (FilteredOutLine 2 4) (printed o).
Proof.
  destruct (@threshold_boundaries boundary_samples)
    as (o & E & Hkeep & Hrej & Hline & Hprinted & _);
    [repeat constructor|].
  exists o. split; [exact E|].
  assert (H9 : In nine_chars boundary_samples) by (simpl; tauto).
  assert (H4 : In four_open boundary_samples) by (simpl; tauto).
  split; [|split; [|split; [|split]]].
  - apply (Hkeep ten_chars); [simpl; tauto|vm_compute; lia|].
    vm_compute. discriminate.
  - apply (Hkeep three_open); [simpl; tauto|vm_compute; lia|].
    vm_compute. discriminate.
  - intros Hw. destruct (Hrej nine_chars H9) as [(rest & Hf) _];
      [left; vm_compute; lia|exact Hw|].
    vm_compute in Hf. discriminate.
  - intros Hw. destruct (Hrej four_open H4) as [(rest & Hf) _];
      [right; vm_compute; discriminate|exact Hw|].
    vm_compute in Hf. discriminate.
  - destruct (Hprinted nine_chars H9) as (n & Hn); [left; vm_compute; lia|].
    destruct (Hline n _ Hn) as [-> _]. exact Hn.
Defined.

(** C5, the case the claim gets wrong: a trimmed completion of exactly
    length 10 that is not kept, for its ten braces have no partner; and a
    trimmed completion shorter than 10 that is not counted as [short], for
    it is empty. *)
Lemma length_ten_not_kept :
  len (trimmed ten_braces) = 10
  /\ filtered_output [ten_chars; ten_braces] = Ok [ten_chars]
  /\ len (trimmed blank_completion) < 10
  /\ exists o r,
       _filter_bad_samples [blank_completion] = Ok o
       /\ In (AllFilteredWarning (PStr (u "t1")) r) (printed o)
       /\ reasons_get "short" r = 0
       /\ reasons_get "empty" r = 1.
Proof.
  split; [reflexivity|]. split; [reflexivity|]. split; [vm_compute; lia|].
  eexists _, _. split; [reflexivity|]. split; [now left|].
  split; reflexivity.
Qed.

(** ** The validator: the order on versions *)

Lemma tuple_ge_refl (a : list Z) : Validator.tuple_ge a a = true.
Proof.
  induction a as [|x a IH]; simpl; [reflexivity|]. now rewrite Z.eqb_refl.
Qed.

Lemma tuple_ge_trans (a : list Z) : forall b c,
  Validator.tuple_ge a b = true -> Validator.tuple_ge b c = true ->
  Validator.tuple_ge a c = true.
Proof.
  induction a as [|x a IH]; intros [|y b] [|z c]; simpl; try congruence.
  destruct (Z.eqb_spec x y), (Z.eqb_spec y z), (Z.eqb_spec x z);
    try lia; rewrite ?Z.ltb_lt; try lia.
  apply IH.
Qed.

Lemma tuple_ge_total (a : list Z) : forall b,
  Validator.tuple_ge a b = true \/ Validator.tuple_ge b a = true.
Proof.
  induction a as [|x a IH]; intros [|y b]; simpl; auto.
  destruct (Z.eqb_spec x y), (Z.eqb_spec y x); try lia; apply IH.
Qed.

Lemma tuple_ge_antisym (a : list Z) : forall b,
  Validator.tuple_ge a b = true -> Validator.tuple_ge b a = true -> a = b.
Proof.
  induction a as [|x a IH]; intros [|y b]; simpl; try congruence.
  destruct (Z.eqb_spec x y), (Z.eqb_spec y x); try lia;
    rewrite ?Z.ltb_lt; try lia.
  intros H1 H2. subst y. f_equal. now apply IH.
Qed.

Lemma tuple_ge_prefix (a b : list Z) :
  Validator.tuple_ge (a ++ b) a = true
  /\ (b <> [] -> Validator.tuple_ge a (a ++ b) = false).
Proof.
  induction a as [|x a [IH1 IH2]]; simpl.
  - split; [now destruct b|]. destruct b; [congruence|reflexivity].
  - rewrite Z.eqb_refl. split; assumption.
Qed.

Section VersionOrder.

Import Validator.

Variable int_of : str -> option Z.

(** X6. [check_version] compares versions as tuples of integers, and on
    versions whose first three components are integers it is a total order
    on those tuples: every such version meets itself; meeting is
    transitive; of two such versions one meets the other; and two versions
    that meet each other have the same tuple. *)
Theorem version_order :
  (forall v i, ints int_of (first_three v) = Ok i ->
               check_version int_of v v = Ok true)
  /\ (forall a b c,
         check_version int_of a b = Ok true ->
         check_version int_of b c = Ok true ->
         check_version int_of a c = Ok true)
  /\ (forall a b i j,
         ints int_of (first_three a) = Ok i ->
         ints int_of (first_three b) = Ok j ->
         check_version int_of a b = Ok true
         \/ check_version int_of b a = Ok true)
  /\ (forall a b i j,
         ints int_of (first_three a) = Ok i ->
         ints int_of (first_three b) = Ok j ->
         check_version int_of a b = Ok true ->
         check_version int_of b a = Ok true ->
         i = j).
Proof.
  split; [|split; [|split]].
  - intros v i Hi. apply check_version_true_iff. exists i, i.
    repeat split; auto. apply tuple_ge_refl.
  - intros a b c Hab Hbc.
    apply check_version_true_iff in Hab as (i & j & Hi & Hj & Hij).
    apply check_version_true_iff in Hbc as (j' & k & Hj' & Hk & Hjk).
    assert (j' = j) by congruence. subst j'.
    apply check_version_true_iff. exists i, k. repeat split; auto.
    now apply (tuple_ge_trans i j k).
  - intros a b i j Hi Hj. destruct (tuple_ge_total i j) as [H|H].
    + left. apply check_version_true_iff. now exists i, j.
    + right. apply check_version_true_iff. now exists j, i.
  - intros a b i j Hi Hj Hab Hba.
    apply check_version_true_iff in Hab as (i1 & j1 & Hi1 & Hj1 & H1).
    apply check_version_true_iff in Hba as (j2 & i2 & Hj2 & Hi2 & H2).
    assert (i1 = i) by congruence. assert (j1 = j) by congruence.
    assert (i2 = i) by congruence. assert (j2 = j) by congruence.
    subst. now apply tuple_ge_antisym.
Qed.

(** X7. A version with fewer components than the requirement does not meet
    it, even when the components it has are the same: when the installed
    tuple is a proper prefix of the required one, [check_version] returns
    [False]; the other way round, a longer tuple meets its prefix. *)
Theorem shorter_version_fails (installed required : str) (i r : list Z) :
  ints int_of (first_three installed) = Ok i ->
  ints int_of (first_three required) = Ok (i ++ r) ->
  r <> [] ->
  check_version int_of installed required = Ok false
  /\ check_version int_of required installed = Ok true.
Proof.
  intros Hi Hr Hne. split.
  - destruct (check_version_returns int_of installed required) as ([|] & Hb);
      [|exact Hb].
    apply check_version_true_iff in Hb as (i' & r' & Hi' & Hr' & Hge).
    assert (i' = i) by congruence. assert (r' = i ++ r) by congruence. subst.
    now rewrite (proj2 (tuple_ge_prefix i r) Hne) in Hge.
  - apply check_version_true_iff. exists (i ++ r), i. repeat split; auto.
    apply tuple_ge_prefix.
Qed.

End VersionOrder.

Lemma version_order_witness :
  Validator.check_version Validator.int_decimal (u "2.10.0") (u "2.10.0")
  = Ok true
  /\ Validator.check_version Validator.int_decimal (u "2.10.0") (u "2.1.0")
     = Ok true.
Proof.
  destruct (version_order Validator.int_decimal) as (Hrefl & Htrans & _).
  split.
  - apply (Hrefl (u "2.10.0") [2; 10; 0]%Z). reflexivity.
  - apply (Htrans (u "2.10.0") (u "2.9.0") (u "2.1.0")); reflexivity.
Defined.

Lemma shorter_version_fails_witness :
  Validator.check_version Validator.int_decimal (u "2.1") (u "2.1.0")
  = Ok false
  /\ Validator.check_version Validator.int_decimal (u "2.1.0") (u "2.1")
     = Ok true.
Proof.
  apply (@shorter_version_fails Validator.int_decimal (u "2.1") (u "2.1.0")
           [2; 1]%Z [0]%Z); [reflexivity|reflexivity|discriminate].
Defined.

(** ** The validator: what [parse_version] reads *)

Lemma split_not_nil (sep : N) (s : str) : Validator.split sep s <> [].
Proof.
  destruct s as [|c s]; simpl; [discriminate|].
  destruct (c =? sep)%N; [discriminate|].
  destruct (Validator.split sep s); discriminate.
Qed.

Lemma split_app (sep : N) (a b : str) :
  Validator.split sep (a ++ sep :: b)
  = Validator.split sep a ++ Validator.split sep b.
Proof.
  induction a as [|c a IH]; simpl.
  - now rewrite N.eqb_refl.
  - destruct (c =? sep)%N; [now rewrite IH|].
    rewrite IH. pose proof (split_not_nil sep a) as Hne.
    destruct (Validator.split sep a); [congruence|reflexivity].
Qed.

Lemma first_three_suffix (v w : str) :
  3 <= List.length (Validator.split Validator.dot v) ->
  first_three (v ++ Validator.dot :: w) = first_three v.
Proof.
  intros H. unfold first_three. rewrite split_app, firstn_app.
  replace (3 - List.length (Validator.split Validator.dot v)) with 0 by lia.
  apply app_nil_r.
Qed.

(** X8. [check_version] reads the first three components and nothing after
    them: a version with three or more dot-separated components compares the
    same, on either side, whatever is appended to it after a further dot. *)
Theorem later_components_ignored
        (int_of : str -> option Z) (v w other : str) :
  3 <= List.length (Validator.split Validator.dot v) ->
  Validator.check_version int_of (v ++ Validator.dot :: w) other
  = Validator.check_version int_of v other
  /\ Validator.check_version int_of other (v ++ Validator.dot :: w)
     = Validator.check_version int_of other v.
Proof.
  intros H. pose proof (first_three_suffix v w H) as E.
  unfold first_three in E.
  unfold Validator.check_version, Validator.parse_version.
  now rewrite E.
Qed.

Lemma later_components_ignored_witness :
  Validator.check_version Validator.int_decimal (u "2.1.0.post1+local")
                          (u "2.1.0")
  = Validator.check_version Validator.int_decimal (u "2.1.0") (u "2.1.0").
Proof.
  apply (@later_components_ignored Validator.int_decimal (u "2.1.0")
           (u "post1+local") (u "2.1.0")).
  vm_compute. lia.
Defined.

(** ** The orchestrator: how a run ends *)

Section RunOutcomes.

Variable Value : Type.
Variable lower : str -> str.
Variable which : str -> option str.
Variable generate : bool -> bool -> result (list Sample).
Variable engine : str -> bool -> list Sample -> result (Metrics Value).
Variable rt : Runtime.

Lemma resolver_raises (requested : option str) (e : exn) :
  Sandbox._resolve_sandbox_mode lower which requested = Raise e ->
  (exists msg, e = ValueError msg) \/ (exists msg, e = RuntimeError msg).
Proof.
  unfold Sandbox._resolve_sandbox_mode.
  destruct (if Sandbox.opt_is _ _ then _ else _) as [n|].
  - destruct (negb _); [intros H; injection H as <-; left; eexists; reflexivity|].
    destruct (str_eqb n (u "firejail")); [|discriminate].
    destruct (negb _); [|discriminate].
    intros H. injection H as <-. right. eexists. reflexivity.
  - destruct (Sandbox.truthy_path _); discriminate.
Qed.

Lemma no_work_in_says (msgs : list str) :
  existsb (@is_work Value) (map Say msgs) = false.
Proof. induction msgs; simpl; auto. Qed.

Lemma no_report_in_messages (msgs : list str) :
  existsb (@is_report Value) (map Say msgs) = false.
Proof. induction msgs; simpl; auto. Qed.

Lemma not_engine_in_says (msgs : list str) m p r :
  ~ In (@EngineRan Value m p r) (map Say msgs).
Proof. induction msgs; simpl; [tauto|]. intros [H|H]; [discriminate|auto]. Qed.

(** X9. With both [--policy-only] and [--no-policy-only] nothing is run:
    [main], from its parsed arguments on, does not return, makes no
    directory of a phase, and generates, evaluates and reports nothing.
    When the seeding or the parsing of [--k-values] raises, it ends in that
    exception with nothing done.  Otherwise it makes the output directory,
    resolves the sandbox mode and exits: with status 0 after the line
    "Nothing to do: both modes disabled." when the mode resolves, with
    status 1 when it does not. *)
Theorem both_modes_disabled (args : Args) :
  policy_only args = true ->
  no_policy_only args = true ->
  exists trace o,
    main_body lower which generate engine rt args = (trace, o)
    /\ o <> Return tt
    /\ existsb (@is_work Value) trace = false
    /\ existsb (@is_report Value) trace = false
    /\ (forall e,
           seed_and_k_values Value rt args = ([], Throw e) ->
           trace = [] /\ o = Throw e)
    /\ (forall k mode msgs,
           seed_and_k_values Value rt args = ([], Return k) ->
           Sandbox._resolve_sandbox_mode lower which (sandbox_mode args)
           = Ok (mode, msgs) ->
           o = Exit 0
           /\ trace = MadeDir None :: map Say msgs
                      ++ [Say (u "Nothing to do: both modes disabled.")])
    /\ (forall k e,
           seed_and_k_values Value rt args = ([], Return k) ->
           Sandbox._resolve_sandbox_mode lower which (sandbox_mode args)
           = Raise e ->
           o = Exit 1).
Proof.
  intros Hp Hn. pose proof (seed_and_k_values_quiet Value rt args) as Hq.
  unfold main_body, resolve_or_exit. rewrite Hp, Hn.
  destruct (seed_and_k_values Value rt args) as [t0 [k0|st|e0]];
    cbn in Hq; subst t0.
  - destruct (Sandbox._resolve_sandbox_mode lower which (sandbox_mode args))
      as [[mode msgs]|e] eqn:E.
    + rewrite say_all_trace. simpl. rewrite app_nil_r.
      eexists _, _. split; [reflexivity|]. split; [discriminate|].
      split; [simpl; now rewrite existsb_app, no_work_in_says|].
      split; [simpl; now rewrite existsb_app, no_report_in_messages|].
      split; [discriminate|]. split; [|discriminate].
      intros k mode' msgs' _ H. injection H as <- <-. now split.
    + destruct (resolver_raises _ E) as [(msg & ->)|(msg & ->)]; simpl;
        eexists _, _; (split; [reflexivity|]); (split; [discriminate|]);
        (split; [reflexivity|]); (split; [reflexivity|]);
        (split; [discriminate|]); (split; [discriminate|]); reflexivity.
  - simpl. eexists _, _. split; [reflexivity|]. split; [discriminate|].
    split; [reflexivity|]. split; [reflexivity|].
    split; [discriminate|]. split; discriminate.
  - simpl. eexists _, _. split; [reflexivity|]. split; [discriminate|].
    split; [reflexivity|]. split; [reflexivity|].
    split; [|split; discriminate].
    intros e H. injection H as <-. now split.
Qed.

(** X10. How a run ends, as the code stands, once the seeding and the
    parsing of [--k-values] have returned and the sandbox mode is resolved.
    The evaluation engine is never called.  With both phases disabled
    [main] exits with status 0.  With both models skipped it returns when
    both phases run, and ends in the [TypeError] of the summary when one
    phase is disabled.  In every other case it ends in an exception before
    any summary or metadata: that of the generator for the first model of
    the first phase, or that of [evaluate_samples] when this generation
    returns.  So [main] returns only when both models are skipped and both
    phases run. *)
Theorem main_returns_only_when_nothing_is_evaluated
        (args : Args) (mode : str) (msgs : list str) (k : list Z) :
  seed_and_k_values Value rt args = ([], Return k) ->
  Sandbox._resolve_sandbox_mode lower which (sandbox_mode args)
  = Ok (mode, msgs) ->
  exists t o,
    main_body lower which generate engine rt args = (t, o)
    /\ (forall m p r, ~ In (EngineRan m p r) t)
    /\ (policy_only args = true -> no_policy_only args = true -> o = Exit 0)
    /\ (skip_base args = true -> skip_finetuned args = true ->
        (policy_only args = false -> no_policy_only args = false ->
         o = Return tt)
        /\ (policy_only args = true -> no_policy_only args = false ->
            o = Throw TypeError)
        /\ (policy_only args = false -> no_policy_only args = true ->
            o = Throw TypeError))
    /\ (policy_only args && no_policy_only args = false ->
        skip_base args && skip_finetuned args = false ->
        o = Throw match generate (policy_only args) (skip_base args) with
                  | Raise e => e
                  | Ok _ => evaluation_exception rt
                  end
        /\ existsb (@is_report Value) t = false)
    /\ (o = Return tt ->
        skip_base args = true /\ skip_finetuned args = true
        /\ policy_only args = false /\ no_policy_only args = false).
Proof.
  intros Hk Hres.
  destruct (policy_only args && no_policy_only args) eqn:Hboth.
  - apply andb_true_iff in Hboth as [Hp Hn].
    exists (MadeDir None :: map Say msgs
              ++ [Say (u "Nothing to do: both modes disabled.")]), (Exit 0).
    split.
    { unfold main_body, resolve_or_exit.
      rewrite Hk, Hres, Hp, Hn, say_all_trace. simpl. now rewrite app_nil_r. }
    split.
    { intros m p r [Hin|Hin]; [discriminate|].
      apply in_app_or in Hin as [Hin|[Hin|[]]];
        [now apply not_engine_in_says in Hin|discriminate]. }
    rewrite Hp, Hn. split; [reflexivity|].
    split; [intros _ _; repeat split; discriminate|].
    split; [discriminate|discriminate].
  - assert (Hnb : negb (negb (policy_only args))
                  && negb (negb (no_policy_only args)) = false)
      by now rewrite !negb_involutive.
    rewrite (main_body_resolved lower which generate engine rt args
               Hk Hres Hnb).
    unfold run_phases, run_evaluation_mode, evaluate_model, evaluate_samples,
      evaluation_exception.
    destruct (policy_only args), (no_policy_only args); try discriminate;
      destruct (skip_base args), (skip_finetuned args); simpl;
      repeat match goal with
             | |- context [generate ?a ?b] => destruct (generate a b); simpl
             end;
      try (destruct (import_engine rt) as [[]|]; simpl);
      eexists _, _; (split; [reflexivity|]);
      (split; [intros m p r Hin; simpl in Hin;
               destruct Hin as [Hin|Hin]; [discriminate|];
               apply in_app_or in Hin as [Hin|Hin];
               [now apply not_engine_in_says in Hin|];
               simpl in Hin; intuition discriminate|]);
      (split; [discriminate|]);
      (split; [intros; repeat split; intros; try discriminate; reflexivity|]);
      (split; [intros; try discriminate;
               (split; [reflexivity|]); simpl;
               rewrite existsb_app, no_report_in_messages; reflexivity|]);
      intros; try discriminate; repeat split; reflexivity.
Qed.

End RunOutcomes.

Lemma both_modes_disabled_witness :
  exists trace,
    main_body Sandbox.lower_ascii Sandbox.host_with_firejail generate_pair
              zero_engine plain_runtime both_only_args
    = (trace, Exit 0)
    /\ existsb (@is_work nat) trace = false.
Proof.
  destruct (@both_modes_disabled nat Sandbox.lower_ascii
              Sandbox.host_with_firejail generate_pair zero_engine
              plain_runtime both_only_args eq_refl eq_refl)
    as (trace & o & E & _ & Hw & _ & _ & H & _).
  destruct (H [1; 10; 100]%Z (u "firejail") [Sandbox.auto_firejail_message]
              eq_refl eq_refl) as [-> _].
  exists trace. split; assumption.
Defined.

(** A letter among the [--k-values] ends the run in the [ValueError] of
    [int], before the output directory is made. *)
Lemma bad_k_values_end_the_run :
  main_body Sandbox.lower_ascii Sandbox.host_with_firejail generate_pair
            zero_engine plain_runtime bad_k_values_args
  = ([], Throw (ValueError
                  (u "invalid literal for int() with base 10: 'x'"))).
Proof. reflexivity. Qed.

Lemma main_returns_only_when_nothing_is_evaluated_witness :
  exists t,
    main_body Sandbox.lower_ascii Sandbox.host_with_firejail generate_pair
              zero_engine plain_runtime skip_models_args
    = (t, Return tt).
Proof.
  destruct (@main_returns_only_when_nothing_is_evaluated nat
              Sandbox.lower_ascii Sandbox.host_with_firejail generate_pair
              zero_engine plain_runtime skip_models_args
              (u "firejail") [Sandbox.auto_firejail_message]
              [1; 10; 100]%Z eq_refl eq_refl)
    as (t & o & E & _ & _ & H & _).
  destruct (H eq_refl eq_refl) as [Hret _].
  rewrite (Hret eq_refl eq_refl) in E. exists t. exact E.
Defined.

(** ** Generation: splitting and trimming *)

Import Generation.

Lemma split_skip_not_nil (sep : str) (s : str) : forall k,
  split_skip sep k s <> [].
Proof.
  induction s as [|c s IH]; intros k; simpl; [discriminate|].
  destruct k; [|apply IH].
  destruct (starts_with sep (c :: s)); [discriminate|].
  destruct (split_skip sep 0 s); discriminate.
Qed.

Lemma split_skip_passes (sep a rest : str) :
  split_skip sep (List.length a) (a ++ rest) = split_skip sep 0 rest.
Proof. induction a as [|c a IH]; simpl; [reflexivity|exact IH]. Qed.

Lemma starts_with_inv (n h : str) :
  starts_with n h = true -> exists rest, h = n ++ rest.
Proof.
  revert h. induction n as [|x n IH]; intros h H; simpl in *.
  - now exists h.
  - destruct h as [|y h]; [discriminate|].
    apply andb_true_iff in H as [Hx Hn]. apply N.eqb_eq in Hx. subst y.
    destruct (IH h Hn) as (rest & ->). now exists rest.
Qed.

Lemma starts_with_longer (n h b : str) :
  starts_with n h = true -> starts_with n (h ++ b) = true.
Proof.
  revert h. induction n as [|x n IH]; intros h H; simpl in *; [reflexivity|].
  destruct h as [|y h]; [discriminate|]. simpl.
  apply andb_true_iff in H as [Hx Hn]. rewrite Hx. simpl. now apply IH.
Qed.

Lemma starts_with_shorter (a b h : str) :
  starts_with (a ++ b) h = true -> starts_with a h = true.
Proof.
  revert h. induction a as [|x a IH]; intros h H; simpl in *; [reflexivity|].
  destruct h as [|y h]; [discriminate|].
  apply andb_true_iff in H as [Hx Hn]. rewrite Hx. simpl. now apply IH.
Qed.

Lemma contains_app_l (n m b : str) :
  contains n m = true -> contains n (m ++ b) = true.
Proof.
  induction m as [|x m IH]; intros H.
  - simpl in H. rewrite orb_false_r in H. apply contains_starts.
    destruct n; [reflexivity|discriminate].
  - simpl in H. apply orb_true_iff in H as [H|H].
    + apply contains_starts. now apply (starts_with_longer n (x :: m) b).
    + simpl. rewrite (IH H). apply orb_true_r.
Qed.

Lemma contains_inside (n a m b : str) :
  contains n (a ++ m ++ b) = false -> contains n m = false.
Proof.
  intros H. destruct (contains n m) eqn:E; [|reflexivity].
  rewrite contains_app_r in H; [discriminate|]. now apply contains_app_l.
Qed.

Lemma contains_shorter (a b h : str) :
  contains (a ++ b) h = true -> contains a h = true.
Proof.
  induction h as [|x h IH]; simpl; intros H.
  - rewrite orb_false_r in *. now apply (starts_with_shorter a b).
  - apply orb_true_iff in H as [H|H].
    + now rewrite (starts_with_shorter a b _ H).
    + rewrite (IH H). apply orb_true_r.
Qed.

(** The three cases of [split_on] for a separator [c0 :: sep']. *)
Lemma split_on_at (c0 : N) (sep' rest : str) :
  split_on (c0 :: sep') ((c0 :: sep') ++ rest)
  = [] :: split_on (c0 :: sep') rest.
Proof.
  unfold split_on.
  pose proof (starts_with_app (c0 :: sep') rest) as Hs.
  change ((c0 :: sep') ++ rest) with (c0 :: (sep' ++ rest)) in *.
  cbn [split_skip]. rewrite Hs. f_equal.
  replace (len (c0 :: sep') - 1) with (List.length sep')
    by (unfold len; simpl; lia).
  apply split_skip_passes.
Qed.

Lemma split_on_step (sep : str) (c : N) (s : str) :
  starts_with sep (c :: s) = false ->
  exists w ws, split_on sep s = w :: ws
               /\ split_on sep (c :: s) = (c :: w) :: ws.
Proof.
  intros H. unfold split_on. cbn [split_skip]. rewrite H.
  pose proof (split_skip_not_nil sep s 0) as Hne.
  destruct (split_skip sep 0 s) as [|w ws]; [congruence|].
  now exists w, ws.
Qed.

Lemma split_on_absent (sep s : str) :
  contains sep s = false -> split_on sep s = [s].
Proof.
  induction s as [|c s IH]; intros H; [reflexivity|].
  simpl in H. apply orb_false_iff in H as [Hs Hc].
  destruct (split_on_step sep c s Hs) as (w & ws & E & ->).
  rewrite (IH Hc) in E. now injection E as <- <-.
Qed.

Lemma contains_cons (n : str) (c : N) (s : str) :
  contains n (c :: s) = starts_with n (c :: s) || contains n s.
Proof. reflexivity. Qed.

(** The first piece is what stands before the first occurrence. *)
Lemma split_on_present (c0 : N) (sep' s : str) :
  contains (c0 :: sep') s = true ->
  exists a rest,
    s = a ++ (c0 :: sep') ++ rest
    /\ split_on (c0 :: sep') s = a :: split_on (c0 :: sep') rest
    /\ contains (c0 :: sep') a = false.
Proof.
  induction s as [|c s IH]; intros H; [discriminate|].
  destruct (starts_with (c0 :: sep') (c :: s)) eqn:Hs.
  - destruct (starts_with_inv _ _ Hs) as (rest & ->).
    exists [], rest. split; [reflexivity|]. split; [apply split_on_at|].
    reflexivity.
  - rewrite contains_cons, Hs in H. cbn [orb] in H.
    destruct (IH H) as (a & rest & Es & E & Ha).
    destruct (split_on_step (c0 :: sep') c s Hs) as (w & ws & E' & ->).
    rewrite E in E'. injection E' as <- <-.
    exists (c :: a), rest. split; [now rewrite Es|]. split; [reflexivity|].
    rewrite contains_cons, Ha, orb_false_r.
    destruct (starts_with (c0 :: sep') (c :: a)) eqn:Hca; [|reflexivity].
    apply (starts_with_longer _ _ ((c0 :: sep') ++ rest)) in Hca.
    change ((c :: a) ++ (c0 :: sep') ++ rest)
      with (c :: (a ++ (c0 :: sep') ++ rest)) in Hca.
    rewrite <- Es in Hca. congruence.
Qed.

Lemma hd_split_on_clean (c0 : N) (sep' s : str) :
  contains (c0 :: sep') (hd [] (split_on (c0 :: sep') s)) = false.
Proof.
  destruct (contains (c0 :: sep') s) eqn:E.
  - destruct (split_on_present c0 sep' s E) as (a & rest & _ & -> & Ha).
    exact Ha.
  - now rewrite (split_on_absent _ _ E).
Qed.

(** [strip] *)

Lemma lstrip_no_lead (s : str) : no_lead (lstrip s) = true.
Proof.
  induction s as [|c s IH]; simpl; [reflexivity|].
  destruct (isspace c) eqn:E; [exact IH|]. simpl. now rewrite E.
Qed.

Lemma lstrip_fixed (s : str) : no_lead s = true -> lstrip s = s.
Proof.
  destruct s as [|c s]; simpl; [reflexivity|].
  destruct (isspace c); [discriminate|reflexivity].
Qed.

Lemma lstrip_snoc (a : str) (c : N) :
  isspace c = false -> exists y, lstrip (a ++ [c]) = y ++ [c].
Proof.
  intros Hc. induction a as [|d a IH]; simpl.
  - rewrite Hc. now exists [].
  - destruct (isspace d); [exact IH|]. now exists (d :: a).
Qed.

Lemma rstrip_keeps_lead (s : str) :
  no_lead s = true -> no_lead (rstrip s) = true.
Proof.
  destruct s as [|c s]; [reflexivity|]. simpl. intros Hc.
  apply negb_true_iff in Hc. unfold rstrip. simpl.
  destruct (lstrip_snoc (rev s) c Hc) as (y & ->).
  rewrite rev_app_distr. simpl. now rewrite Hc.
Qed.

Lemma rstrip_fixed (s : str) : no_lead (rev s) = true -> rstrip s = s.
Proof.
  intros H. unfold rstrip. rewrite (lstrip_fixed _ H). apply rev_involutive.
Qed.

Lemma strip_strip (s : str) : strip (strip s) = strip s.
Proof.
  unfold strip at 1.
  rewrite (lstrip_fixed (strip s)).
  - apply rstrip_fixed. unfold strip, rstrip. rewrite rev_involutive.
    apply lstrip_no_lead.
  - apply rstrip_keeps_lead, lstrip_no_lead.
Qed.

Lemma lstrip_suffix (s : str) : exists a, s = a ++ lstrip s.
Proof.
  induction s as [|c s (a & IH)]; simpl; [now exists []|].
  destruct (isspace c); [|now exists []].
  exists (c :: a). simpl. now rewrite <- IH.
Qed.

Lemma strip_inside (s : str) : exists a b, s = a ++ strip s ++ b.
Proof.
  destruct (lstrip_suffix s) as (a & Ea).
  destruct (lstrip_suffix (rev (lstrip s))) as (b & Eb).
  exists a, (rev b). unfold strip, rstrip.
  rewrite <- rev_app_distr, <- Eb, rev_involutive. exact Ea.
Qed.

Lemma strip_keeps_absent (n s : str) :
  contains n s = false -> contains n (strip s) = false.
Proof.
  intros H. destruct (strip_inside s) as (a & b & E).
  rewrite E in H. exact (contains_inside n a (strip s) b H).
Qed.

Lemma no_rust_fence (s : str) :
  contains fence s = false -> contains fence_rust s = false.
Proof.
  intros H. destruct (contains fence_rust s) eqn:E; [|reflexivity].
  change fence_rust with (fence ++ u "rust") in E.
  apply contains_shorter in E. congruence.
Qed.

Lemma clean_completion_fixed (c : str) :
  strip c = c -> contains fence c = false -> clean_completion c = c.
Proof.
  intros Hs Hf. unfold clean_completion.
  now rewrite (no_rust_fence _ Hf), Hf.
Qed.

(** What [split] gives last stood at the end of the string, what it gives
    first at its start. *)
Lemma split_skip_single (sep : str) (s : str) : forall k w,
  split_skip sep k s = [w] -> w = skipn k s.
Proof.
  induction s as [|c s IH]; intros k w H.
  - injection H as <-. now destruct k.
  - cbn [split_skip] in H. destruct k as [|k]; [|exact (IH k w H)].
    destruct (starts_with sep (c :: s)).
    + injection H as _ H. now apply split_skip_not_nil in H.
    + destruct (split_skip sep 0 s) as [|w' ws] eqn:E.
      * now apply split_skip_not_nil in E.
      * injection H as <- ->. now rewrite (IH 0 w' E).
Qed.

Lemma last_split_skip_suffix (sep : str) (s : str) : forall k,
  exists a, s = a ++ last (split_skip sep k s) [].
Proof.
  induction s as [|c s IH]; intros k; [now exists []|].
  cbn [split_skip]. destruct k as [|k].
  - destruct (starts_with sep (c :: s)).
    + destruct (IH (len sep - 1)) as (a & E).
      pose proof (@split_skip_not_nil sep s (len sep - 1)) as Hne.
      exists (c :: a).
      destruct (split_skip sep (len sep - 1) s) as [|w ws] eqn:Ew;
        [congruence|].
      change (c :: s = c :: (a ++ last (w :: ws) [])). now rewrite <- E.
    + destruct (IH 0) as (a & E).
      destruct (split_skip sep 0 s) as [|w ws] eqn:Ew.
      * now apply split_skip_not_nil in Ew.
      * destruct ws as [|w' ws].
        -- exists []. apply split_skip_single in Ew. now subst w.
        -- exists (c :: a).
           change (c :: s = c :: (a ++ last (w :: w' :: ws) [])).
           now rewrite <- E.
  - destruct (IH k) as (a & E). exists (c :: a). simpl. now rewrite <- E.
Qed.

Lemma hd_split_on_prefix (c0 : N) (sep' s : str) :
  exists b, s = hd [] (split_on (c0 :: sep') s) ++ b.
Proof.
  destruct (contains (c0 :: sep') s) eqn:E.
  - destruct (split_on_present c0 sep' s E) as (a & rest & Es & -> & _).
    now exists ((c0 :: sep') ++ rest).
  - rewrite (split_on_absent _ _ E). exists []. simpl. now rewrite app_nil_r.
Qed.

Lemma inside_trans (s m x a b a' b' : str) :
  s = a ++ m ++ b -> m = a' ++ x ++ b' ->
  s = (a ++ a') ++ x ++ (b' ++ b).
Proof. intros -> ->. now rewrite <- !app_assoc. Qed.

Lemma clean_completion_no_fence (completion : str) :
  contains fence (clean_completion completion) = false.
Proof.
  unfold clean_completion.
  set (c1 := if contains fence_rust completion
             then last (split_on fence_rust completion) []
             else completion).
  apply strip_keeps_absent.
  destruct (contains fence c1) eqn:E; [|exact E].
  apply hd_split_on_clean.
Qed.

Lemma clean_completion_stripped (completion : str) :
  strip (clean_completion completion) = clean_completion completion.
Proof. unfold clean_completion. apply strip_strip. Qed.

(** X11. The clean-up of a decoded completion leaves no code fence in it
    (neither the three backquotes nor the opening fence of a Rust block)
    and no blank at either end; what it returns is one contiguous part of
    the decoded text; and cleaning a cleaned completion changes nothing. *)
Theorem clean_completion_is_clean (completion : str) :
  contains fence (clean_completion completion) = false
  /\ contains fence_rust (clean_completion completion) = false
  /\ strip (clean_completion completion) = clean_completion completion
  /\ (exists before after,
        completion = before ++ clean_completion completion ++ after)
  /\ clean_completion (clean_completion completion)
     = clean_completion completion.
Proof.
  pose proof (clean_completion_no_fence completion) as Hf.
  pose proof (clean_completion_stripped completion) as Hs.
  split; [exact Hf|]. split; [now apply no_rust_fence|].
  split; [exact Hs|]. split; [|now apply clean_completion_fixed].
  unfold clean_completion.
  set (c1 := if contains fence_rust completion
             then last (split_on fence_rust completion) []
             else completion).
  set (c2 := if contains fence c1 then hd [] (split_on fence c1) else c1).
  assert (H1 : exists a, completion = a ++ c1 ++ []).
  { subst c1. destruct (contains fence_rust completion).
    - destruct (last_split_skip_suffix fence_rust completion 0) as (a & E).
      exists a. now rewrite app_nil_r.
    - exists []. now rewrite app_nil_r. }
  assert (H2 : exists b, c1 = [] ++ c2 ++ b).
  { subst c2. destruct (contains fence c1).
    - apply (hd_split_on_prefix 96 [96; 96]%N c1).
    - exists []. simpl. now rewrite app_nil_r. }
  destruct H1 as (a & H1), H2 as (b & H2).
  destruct (strip_inside c2) as (a' & b' & H3).
  pose proof (@inside_trans _ _ _ _ _ _ _ H1 H2) as H12.
  pose proof (@inside_trans _ _ _ _ _ _ _ H12 H3) as H.
  eexists _, _. exact H.
Qed.

(** X12. A PEFT model path with the checkpoint marker in it is cut at the
    first marker: the repository is what stands before it and holds no
    marker, the subfolder is [checkpoint-] and what stands between the
    first marker and the next one; joined by a slash they are the start of
    the model path, and all of it when the marker occurs once.  Any other
    path is used as it is, with no subfolder. *)
Theorem checkpoint_location_splits (model_path : str) (is_peft : bool) :
  if is_peft && contains checkpoint_marker model_path
  then exists repo name rest,
         checkpoint_location model_path is_peft
         = (repo, Some (u "checkpoint-" ++ name))
         /\ model_path = repo ++ u "/" ++ (u "checkpoint-" ++ name) ++ rest
         /\ contains checkpoint_marker repo = false
         /\ contains checkpoint_marker name = false
         /\ (rest = [] \/ starts_with checkpoint_marker rest = true)
  else checkpoint_location model_path is_peft = (model_path, None).
Proof.
  unfold checkpoint_location.
  destruct (is_peft && contains checkpoint_marker model_path) eqn:E;
    [|reflexivity].
  apply andb_true_iff in E as [_ E].
  change checkpoint_marker with (47%N :: u "checkpoint-") in *.
  destruct (split_on_present _ _ _ E) as (repo & tail & Ep & -> & Hrepo).
  cbn [nth].
  destruct (contains (47%N :: u "checkpoint-") tail) eqn:Et.
  - destruct (split_on_present _ _ _ Et) as (name & rest & Etail & -> & Hn).
    exists repo, name, ((47%N :: u "checkpoint-") ++ rest).
    split; [reflexivity|]. split.
    + rewrite Ep, Etail. now rewrite <- !app_assoc.
    + split; [exact Hrepo|]. split; [exact Hn|]. right.
      apply starts_with_app.
  - rewrite (split_on_absent _ _ Et). exists repo, tail, [].
    split; [reflexivity|]. split.
    + rewrite Ep, app_nil_r. reflexivity.
    + split; [exact Hrepo|]. split; [exact Et|]. now left.
Qed.

(** ** Generation: the batches *)

Lemma firstn_add_skipn {A} (a n : nat) (x : list A) :
  firstn (a + n) x = firstn a x ++ firstn n (skipn a x).
Proof.
  revert x. induction a as [|a IH]; intros x; [reflexivity|].
  destruct x as [|y x]; simpl; [now rewrite firstn_nil|].
  now rewrite IH.
Qed.

Lemma slice_chunk {A} (l : list A) (j b : nat) :
  slice l (j * b) (Nat.min (j * b + b) (List.length l))
  = firstn b (skipn (j * b) l).
Proof.
  unfold slice.
  destruct (Nat.le_gt_cases (j * b + b) (List.length l)) as [H|H].
  - rewrite Nat.min_l by exact H. f_equal. lia.
  - rewrite Nat.min_r by lia.
    rewrite !firstn_all2; [reflexivity| |]; rewrite length_skipn; lia.
Qed.

Lemma chunks_concat {A} (l : list A) (b : nat) : forall m j,
  List.concat (map (fun i => firstn b (skipn (i * b) l)) (seq j m))
  = firstn (m * b) (skipn (j * b) l).
Proof.
  induction m as [|m IH]; intros j; [reflexivity|].
  cbn [seq map List.concat]. rewrite IH.
  change (S j * b) with (b + j * b). change (S m * b) with (b + m * b).
  rewrite <- skipn_skipn. symmetry. apply firstn_add_skipn.
Qed.

Lemma ceil_bounds (t b : nat) :
  0 < b -> t <= (t + b - 1) / b * b /\ (t + b - 1) / b * b < t + b.
Proof.
  intros Hb.
  pose proof (Nat.div_mod_eq (t + b - 1) b) as E.
  pose proof (Nat.mod_upper_bound (t + b - 1) b) as U.
  rewrite (Nat.mul_comm b) in E. lia.
Qed.

Lemma batches_cover {A} (l : list A) (b : nat) :
  0 < b ->
  List.concat (map (fun s => slice l s (Nat.min (s + b) (List.length l)))
              (map (fun i => i * b)
                   (seq 0 ((List.length l + b - 1) / b))))
  = l.
Proof.
  intros Hb. rewrite map_map.
  rewrite (map_ext _ (fun i => firstn b (skipn (i * b) l)))
    by (intros i; apply slice_chunk).
  rewrite chunks_concat. simpl skipn.
  apply firstn_all2. apply (ceil_bounds (List.length l) Hb).
Qed.

Lemma batch_bounds {A} (l : list A) (b s : nat) :
  0 < b ->
  In s (map (fun i => i * b) (seq 0 ((List.length l + b - 1) / b))) ->
  s < List.length l
  /\ 0 < List.length (slice l s (Nat.min (s + b) (List.length l))) <= b.
Proof.
  intros Hb Hs. apply in_map_iff in Hs as (i & <- & Hi).
  apply in_seq in Hi. destruct (ceil_bounds (List.length l) Hb) as [_ U].
  assert (Hlt : i * b < List.length l) by nia.
  split; [exact Hlt|].
  rewrite slice_chunk, length_firstn, length_skipn. lia.
Qed.

(** X13. For a positive batch size the batches the loop cuts are a
    partition of the list in order: the slices from the start indices of
    [range(0, total, batch_size)] to [min(start + batch_size, total)],
    one after the other, give the list back, none is empty and none has
    more than [batch_size] items. *)
Theorem batches_partition {A} (l : list A) (batch_size : Z)
        (Hpos : (0 < batch_size)%Z) :
  exists starts,
    range_from_zero (List.length l) batch_size = Ok starts
    /\ List.concat (map (fun s => slice l s (Nat.min (s + Z.to_nat batch_size)
                                               (List.length l)))
                   starts) = l
    /\ forall s, In s starts ->
         0 < List.length (slice l s (Nat.min (s + Z.to_nat batch_size)
                                             (List.length l)))
         <= Z.to_nat batch_size.
Proof.
  unfold range_from_zero.
  destruct (Z.eqb_spec batch_size 0) as [E|_]; [lia|].
  destruct (Z.ltb_spec batch_size 0) as [E|_]; [lia|].
  assert (Hb : 0 < Z.to_nat batch_size) by lia.
  eexists. split; [reflexivity|]. split.
  - now apply batches_cover.
  - intros s Hs. now apply (@batch_bounds A l _ s Hb Hs).
Qed.

Lemma batches_partition_witness :
  exists starts,
    range_from_zero 5 2 = Ok starts
    /\ List.concat (map (fun s => slice [1; 2; 3; 4; 5] s (Nat.min (s + 2) 5))
                   starts) = [1; 2; 3; 4; 5]
    /\ forall s, In s starts ->
         0 < List.length (slice [1; 2; 3; 4; 5] s (Nat.min (s + 2) 5)) <= 2.
Proof.
  apply (@batches_partition nat [1; 2; 3; 4; 5] 2). lia.
Defined.

(** ** Generation: the loop *)

Lemma slice_in {A} (l : list A) (a b : nat) (x : A) :
  In x (slice l a b) -> In x l.
Proof.
  unfold slice. intros H.
  rewrite <- (firstn_skipn a l). apply in_or_app. right.
  rewrite <- (firstn_skipn (b - a) (skipn a l)). apply in_or_app. now left.
Qed.

Lemma slice_same_length {A B} (l : list A) (l' : list B) (a b : nat) :
  List.length l = List.length l' ->
  List.length (slice l a b) = List.length (slice l' a b).
Proof.
  intros H. unfold slice. rewrite !length_firstn, !length_skipn. lia.
Qed.

Lemma combine_fst {A B} (a : list A) : forall (b : list B),
  List.length a = List.length b -> map fst (combine a b) = a.
Proof.
  induction a as [|x a IH]; intros [|y b] H; try discriminate;
    [reflexivity|]. simpl. f_equal. apply IH. now injection H.
Qed.

Lemma filter_every {A} (f : A -> bool) (l : list A) :
  (forall x, f x = true) -> filter f l = l.
Proof.
  intros H. induction l as [|x l IH]; [reflexivity|]. simpl.
  now rewrite H, IH.
Qed.

Lemma repeated_length {A B} (g : A -> B) (k : nat) (l : list A) :
  List.length (flat_map (fun p => repeat (g p) k) l) = List.length l * k.
Proof.
  induction l as [|x l IH]; [reflexivity|]. simpl.
  now rewrite length_app, repeat_length, IH.
Qed.

Lemma handed_placeholders (l : list Sample) :
  flat_map handed (map PlaceholderAppended l) = l.
Proof. induction l as [|x l IH]; [reflexivity|]. simpl. now rewrite IH. Qed.

Lemma handed_batches (batches : list (list Sample)) :
  flat_map handed (map WroteAll batches) = List.concat batches.
Proof.
  induction batches as [|x l IH]; [reflexivity|]. simpl. now rewrite IH.
Qed.

Lemma record_generated (ids : list str) (t c : str) :
  In t ids -> generated ids (record t (clean_completion c)).
Proof.
  intros H. exists t, (clean_completion c). split; [reflexivity|].
  split; [exact H|]. split.
  - apply clean_completion_stripped.
  - apply clean_completion_no_fence.
Qed.

Lemma placeholder_generated (ids : list str) (t : str) :
  In t ids -> generated ids (record t placeholder_text).
Proof.
  intros H. exists t, placeholder_text. split; [reflexivity|].
  split; [exact H|]. split; vm_compute; reflexivity.
Qed.

Lemma generated_well_formed (ids : list str) (s : Sample) :
  generated ids s -> well_formed s = true.
Proof. intros (t & c & -> & _). reflexivity. Qed.

Lemma has_sample_in (st : Generation.State) (t : str) :
  has_sample st t = true <-> In t (problems_with_samples st).
Proof.
  unfold has_sample. rewrite existsb_exists. split.
  - intros (x & Hx & E). apply str_eqb_eq in E. now subst.
  - intros H. exists t. split; [exact H|]. now apply str_eqb_eq.
Qed.

Lemma consistent_add (ids : list str) (st : Generation.State)
      (new : list Sample) (ts : list str) (ev : list Generation.Event) :
  consistent ids st ->
  task_ids new = map PStr ts ->
  flat_map handed ev = new ->
  Forall (generated ids) new ->
  consistent ids {| samples := samples st ++ new;
                    problems_with_samples := problems_with_samples st ++ ts;
                    events := events st ++ ev |}.
Proof.
  intros (H1 & H2 & H3) Ht Hh Hg. unfold consistent.
  cbn [samples problems_with_samples events]. split; [|split].
  - unfold task_ids in *. rewrite !map_app. congruence.
  - rewrite flat_map_app. congruence.
  - apply Forall_app. now split.
Qed.

Lemma consistent_note (ids : list str) (st : Generation.State)
      (ev : list Generation.Event) :
  consistent ids st ->
  flat_map handed ev = [] ->
  consistent ids {| samples := samples st;
                    problems_with_samples := problems_with_samples st;
                    events := events st ++ ev |}.
Proof.
  intros (H1 & H2 & H3) Hh. unfold consistent.
  cbn [samples problems_with_samples events]. split; [exact H1|].
  split; [|exact H3]. now rewrite flat_map_app, Hh, app_nil_r.
Qed.

Section GenerationProps.

Variable format_prompt : str -> str.
Variable generate_batch : nat -> list str -> result (list str).
Variable generate_one : nat -> nat -> str -> result str.
Variable iteration_order : list str -> list str.

Lemma fallback_step_consistent (ids : list str) (bs : nat)
      (st : Generation.State) (i : nat) (t p : str) :
  In t ids -> consistent ids st ->
  consistent ids (fallback_step generate_one bs st (i, (t, p))).
Proof.
  intros Ht H. unfold fallback_step.
  destruct (generate_one bs i p) as [c|e].
  - apply consistent_add; [exact H|reflexivity|reflexivity|].
    constructor; [|constructor]. now apply record_generated.
  - now apply consistent_note.
Qed.

Lemma fallback_fold_consistent (ids : list str) (bs : nat)
      (items : list (nat * (str * str))) : forall st,
  (forall i t p, In (i, (t, p)) items -> In t ids) ->
  consistent ids st ->
  consistent ids (fold_left (fallback_step generate_one bs) items st).
Proof.
  induction items as [|[i [t p]] items IH]; intros st Hin H; [exact H|].
  cbn [fold_left]. apply IH.
  - intros i' t' p' Hi. apply (Hin i' t' p'). now right.
  - apply fallback_step_consistent; [|exact H]. apply (Hin i t p). now left.
Qed.

Lemma batch_step_consistent (ids ap tids : list str) (b total : nat)
      (st : Generation.State) (s : nat) :
  incl tids ids -> consistent ids st ->
  consistent ids
    (batch_step generate_batch generate_one ap tids b total st s).
Proof.
  intros Hincl H. unfold batch_step.
  destruct (generate_batch s (slice ap s (Nat.min (s + b) total)))
    as [outs|err].
  - apply consistent_add; [exact H| | |].
    + unfold task_ids. now rewrite !map_map.
    + simpl. apply app_nil_r.
    + apply Forall_forall. intros x Hx.
      apply in_map_iff in Hx as ([t c] & <- & Hi).
      apply record_generated, Hincl. apply in_combine_l in Hi.
      now apply slice_in in Hi.
  - apply fallback_fold_consistent.
    + intros i t p Hi. apply in_combine_r in Hi. apply in_combine_l in Hi.
      apply Hincl. now apply slice_in in Hi.
    + now apply consistent_note.
Qed.

Lemma batches_consistent (ids ap tids : list str) (b total : nat)
      (starts : list nat) : forall st,
  incl tids ids -> consistent ids st ->
  consistent ids
    (fold_left (batch_step generate_batch generate_one ap tids b total)
               starts st).
Proof.
  induction starts as [|s starts IH]; intros st Hincl H; [exact H|].
  cbn [fold_left]. apply IH; [exact Hincl|].
  now apply batch_step_consistent.
Qed.

Lemma add_placeholders_consistent (ids : list str) (st : Generation.State) :
  (forall l, Permutation (iteration_order l) l) ->
  consistent ids st ->
  consistent ids (add_placeholders iteration_order ids st).
Proof.
  intros Hperm H. unfold add_placeholders.
  destruct (filter (fun t => negb (has_sample st t)) ids) as [|m ms] eqn:E;
    [exact H|].
  apply consistent_add; [exact H| | |].
  - unfold task_ids. now rewrite map_map.
  - apply handed_placeholders.
  - apply Forall_forall. intros x Hx. apply in_map_iff in Hx as (t & <- & Ht).
    apply placeholder_generated.
    apply (Permutation_in _ (Hperm _)) in Ht. rewrite <- E in Ht.
    now apply filter_In in Ht.
Qed.

Lemma add_placeholders_covers (ids : list str) (st : Generation.State)
      (t : str) :
  (forall l, Permutation (iteration_order l) l) ->
  In t ids ->
  In t (problems_with_samples (add_placeholders iteration_order ids st)).
Proof.
  intros Hperm Ht. unfold add_placeholders.
  destruct (has_sample st t) eqn:Hs.
  - apply has_sample_in in Hs.
    destruct (filter (fun t => negb (has_sample st t)) ids); [exact Hs|].
    cbn [problems_with_samples]. apply in_or_app. now left.
  - assert (Hm : In t (filter (fun t => negb (has_sample st t)) ids)).
    { apply filter_In. split; [exact Ht|]. now rewrite Hs. }
    destruct (filter (fun t => negb (has_sample st t)) ids) as [|m ms] eqn:E;
      [destruct Hm|].
    cbn [problems_with_samples]. apply in_or_app. right.
    exact (Permutation_in _ (Permutation_sym (Hperm _)) Hm).
Qed.

Lemma range_nonzero (stop : nat) (step : Z) :
  step <> 0%Z -> exists starts, range_from_zero stop step = Ok starts.
Proof.
  intros H. unfold range_from_zero.
  destruct (Z.eqb_spec step 0) as [E|_]; [contradiction|].
  destruct (step <? 0)%Z; eexists; reflexivity.
Qed.

Lemma copies_of_problems (problems : list (str * str)) (k : nat) :
  incl (flat_map (fun p => repeat (fst p) k) problems) (map fst problems).
Proof.
  intros t Ht. apply in_flat_map in Ht as (p & Hp & Hr).
  apply repeat_spec in Hr. subst t. now apply in_map.
Qed.

Lemma start_consistent (ids : list str) : consistent ids start.
Proof. split; [reflexivity|]. split; [reflexivity|constructor]. Qed.

Lemma generation_consistent (problems : list (str * str))
      (num_samples_per_task batch_size : Z) :
  (forall l, Permutation (iteration_order l) l) ->
  batch_size <> 0%Z ->
  exists st,
    generate_samples_for_model format_prompt generate_batch generate_one
                               iteration_order problems
                               num_samples_per_task batch_size = Ok st
    /\ consistent (map fst problems) st
    /\ forall t, In t (map fst problems) ->
                 In t (problems_with_samples st).
Proof.
  intros Hperm Hbs. unfold generate_samples_for_model, prepare.
  destruct (range_nonzero
              (List.length
                 (flat_map (fun p => repeat (format_prompt (snd p))
                                            (Z.to_nat num_samples_per_task))
                           problems)) Hbs) as (starts & ->).
  cbn [bind]. eexists. split; [reflexivity|]. split.
  - apply add_placeholders_consistent; [exact Hperm|].
    apply batches_consistent; [apply copies_of_problems|].
    apply start_consistent.
  - intros t Ht. now apply add_placeholders_covers.
Qed.

Lemma consistent_ids (ids : list str) (st : Generation.State) :
  consistent ids st ->
  (forall t, In t ids -> In t (problems_with_samples st)) ->
  forall t, In (PStr t) (task_ids (samples st)) <-> In t ids.
Proof.
  intros (H1 & _ & H3) Hc t. split.
  - intros Ht. apply in_map_iff in Ht as (s & Es & Hs).
    rewrite Forall_forall in H3.
    destruct (H3 s Hs) as (t' & c & -> & Ht' & _).
    injection Es as <-. exact Ht'.
  - intros Ht. rewrite H1. apply in_map. now apply Hc.
Qed.

(** X14. Whatever the model does (a batch failing, a single generation
    failing, an output with too few rows), for a batch size other than 0
    the generator returns, and the samples it collected are the records
    it handed to its writers, in that order; every problem of the dataset
    has a sample among them and every sample belongs to a problem of the
    dataset; each sample carries a string task id and a completion that
    is trimmed and holds no code fence.  The order in which the set of
    missing problems is iterated is any enumeration of it. *)
Theorem generated_samples_cover_problems (problems : list (str * str))
        (num_samples_per_task batch_size : Z)
        (Hperm : forall l, Permutation (iteration_order l) l)
        (Hbs : batch_size <> 0%Z) :
  exists st,
    generate_samples_for_model format_prompt generate_batch generate_one
                               iteration_order problems
                               num_samples_per_task batch_size = Ok st
    /\ flat_map handed (events st) = samples st
    /\ (forall t, In (PStr t) (task_ids (samples st))
                  <-> In t (map fst problems))
    /\ Forall (generated (map fst problems)) (samples st)
    /\ Forall (fun s => well_formed s = true) (samples st).
Proof.
  destruct (generation_consistent problems num_samples_per_task Hperm Hbs)
    as (st & E & (H1 & H2 & H3) & Hc).
  exists st. split; [exact E|]. split; [exact H2|]. split; [|split].
  - apply consistent_ids; [|exact Hc]. now split.
  - exact H3.
  - apply (Forall_impl _ (@generated_well_formed (map fst problems)) H3).
Qed.

End GenerationProps.

Import GenerationExamples.

Lemma generated_samples_cover_problems_witness :
  exists st,
    generate_samples_for_model raw_prompt failing_batch failing_one
                               listed_order two_problems 2 2 = Ok st
    /\ flat_map handed (events st) = samples st
    /\ (forall t, In (PStr t) (task_ids (samples st))
                  <-> In t (map fst two_problems))
    /\ Forall (generated (map fst two_problems)) (samples st)
    /\ Forall (fun s => well_formed s = true) (samples st).
Proof.
  apply (@generated_samples_cover_problems raw_prompt failing_batch
           failing_one listed_order two_problems 2 2).
  - intros l. apply Permutation_refl.
  - discriminate.
Defined.

Section GenerationShapes.

Variable format_prompt : str -> str.
Variable generate_batch : nat -> list str -> result (list str).
Variable generate_one : nat -> nat -> str -> result str.
Variable iteration_order : list str -> list str.

(** The placeholders, one for each task id of a list. *)
Lemma add_placeholders_start (ids : list str) :
  add_placeholders iteration_order ids start
  = match ids with
    | [] => start
    | _ :: _ =>
        {| samples := map (fun t => record t placeholder_text)
                          (iteration_order ids);
           problems_with_samples := iteration_order ids;
           events := map PlaceholderAppended
                         (map (fun t => record t placeholder_text)
                              (iteration_order ids)) |}
    end.
Proof.
  unfold add_placeholders.
  rewrite (filter_every (fun t => negb (has_sample start t)))
    by reflexivity.
  now destruct ids.
Qed.

(** X15. With nothing to generate in batches (a batch size of 0 or less,
    or no sample asked for per task) the model is never called: a batch
    size of 0 ends the function with the ValueError of [range], also when
    there is no problem; otherwise the loop has no iteration and every
    problem of the dataset gets exactly one placeholder record, in the
    order in which the set of missing problems is iterated. *)
Theorem nothing_to_generate (problems : list (str * str))
        (num_samples_per_task batch_size : Z)
        (H : (batch_size <= 0)%Z \/ (num_samples_per_task <= 0)%Z) :
  generate_samples_for_model format_prompt generate_batch generate_one
                             iteration_order problems
                             num_samples_per_task batch_size
  = if (batch_size =? 0)%Z
    then Raise (ValueError (u "range() arg 3 must not be zero"))
    else Ok match problems with
            | [] => start
            | _ :: _ =>
                let placeholders :=
                  map (fun t => record t placeholder_text)
                      (iteration_order (map fst problems)) in
                {| samples := placeholders;
                   problems_with_samples :=
                     iteration_order (map fst problems);
                   events := map PlaceholderAppended placeholders |}
            end.
Proof.
  unfold generate_samples_for_model, prepare, range_from_zero.
  destruct (Z.eqb_spec batch_size 0) as [E|E]; [reflexivity|].
  assert (Hstart :
    (if (batch_size <? 0)%Z then Ok []
     else Ok (map (fun i => i * Z.to_nat batch_size)
                  (seq 0 ((List.length
                             (flat_map
                                (fun p => repeat (format_prompt (snd p))
                                            (Z.to_nat num_samples_per_task))
                                problems)
                           + Z.to_nat batch_size - 1)
                          / Z.to_nat batch_size))))
    = Ok (@nil nat)).
  { destruct (Z.ltb_spec batch_size 0) as [L|L]; [reflexivity|].
    destruct H as [H|H]; [lia|].
    rewrite repeated_length.
    replace (Z.to_nat num_samples_per_task) with 0 by lia.
    rewrite Nat.mul_0_r, Nat.div_small by lia. reflexivity. }
  rewrite Hstart. cbn [bind fold_left].
  rewrite add_placeholders_start. now destruct problems.
Qed.

Lemma batches_written (ap tids : list str) (b total : nat)
      (Hok : forall start prompts,
               exists outs, generate_batch start prompts = Ok outs)
      (starts : list nat) : forall st,
  exists batches,
    events (fold_left
              (batch_step generate_batch generate_one ap tids b total)
              starts st)
    = events st ++ map WroteAll batches
    /\ samples (fold_left
                  (batch_step generate_batch generate_one ap tids b total)
                  starts st)
       = samples st ++ List.concat batches.
Proof.
  induction starts as [|s starts IH]; intros st.
  - exists []. cbn. now rewrite !app_nil_r.
  - cbn [fold_left].
    destruct (IH (batch_step generate_batch generate_one ap tids b total
                             st s)) as (batches & He & Hs).
    rewrite He, Hs. unfold batch_step.
    destruct (Hok s (slice ap s (Nat.min (s + b) total))) as (outs & ->).
    cbn [events samples].
    exists (map (fun item => record (fst item) (clean_completion (snd item)))
                (combine (slice tids s (Nat.min (s + b) total)) outs)
            :: batches).
    cbn [map List.concat]. rewrite <- !app_assoc. split; reflexivity.
Qed.

Lemma batches_all_succeed (ap tids : list str) (b total : nat)
      (Hlen : List.length ap = List.length tids)
      (Hok : forall start prompts,
               exists outs, generate_batch start prompts = Ok outs
                            /\ List.length outs = List.length prompts)
      (starts : list nat) : forall st,
  exists batches,
    events (fold_left
              (batch_step generate_batch generate_one ap tids b total)
              starts st)
    = events st ++ map WroteAll batches
    /\ samples (fold_left
                  (batch_step generate_batch generate_one ap tids b total)
                  starts st)
       = samples st ++ List.concat batches
    /\ problems_with_samples
         (fold_left (batch_step generate_batch generate_one ap tids b total)
                    starts st)
       = problems_with_samples st
         ++ List.concat
              (map (fun s => slice tids s (Nat.min (s + b) total)) starts)
    /\ map (@List.length Sample) batches
       = map (fun s => List.length (slice tids s (Nat.min (s + b) total)))
             starts.
Proof.
  induction starts as [|s starts IH]; intros st.
  - exists []. cbn. now rewrite !app_nil_r.
  - cbn [fold_left].
    destruct (IH (batch_step generate_batch generate_one ap tids b total
                             st s)) as (batches & He & Hs & Hp & Hl).
    rewrite He, Hs, Hp. unfold batch_step.
    destruct (Hok s (slice ap s (Nat.min (s + b) total)))
      as (outs & -> & Lo).
    assert (Lt : List.length (slice tids s (Nat.min (s + b) total))
                 = List.length outs).
    { rewrite Lo. symmetry. now apply slice_same_length. }
    cbn [events samples problems_with_samples].
    rewrite (combine_fst _ _ Lt).
    exists (map (fun item => record (fst item) (clean_completion (snd item)))
                (combine (slice tids s (Nat.min (s + b) total)) outs)
            :: batches).
    cbn [map List.concat]. rewrite <- !app_assoc.
    split; [reflexivity|]. split; [reflexivity|]. split; [reflexivity|].
    f_equal; [|exact Hl].
    rewrite length_map, length_combine. lia.
Qed.

(** X16. When no generation fails (every batch comes back with one output
    row for each prompt), with at least one sample asked for per task and
    a positive batch size, the samples are exactly
    [num_samples_per_task] records for each problem, problem after
    problem in the order of the dataset; they reach the file through the
    one writer, batch after batch, each batch with at least one and at
    most [batch_size] records; there is no placeholder and no other
    event. *)
Theorem generation_without_failures (problems : list (str * str))
        (num_samples_per_task batch_size : Z)
        (Hok : forall start prompts,
                 exists outs, generate_batch start prompts = Ok outs
                              /\ List.length outs = List.length prompts)
        (Hn : (0 < num_samples_per_task)%Z)
        (Hbs : (0 < batch_size)%Z) :
  exists st batches,
    generate_samples_for_model format_prompt generate_batch generate_one
                               iteration_order problems
                               num_samples_per_task batch_size = Ok st
    /\ events st = map WroteAll batches
    /\ samples st = List.concat batches
    /\ (forall batch, In batch batches ->
          0 < List.length batch <= Z.to_nat batch_size)
    /\ task_ids (samples st)
       = map PStr (flat_map (fun p => repeat (fst p)
                                        (Z.to_nat num_samples_per_task))
                            problems).
Proof.
  unfold generate_samples_for_model, prepare, range_from_zero.
  destruct (Z.eqb_spec batch_size 0) as [E|_]; [lia|].
  destruct (Z.ltb_spec batch_size 0) as [E|_]; [lia|].
  cbn [bind].
  set (k := Z.to_nat num_samples_per_task).
  set (b := Z.to_nat batch_size).
  set (ap := flat_map (fun p => repeat (format_prompt (snd p)) k) problems).
  set (tids := flat_map (fun p => repeat (fst p) k) problems).
  assert (Hb : 0 < b) by (subst b; lia).
  assert (Hk : 0 < k) by (subst k; lia).
  assert (Hlen : List.length ap = List.length tids).
  { subst ap tids. now rewrite !repeated_length. }
  rewrite Hlen.
  set (starts := map (fun i => i * b)
                     (seq 0 ((List.length tids + b - 1) / b))).
  destruct (@batches_all_succeed ap tids b (List.length tids) Hlen Hok
                                  starts start)
    as (batches & He & Hs & Hp & Hl).
  set (st := fold_left
               (batch_step generate_batch generate_one ap tids b
                           (List.length tids)) starts start) in *.
  cbn [events samples problems_with_samples start app] in He, Hs, Hp.
  assert (Hp' : problems_with_samples st = tids).
  { rewrite Hp. subst starts. now apply batches_cover. }
  assert (Hst : add_placeholders iteration_order (map fst problems) st = st).
  { unfold add_placeholders. rewrite filter_none; [reflexivity|].
    intros t Ht. apply negb_false_iff, has_sample_in. rewrite Hp'.
    apply in_map_iff in Ht as (p & <- & Hin). subst tids.
    apply in_flat_map. exists p. split; [exact Hin|].
    destruct k; [lia|]. now left. }
  rewrite Hst. exists st, batches.
  split; [reflexivity|]. split; [exact He|]. split; [exact Hs|]. split.
  - intros batch Hin.
    assert (Hin' : In (List.length batch) (map (@List.length Sample) batches))
      by now apply in_map.
    rewrite Hl in Hin'. apply in_map_iff in Hin' as (s & <- & Hs').
    now apply (@batch_bounds str tids b s Hb Hs').
  - assert (Hc : consistent (map fst problems) st).
    { subst st. apply batches_consistent; [apply copies_of_problems|].
      apply start_consistent. }
    destruct Hc as (Hc & _). now rewrite Hc, Hp'.
Qed.

Lemma add_placeholders_shape (ids : list str) (st : Generation.State) :
  exists placeholders,
    events (add_placeholders iteration_order ids st)
    = events st ++ map PlaceholderAppended placeholders
    /\ samples (add_placeholders iteration_order ids st)
       = samples st ++ placeholders
    /\ Forall (fun s => passes s = true) placeholders.
Proof.
  unfold add_placeholders.
  destruct (filter (fun t => negb (has_sample st t)) ids) as [|m ms].
  - exists []. cbn [map]. rewrite !app_nil_r. now split.
  - eexists. cbn [events samples]. split; [reflexivity|].
    split; [reflexivity|]. apply Forall_forall. intros x Hx.
    apply in_map_iff in Hx as (t & <- & _). vm_compute. reflexivity.
Qed.

(** X17. The generator and the filter together, when no batch fails (so
    that every record goes through the one writer, or is a placeholder
    appended after that writer is closed): the filter returns on the
    records written, its output has a record for every problem of the
    dataset and for no other task, and every placeholder is in it, since a
    placeholder passes the three predicates. *)
Theorem generated_records_pass_the_filter (problems : list (str * str))
        (num_samples_per_task batch_size : Z)
        (Hperm : forall l, Permutation (iteration_order l) l)
        (Hok : forall start prompts,
                 exists outs, generate_batch start prompts = Ok outs)
        (Hbs : batch_size <> 0%Z) :
  exists st batches placeholders out,
    generate_samples_for_model format_prompt generate_batch generate_one
                               iteration_order problems
                               num_samples_per_task batch_size = Ok st
    /\ events st
       = map WroteAll batches ++ map PlaceholderAppended placeholders
    /\ filtered_output (List.concat batches ++ placeholders) = Ok out
    /\ (forall t, In (PStr t) (task_ids out) <-> In t (map fst problems))
    /\ (forall s, In s placeholders -> In s out).
Proof.
  destruct (@generation_consistent format_prompt generate_batch generate_one
              iteration_order problems num_samples_per_task batch_size
              Hperm Hbs)
    as (st & E & Hc & Hcov).
  pose proof (consistent_ids Hc Hcov) as Hids.
  assert (Hshape : exists batches placeholders,
             events st
             = map WroteAll batches ++ map PlaceholderAppended placeholders
             /\ samples st = List.concat batches ++ placeholders
             /\ Forall (fun s => passes s = true) placeholders).
  { pose proof E as E'.
    unfold generate_samples_for_model, prepare in E'.
    destruct (range_nonzero
                (List.length
                   (flat_map (fun p => repeat (format_prompt (snd p))
                                         (Z.to_nat num_samples_per_task))
                             problems)) Hbs) as (starts & Er).
    rewrite Er in E'. cbn [bind] in E'. injection E' as <-.
    match goal with
    | |- context [add_placeholders _ ?ids ?st'] =>
        destruct (add_placeholders_shape ids st') as (ph & He & Hs & Hp);
        rewrite He, Hs
    end.
    match goal with
    | |- context [fold_left (batch_step _ _ ?ap ?tids ?b ?total) ?l start] =>
        destruct (@batches_written ap tids b total Hok l start)
          as (batches & He' & Hs');
        rewrite He', Hs'
    end.
    exists batches, ph. now split. }
  destruct Hshape as (batches & placeholders & He & Hs & Hp).
  destruct Hc as (_ & _ & Hg).
  assert (Hwf : Forall (fun s => well_formed s = true) (samples st)).
  { apply (Forall_impl _ (@generated_well_formed (map fst problems)) Hg). }
  destruct (output_by_task Hwf) as (out & Eo & _ & _ & Hof & Hin).
  exists st, batches, placeholders, out.
  split; [exact E|]. split; [exact He|]. rewrite <- Hs.
  split; [exact Eo|]. split.
  - intros t. rewrite Hin. apply Hids.
  - intros s Hsin. rewrite Forall_forall in Hp.
    assert (Hk : In s (filter passes (of_task (get_task_id s) (samples st)))).
    { apply filter_In. split; [|now apply Hp].
      apply filter_In. split.
      - rewrite Hs. apply in_or_app. now right.
      - apply pyval_eqb_refl. }
    rewrite <- filter_passes_expected, <- Hof in Hk.
    apply filter_In in Hk as [Hk _]. now apply filter_In in Hk.
Qed.

End GenerationShapes.

Lemma generated_records_pass_the_filter_witness :
  exists st batches placeholders out,
    generate_samples_for_model raw_prompt silent_batch failing_one
                               listed_order two_problems 1 8 = Ok st
    /\ events st
       = map WroteAll batches ++ map PlaceholderAppended placeholders
    /\ filtered_output (List.concat batches ++ placeholders) = Ok out
    /\ (forall t, In (PStr t) (task_ids out) <-> In t (map fst two_problems))
    /\ (forall s, In s placeholders -> In s out).
Proof.
  apply (@generated_records_pass_the_filter raw_prompt silent_batch
           failing_one listed_order two_problems 1 8).
  - intros l. apply Permutation_refl.
  - intros start prompts. now exists [].
  - discriminate.
Defined.

Lemma nothing_to_generate_witness :
  generate_samples_for_model raw_prompt answering_batch failing_one
                             listed_order two_problems 2 (-1)
  = Ok {| samples := [record (u "Rust/0") placeholder_text;
                      record (u "Rust/1") placeholder_text];
          problems_with_samples := [u "Rust/0"; u "Rust/1"];
          events := [PlaceholderAppended
                       (record (u "Rust/0") placeholder_text);
                     PlaceholderAppended
                       (record (u "Rust/1") placeholder_text)] |}.
Proof.
  apply (@nothing_to_generate raw_prompt answering_batch failing_one
           listed_order two_problems 2 (-1)).
  left. lia.
Defined.

Lemma generation_without_failures_witness :
  exists st batches,
    generate_samples_for_model raw_prompt answering_batch failing_one
                               listed_order two_problems 3 4 = Ok st
    /\ events st = map WroteAll batches
    /\ samples st = List.concat batches
    /\ (forall batch, In batch batches -> 0 < List.length batch <= 4)
    /\ task_ids (samples st)
       = map PStr [u "Rust/0"; u "Rust/0"; u "Rust/0";
                   u "Rust/1"; u "Rust/1"; u "Rust/1"].
Proof.
  apply (@generation_without_failures raw_prompt answering_batch
           failing_one listed_order two_problems 3 4).
  - intros start prompts. eexists. split; [reflexivity|].
    apply length_map.
  - lia.
  - lia.
Defined.

(** ** The resolver: what a resolved mode guarantees *)

(** X18. The resolver read from its result.  A mode it returns is
    [firejail] or [none]; it returns [firejail] only on a host where
    Firejail is found, and then no message is a warning; it returns [none]
    only when [none] was asked for or Firejail is not found, and then a
    message is a warning.  When it raises, it is the [ValueError] for a
    word that is none of the three modes, or the [RuntimeError] for
    [firejail] asked for on a host without it. *)
Theorem resolved_mode_is_safe (lower : str -> str) (which : str -> option str)
        (requested : option str) :
  match Sandbox._resolve_sandbox_mode lower which requested with
  | Ok (mode, msgs) =>
      (mode = u "firejail" /\ firejail_found which = true
       /\ existsb is_warning msgs = false)
      \/ (mode = u "none" /\ existsb is_warning msgs = true
          /\ (asks_for lower requested "none"
              \/ firejail_found which = false))
  | Raise e =>
      (e = ValueError (Sandbox.invalid_mode_message requested)
       /\ exists n, Sandbox.normalize lower requested = Some n
                    /\ legal_mode n = false)
      \/ (e = RuntimeError Sandbox.firejail_missing_message
          /\ asks_for lower requested "firejail"
          /\ firejail_found which = false)
  end.
Proof.
  unfold Sandbox._resolve_sandbox_mode, asks_for, firejail_found, legal_mode.
  destruct (Sandbox.normalize lower requested) as [n|] eqn:En;
    cbn [Sandbox.opt_is].
  - destruct (str_eqb n (u "auto")) eqn:Ea.
    + destruct (Sandbox.truthy_path (which (u "firejail"))) eqn:Ew.
      * left. now repeat split.
      * right. split; [reflexivity|]. split; [reflexivity|]. now right.
    + destruct (str_eqb n (u "firejail")) eqn:Ef; cbn [orb negb].
      * apply str_eqb_eq in Ef. subst n.
        destruct (Sandbox.truthy_path (which (u "firejail"))) eqn:Ew;
          cbn [negb].
        -- left. now repeat split.
        -- right. now repeat split.
      * destruct (str_eqb n (u "none")) eqn:Eo; cbn [negb].
        -- apply str_eqb_eq in Eo. subst n. right.
           split; [reflexivity|]. split; [reflexivity|]. now left.
        -- left. split; [reflexivity|]. exists n. split; [reflexivity|].
           now rewrite Ef, Eo, Ea.
  - destruct (Sandbox.truthy_path (which (u "firejail"))) eqn:Ew.
    + left. now repeat split.
    + right. split; [reflexivity|]. split; [reflexivity|]. now right.
Qed.
